(** * The xv6 buffer cache (kernel/bio.c), hash-bucket variant, and
    user/find.c

    A shallow embedding of the [LAB_LOCK_2] configuration of [kernel/bio.c]
    (without [LAB_LOCK_ARCHIVE]): a pool of [NBUF] buffers, [NBUCKET] hash
    buckets threaded through the buffers' [prev]/[next] pointers, one spin
    lock per bucket, one spin lock for the whole cache and one sleep lock
    per buffer.

    The C code is stateful and fallible, so every kernel function becomes a
    computation in a small state-and-failure monad over the cache state.
    Lock operations and device transfers are recorded in an event trace so
    that locking protocols can be stated on the code's own behaviour.

    The configuration without [LAB_LOCK_2], one list of all the buffers
    under one lock, is embedded in the same monad, in [Module Stock].

    [user/find.c] is a user program over paths: [pathFileName] is a pure
    function on C strings, [_find] a recursion over what the kernel
    answers, taken as a parameter. *)

From Stdlib Require Import ZArith Lia String.
From stdpp Require Import base list.

(** ** Machine integers *)

(** [uint] arithmetic wraps modulo 2^32. *)
Definition wrap32 (z : Z) : Z := (z mod 2 ^ 32)%Z.

(** [#define NBUCKET 13] *)
Definition NBUCKET : Z := 13%Z.

(** [blockno % NBUCKET], used as an index into [table] and [bucketlock]. *)
Definition bucket_of (blockno : Z) : nat := Z.to_nat (blockno mod NBUCKET).

(** ** Pointers and buffers *)

(** A [struct buf *] points nowhere, at a bucket head [&table[i]], or at a
    pool buffer [&bcache.buf[i]]. *)
Inductive ptr : Type :=
| PNull
| PTable (i : nat)
| PBuf (i : nat).

#[global] Instance ptr_eq_dec : EqDecision ptr.
Proof. solve_decision. Defined.

Definition ptr_eqb (p q : ptr) : bool := bool_decide (p = q).

Module Buf.
(** Modelled from the spec: [struct buf] (buf.h is not part of the
    sources), the Buffer Slot with the fields bio.c touches.  [lock] is
    the sleep lock, reduced to its holder: [None] when free, [Some pid]
    when held by the process [pid]; [timestamp] is the slot's [last_used];
    [data] is the payload. *)
Record t : Type := mk {
  valid : Z;
  dev : Z;
  blockno : Z;
  lock : option Z;
  refcnt : Z;
  timestamp : Z;
  prev : ptr;
  next : ptr;
  data : list Byte.byte
}.

(** A zero-filled [struct buf], as static storage starts out. *)
Definition zero : t := mk 0 0 0 None 0 0 PNull PNull [].

Definition set_valid (v : Z) (b : t) : t :=
  mk v (dev b) (blockno b) (lock b) (refcnt b) (timestamp b) (prev b) (next b) (data b).
Definition set_lock (l : option Z) (b : t) : t :=
  mk (valid b) (dev b) (blockno b) l (refcnt b) (timestamp b) (prev b) (next b) (data b).
Definition set_refcnt (r : Z) (b : t) : t :=
  mk (valid b) (dev b) (blockno b) (lock b) r (timestamp b) (prev b) (next b) (data b).
Definition set_timestamp (ts : Z) (b : t) : t :=
  mk (valid b) (dev b) (blockno b) (lock b) (refcnt b) ts (prev b) (next b) (data b).
Definition set_prev (p : ptr) (b : t) : t :=
  mk (valid b) (dev b) (blockno b) (lock b) (refcnt b) (timestamp b) p (next b) (data b).
Definition set_next (p : ptr) (b : t) : t :=
  mk (valid b) (dev b) (blockno b) (lock b) (refcnt b) (timestamp b) (prev b) p (data b).
Definition set_data (d : list Byte.byte) (b : t) : t :=
  mk (valid b) (dev b) (blockno b) (lock b) (refcnt b) (timestamp b) (prev b) (next b) d.

(** Lines 137-141 of bget: the five assignments that relabel a victim. *)
Definition relabel (dev' blockno' ticks' : Z) (b : t) : t :=
  mk 0 dev' blockno' (lock b) 1 ticks' (prev b) (next b) (data b).
End Buf.

(** ** Events *)

(** The spin locks of the cache: [bcache.lock] and [bcache.bucketlock[i]]. *)
Inductive lockid : Type :=
| BcacheLock
| BucketLock (i : nat).

#[global] Instance lockid_eq_dec : EqDecision lockid.
Proof. solve_decision. Defined.

Inductive event : Type :=
| Acquire (pid : Z) (l : lockid)
| Release (pid : Z) (l : lockid)
| AcquireSleep (pid : Z) (b : ptr)
| ReleaseSleep (pid : Z) (b : ptr)
| DiskRW (b : ptr) (write : bool).

(** ** Cache state *)

(** [table] is the array of bucket heads, [buf] is [bcache.buf] (its
    length is [NBUF], which param.h fixes), [ticks] is the kernel's tick
    counter (a [uint] declared outside bio.c and advanced by the timer
    interrupt), [disk] holds the device's blocks and [trace] the events so
    far, oldest first. *)
Record state : Type := mkstate {
  table : list Buf.t;
  buf : list Buf.t;
  ticks : Z;
  disk : Z -> Z -> list Byte.byte;
  trace : list event
}.

Definition set_table (f : list Buf.t -> list Buf.t) (s : state) : state :=
  mkstate (f (table s)) (buf s) (ticks s) (disk s) (trace s).
Definition set_buf (f : list Buf.t -> list Buf.t) (s : state) : state :=
  mkstate (table s) (f (buf s)) (ticks s) (disk s) (trace s).
Definition set_ticks (t : Z) (s : state) : state :=
  mkstate (table s) (buf s) t (disk s) (trace s).
Definition set_disk (d : Z -> Z -> list Byte.byte) (s : state) : state :=
  mkstate (table s) (buf s) (ticks s) d (trace s).
Definition log (e : event) (s : state) : state :=
  mkstate (table s) (buf s) (ticks s) (disk s) (trace s ++ [e]).

(** [*p] *)
Definition deref (s : state) (p : ptr) : option Buf.t :=
  match p with
  | PNull => None
  | PTable i => table s !! i
  | PBuf i => buf s !! i
  end.

(** [*p = f( *p )] *)
Definition update (p : ptr) (f : Buf.t -> Buf.t) (s : state) : state :=
  match p with
  | PNull => s
  | PTable i => set_table (alter f i) s
  | PBuf i => set_buf (alter f i) s
  end.

(** ** The monad of kernel computations *)

(** A call returns, panics, faults on a wild pointer, goes to sleep on a
    buffer's sleep lock that someone else holds, or spins forever in a list
    walk.  Every outcome carries the state reached. *)
Inductive outcome (A : Type) : Type :=
| Ret (a : A) (s : state)
| Panic (msg : string) (s : state)
| Fault (s : state)
| Sleeping (b : ptr) (s : state)
| Spin (s : state).
Arguments Ret {A} a s.
Arguments Panic {A} msg s.
Arguments Fault {A} s.
Arguments Sleeping {A} b s.
Arguments Spin {A} s.

Definition final {A} (o : outcome A) : state :=
  match o with
  | Ret _ s | Panic _ s | Fault s | Sleeping _ s | Spin s => s
  end.

Definition M (A : Type) : Type := state -> outcome A.

Definition ret {A} (a : A) : M A := fun s => Ret a s.

Definition bind {A B} (m : M A) (k : A -> M B) : M B :=
  fun s =>
    match m s with
    | Ret a s' => k a s'
    | Panic msg s' => Panic msg s'
    | Fault s' => Fault s'
    | Sleeping b s' => Sleeping b s'
    | Spin s' => Spin s'
    end.

Declare Scope bio_scope.
Delimit Scope bio_scope with bio.
Notation "x <~ c ;; k" := (bind c (fun x => k))
  (at level 100, c at next level, right associativity) : bio_scope.
Notation "c ;;; k" := (bind c (fun _ => k))
  (at level 100, right associativity) : bio_scope.
Local Open Scope bio_scope.

Definition get : M state := fun s => Ret s s.
Definition modify (f : state -> state) : M unit := fun s => Ret tt (f s).
Definition emit (e : event) : M unit := modify (log e).

Definition load (p : ptr) : M Buf.t :=
  fun s => match deref s p with Some b => Ret b s | None => Fault s end.

Definition store (p : ptr) (f : Buf.t -> Buf.t) : M unit :=
  fun s => match deref s p with Some _ => Ret tt (update p f s) | None => Fault s end.

Definition when (c : bool) (m : M unit) : M unit := if c then m else ret tt.

(** ** Collaborators of bio.c *)

(** Modelled from the spec: the kernel's [panic] (printf.c is not part of
    the sources); a fatal error that stops the calling context. *)
Definition panic {A} (msg : string) : M A := fun s => Panic msg s.

(** Modelled from the spec: spin-lock [acquire] and [release] (spinlock.c
    is not part of the sources).  The shard locks and the Pool lock are
    held briefly around a critical section; a call is recorded in the
    trace. *)
Definition acquire (pid : Z) (l : lockid) : M unit := emit (Acquire pid l).
Definition release (pid : Z) (l : lockid) : M unit := emit (Release pid l).

(** Modelled from the spec: the Exclusive Lock (sleeplock.c is not part of
    the sources): [acquire()] blocks until obtained, [release()] is called
    by the holder, [is_held_by_caller()] tells whether the calling context
    is the holder; exactly one holder. *)
Definition acquiresleep (pid : Z) (b : ptr) : M unit :=
  bf <~ load b ;;
  match Buf.lock bf with
  | None => store b (Buf.set_lock (Some pid)) ;;; emit (AcquireSleep pid b)
  | Some _ => fun s => Sleeping b s
  end.

Definition releasesleep (pid : Z) (b : ptr) : M unit :=
  store b (Buf.set_lock None) ;;; emit (ReleaseSleep pid b).

Definition holdingsleep (pid : Z) (b : ptr) : M bool :=
  bf <~ load b ;;
  ret (bool_decide (Buf.lock bf = Some pid)).

(** Modelled from the spec: the Device Backend (virtio_disk.c is not part
    of the sources): a synchronous transfer of the block named by the
    buffer, from the device into [data] on a read and from [data] to the
    device on a write. *)
Definition virtio_disk_rw (b : ptr) (write : bool) : M unit :=
  bf <~ load b ;;
  (if write
   then modify (fun s =>
          set_disk (fun d n => if Z.eqb d (Buf.dev bf) && Z.eqb n (Buf.blockno bf)
                               then Buf.data bf else disk s d n) s)
   else s <~ get ;; store b (Buf.set_data (disk s (Buf.dev bf) (Buf.blockno bf)))) ;;;
  emit (DiskRW b write).

(** ** kernel/bio.c *)

(** [binit]: every bucket head points at itself, every sleep lock is
    initialised (free). *)
Definition binit_head (i : nat) (h : Buf.t) : Buf.t :=
  Buf.set_prev (PTable i) (Buf.set_next (PTable i) h).

Definition binit (s : state) : state :=
  set_buf (fmap (Buf.set_lock None)) (set_table (imap binit_head) s).

(** The static storage bio.c starts from: [NBUCKET] zero-filled bucket
    heads and [nbuf] zero-filled buffers ([NBUF] comes from param.h). *)
Definition zero_state (nbuf : nat) (d : Z -> Z -> list Byte.byte) : state :=
  mkstate (replicate (Z.to_nat NBUCKET) Buf.zero) (replicate nbuf Buf.zero) 0 d [].

Definition boot (nbuf : nat) (d : Z -> Z -> list Byte.byte) : state :=
  binit (zero_state nbuf d).

(** The lookup loop of [bget], lines 107-115:
    [for (b = table[bucketno].next; b != &table[bucketno]; b = b->next)].
    [fuel] bounds the number of nodes visited. *)
Inductive walk_result : Type :=
| WHit (b : ptr)
| WMiss
| WFault
| WSpin.

Fixpoint bget_walk (fuel : nat) (s : state) (head b : ptr) (dev blockno : Z)
  : walk_result :=
  match fuel with
  | O => WSpin
  | S fuel' =>
      if ptr_eqb b head then WMiss
      else match deref s b with
           | None => WFault
           | Some bf =>
               if Z.eqb (Buf.blockno bf) blockno && Z.eqb (Buf.dev bf) dev
               then WHit b
               else bget_walk fuel' s head (Buf.next bf) dev blockno
           end
  end.

(** The walk follows [next] deterministically through the nodes of the
    state; a walk that has visited more nodes than there are has entered a
    cycle that avoids the head, and the C loop never leaves it (lemma
    [walk_spins_for_ever]). *)
Definition walk_fuel (s : state) : nat := S (length (table s) + length (buf s)).

Definition bget_find (head first : ptr) (dev blockno : Z) : M (option ptr) :=
  fun s =>
    match bget_walk (walk_fuel s) s head first dev blockno with
    | WHit b => Ret (Some b) s
    | WMiss => Ret None s
    | WFault => Fault s
    | WSpin => Spin s
    end.

(** Lines 104-118 of [bget]: the critical section under the target bucket's
    lock.  [Some b] is the hit (the code goes on to [acquiresleep]), [None]
    the miss. *)
Definition bget_lookup (pid dev blockno : Z) : M (option ptr) :=
  let bucketno := bucket_of blockno in
  acquire pid (BucketLock bucketno) ;;;
  head <~ load (PTable bucketno) ;;
  r <~ bget_find (PTable bucketno) (Buf.next head) dev blockno ;;
  match r with
  | Some b =>
      store b (fun bf => Buf.set_refcnt (wrap32 (Buf.refcnt bf + 1)) bf) ;;;
      s <~ get ;;
      store b (Buf.set_timestamp (ticks s)) ;;;
      release pid (BucketLock bucketno) ;;;
      ret (Some b)
  | None =>
      release pid (BucketLock bucketno) ;;;
      ret None
  end.

(** Lines 122-129 of [bget]: the scan of [bcache.buf] for a victim.  [i] is
    the index of the head of [l], [timestamp] and [lru] the loop's
    variables. *)
Fixpoint bget_scan (l : list Buf.t) (i : nat) (timestamp : Z) (lru : option nat)
  : option nat :=
  match l with
  | [] => lru
  | b :: l' =>
      if Z.eqb (Buf.refcnt b) 0 && Z.leb (Buf.timestamp b) timestamp
      then bget_scan l' (S i) (Buf.timestamp b) (Some i)
      else bget_scan l' (S i) timestamp lru
  end.

(** Lines 144-155 of [bget]: link [lru] at the front of bucket [bucketno]. *)
Definition bget_link (bucketno : nat) (lru : ptr) : M unit :=
  head <~ load (PTable bucketno) ;;
  if ptr_eqb (Buf.next head) (PTable bucketno) then
    store lru (Buf.set_prev (PTable bucketno)) ;;;
    store lru (Buf.set_next (PTable bucketno)) ;;;
    store (PTable bucketno) (Buf.set_next lru) ;;;
    store (PTable bucketno) (Buf.set_prev lru)
  else
    store lru (Buf.set_next (Buf.next head)) ;;;
    store lru (Buf.set_prev (PTable bucketno)) ;;;
    head' <~ load (PTable bucketno) ;;
    store (Buf.next head') (Buf.set_prev lru) ;;;
    store (PTable bucketno) (Buf.set_next lru).

(** Lines 120-165 of [bget]: the critical section under [bcache.lock].
    [Some lru] is the admitted buffer (the code goes on to [acquiresleep]),
    [None] means no victim was found (the code goes on to [panic]). *)
Definition bget_admit (pid dev blockno : Z) : M (option ptr) :=
  let bucketno := bucket_of blockno in
  acquire pid BcacheLock ;;;
  s <~ get ;;
  match bget_scan (buf s) 0 (ticks s) None with
  | Some i =>
      let lru := PBuf i in
      l <~ load lru ;;
      let old_bucketno := bucket_of (Buf.blockno l) in
      acquire pid (BucketLock bucketno) ;;;
      when (negb (bool_decide (old_bucketno = bucketno)))
           (acquire pid (BucketLock old_bucketno)) ;;;
      s' <~ get ;;
      store lru (Buf.relabel dev blockno (ticks s')) ;;;
      bget_link bucketno lru ;;;
      when (negb (bool_decide (old_bucketno = bucketno)))
           (release pid (BucketLock old_bucketno)) ;;;
      release pid (BucketLock bucketno) ;;;
      release pid BcacheLock ;;;
      ret (Some lru)
  | None =>
      release pid BcacheLock ;;;
      ret None
  end.

(** [bget], lines 99-239 under [LAB_LOCK_2]. *)
Definition bget (pid dev blockno : Z) : M ptr :=
  r <~ bget_lookup pid dev blockno ;;
  match r with
  | Some b => acquiresleep pid b ;;; ret b
  | None =>
      r' <~ bget_admit pid dev blockno ;;
      match r' with
      | Some lru => acquiresleep pid lru ;;; ret lru
      | None => panic "bget: no buffers"
      end
  end.

(** Lines 248-252 of [bread]: what [bread] does with the buffer that [bget]
    handed back. *)
Definition bread_fill (b : ptr) : M ptr :=
  bf <~ load b ;;
  (if Z.eqb (Buf.valid bf) 0
   then virtio_disk_rw b false ;;; store b (Buf.set_valid 1)
   else ret tt) ;;;
  ret b.

Definition bread (pid dev blockno : Z) : M ptr :=
  b <~ bget pid dev blockno ;;
  bread_fill b.

Definition bwrite (pid : Z) (b : ptr) : M unit :=
  h <~ holdingsleep pid b ;;
  if negb h then panic "bwrite"
  else virtio_disk_rw b true.

Definition brelse (pid : Z) (b : ptr) : M unit :=
  h <~ holdingsleep pid b ;;
  if negb h then panic "brelse"
  else
    releasesleep pid b ;;;
    bf <~ load b ;;
    let bucketno := bucket_of (Buf.blockno bf) in
    acquire pid (BucketLock bucketno) ;;;
    store b (fun bf => Buf.set_refcnt (wrap32 (Buf.refcnt bf - 1)) bf) ;;;
    bf' <~ load b ;;
    (if Z.eqb (Buf.refcnt bf') 0
     then store (Buf.prev bf') (Buf.set_next (Buf.next bf')) ;;;
          bf'' <~ load b ;;
          store (Buf.next bf'') (Buf.set_prev (Buf.prev bf''))
     else ret tt) ;;;
    release pid (BucketLock bucketno).

Definition bpin (pid : Z) (b : ptr) : M unit :=
  bf <~ load b ;;
  let bucketno := bucket_of (Buf.blockno bf) in
  acquire pid (BucketLock bucketno) ;;;
  store b (fun bf => Buf.set_refcnt (wrap32 (Buf.refcnt bf + 1)) bf) ;;;
  release pid (BucketLock bucketno).

Definition bunpin (pid : Z) (b : ptr) : M unit :=
  bf <~ load b ;;
  let bucketno := bucket_of (Buf.blockno bf) in
  acquire pid (BucketLock bucketno) ;;;
  store b (fun bf => Buf.set_refcnt (wrap32 (Buf.refcnt bf - 1)) bf) ;;;
  release pid (BucketLock bucketno).

(** ** Reading a state *)

(** The members of bucket [k]: the nodes met from [table[k].next] until
    the head comes round again ([None] if the walk faults or runs out of
    fuel). *)
Fixpoint members_from (fuel : nat) (s : state) (head b : ptr) : option (list ptr) :=
  match fuel with
  | O => None
  | S fuel' =>
      if ptr_eqb b head then Some []
      else match deref s b with
           | None => None
           | Some bf => cons b <$> members_from fuel' s head (Buf.next bf)
           end
  end.

Definition members (s : state) (k : nat) : option (list ptr) :=
  h ← table s !! k; members_from (walk_fuel s) s (PTable k) (Buf.next h).


(** The pool indices of the live buffers ([refcnt > 0]) labelled with the
    block [(dev, blockno)]. *)
Definition is_live_on (dev blockno : Z) (b : Buf.t) : bool :=
  Z.eqb (Buf.dev b) dev && Z.eqb (Buf.blockno b) blockno && Z.ltb 0 (Buf.refcnt b).

Fixpoint live_from (i : nat) (l : list Buf.t) (dev blockno : Z) : list nat :=
  match l with
  | [] => []
  | b :: l' =>
      if is_live_on dev blockno b
      then i :: live_from (S i) l' dev blockno
      else live_from (S i) l' dev blockno
  end.

Definition live_on (s : state) (dev blockno : Z) : list nat :=
  live_from 0 (buf s) dev blockno.

(** ** Reading a trace *)

(** The spin locks [pid] holds after an event, given those held before. *)
Definition lock_step (pid : Z) (held : list lockid) (e : event) : list lockid :=
  match e with
  | Acquire p l => if bool_decide (p = pid) then l :: held else held
  | Release p l =>
      if bool_decide (p = pid)
      then filter (fun l' => l' ≠ l) held
      else held
  | _ => held
  end.

Definition locks_held (pid : Z) (evs : list event) : list lockid :=
  foldl (lock_step pid) [] evs.

(** [pid] never calls [acquiresleep] while it holds a spin lock. *)
Fixpoint sleep_unlocked (pid : Z) (held : list lockid) (evs : list event) : bool :=
  match evs with
  | [] => true
  | e :: evs' =>
      match e with
      | AcquireSleep p _ =>
          (negb (bool_decide (p = pid)) || bool_decide (held = []))
          && sleep_unlocked pid held evs'
      | _ => sleep_unlocked pid (lock_step pid held e) evs'
      end
  end.

(** Some bucket lock in [held] has an index above [k]. *)
Definition holds_above (k : nat) (held : list lockid) : bool :=
  existsb (fun l => match l with
                    | BucketLock j => bool_decide (k < j)
                    | BcacheLock => false
                    end) held.

(** [pid] never acquires a bucket lock while it holds one of a higher
    index. *)
Fixpoint ascending (pid : Z) (held : list lockid) (evs : list event) : bool :=
  match evs with
  | [] => true
  | e :: evs' =>
      match e with
      | Acquire p (BucketLock k) =>
          (negb (bool_decide (p = pid)) || negb (holds_above k held))
          && ascending pid (lock_step pid held e) evs'
      | _ => ascending pid (lock_step pid held e) evs'
      end
  end.

(** ** Several contexts inside [bget] *)

(** Where a context stands in [bget].  Its two critical sections and the
    final [acquiresleep] are the units of interleaving: the spin locks make
    each section atomic with respect to the sections of other contexts. *)
Inductive thread : Type :=
| TLookup (dev blockno : Z)
| TAdmit (dev blockno : Z)
| TSleep (b : ptr)
| TReturned (b : ptr)
| TStopped.

Definition thread_step (pid : Z) (t : thread) (s : state) : thread * state :=
  match t with
  | TLookup dev blockno =>
      match bget_lookup pid dev blockno s with
      | Ret (Some b) s' => (TSleep b, s')
      | Ret None s' => (TAdmit dev blockno, s')
      | o => (TStopped, final o)
      end
  | TAdmit dev blockno =>
      match bget_admit pid dev blockno s with
      | Ret (Some lru) s' => (TSleep lru, s')
      | o => (TStopped, final o)
      end
  | TSleep b =>
      match acquiresleep pid b s with
      | Ret _ s' => (TReturned b, s')
      | Sleeping _ s' => (TSleep b, s')
      | o => (TStopped, final o)
      end
  | TReturned b => (TReturned b, s)
  | TStopped => (TStopped, s)
  end.

(** The context [pid] takes one step; the others stay where they are. *)
Fixpoint step_pid (pid : Z) (ts : list (Z * thread)) (s : state)
  : list (Z * thread) * state :=
  match ts with
  | [] => ([], s)
  | (p, t) :: ts' =>
      if Z.eqb p pid
      then let '(t', s') := thread_step p t s in ((p, t') :: ts', s')
      else let '(ts'', s') := step_pid pid ts' s in ((p, t) :: ts'', s')
  end.

(** A schedule names, step by step, the context that runs next. *)
Fixpoint run (sched : list Z) (ts : list (Z * thread)) (s : state)
  : list (Z * thread) * state :=
  match sched with
  | [] => (ts, s)
  | pid :: sched' => let '(ts', s') := step_pid pid ts s in run sched' ts' s'
  end.

(** ** Single-context workloads *)

(** One acquire/release pair at tick [t]: the timer has brought [ticks] to
    [t], the caller takes the block with [bget] and gives it back with
    [brelse]. *)
Definition use_block (pid : Z) (r : Z * Z * Z) : M ptr :=
  let '(t, dev, blockno) := r in
  modify (set_ticks t) ;;;
  b <~ bget pid dev blockno ;;
  brelse pid b ;;;
  ret b.

Fixpoint use_blocks (pid : Z) (rs : list (Z * Z * Z)) : M (list ptr) :=
  match rs with
  | [] => ret []
  | r :: rs' =>
      b <~ use_block pid r ;;
      bs <~ use_blocks pid rs' ;;
      ret (b :: bs)
  end.

(** A device whose blocks are all empty. *)
Definition blank : Z -> Z -> list Byte.byte := fun _ _ => [].

(** A caller that pins a block it holds, releases it, and unpins it later. *)
Definition pin_release_unpin (pid dev blockno : Z) : M ptr :=
  b <~ bget pid dev blockno ;;
  bpin pid b ;;;
  brelse pid b ;;;
  bunpin pid b ;;;
  ret b.

(** ** Events of the two critical sections of [bget] *)

(** The lookup section takes and drops the lock of the target bucket. *)
Definition lookup_events (pid : Z) (k : nat) : list event :=
  [Acquire pid (BucketLock k); Release pid (BucketLock k)].

(** The admission section, when it finds a victim: [new] is the bucket of
    the requested block, [old] the bucket of the victim's former block. *)
Definition admit_events (pid : Z) (new old : nat) : list event :=
  [Acquire pid BcacheLock; Acquire pid (BucketLock new)]
  ++ (if bool_decide (old = new) then [] else [Acquire pid (BucketLock old)])
  ++ (if bool_decide (old = new) then [] else [Release pid (BucketLock old)])
  ++ [Release pid (BucketLock new); Release pid BcacheLock].

Definition is_sleep (e : event) : bool :=
  match e with AcquireSleep _ _ => true | _ => false end.

(** [s'] extends the trace of [s] by events that are not [acquiresleep]s. *)
Definition quietly (s s' : state) : Prop :=
  exists evs, trace s' = trace s ++ evs /\ forallb (fun e => negb (is_sleep e)) evs = true.

(** ** States of a cache at rest *)

(** Every bucket is empty and every buffer is free and unlocked: what
    single-context use leaves behind once each block taken has been
    released. *)
Definition idle (s : state) : Prop :=
  (forall k, k < Z.to_nat NBUCKET ->
     exists h, table s !! k = Some h /\ Buf.next h = PTable k /\ Buf.prev h = PTable k) /\
  (forall i b, buf s !! i = Some b -> Buf.refcnt b = 0%Z /\ Buf.lock b = None).

(** A pool of [n] buffers filling up from the top: buffers below [m] have
    never been used (timestamp 0), buffers from [m] on carry positive
    timestamps, none above [T], that do not increase with the index. *)
Definition filled (s : state) (n m : nat) (T : Z) : Prop :=
  idle s /\ length (buf s) = n /\
  (forall i b, buf s !! i = Some b ->
     (i < m -> Buf.timestamp b = 0%Z) /\
     (m <= i -> (0 < Buf.timestamp b <= T)%Z)) /\
  (forall i j bi bj, m <= i -> i <= j ->
     buf s !! i = Some bi -> buf s !! j = Some bj ->
     (Buf.timestamp bj <= Buf.timestamp bi)%Z).

(** Requests [(tick, dev, blockno)] whose tick counts are positive, start
    no lower than [T] and never decrease. *)
Fixpoint rising (T : Z) (rs : list (Z * Z * Z)) : Prop :=
  match rs with
  | [] => True
  | (t, _, _) :: rs' => (T <= t)%Z /\ (0 < t)%Z /\ rising t rs'
  end.

(** ** The lookup walk, turn by turn *)

(** One turn of the lookup loop that neither stops at the head nor hits:
    the node the loop moves on to. *)
Definition walk_next (s : state) (head : ptr) (dev blockno : Z) (b : ptr)
  : option ptr :=
  if ptr_eqb b head then None
  else match deref s b with
       | None => None
       | Some bf =>
           if Z.eqb (Buf.blockno bf) blockno && Z.eqb (Buf.dev bf) dev
           then None
           else Some (Buf.next bf)
       end.

(** The node reached after [k] such turns. *)
Fixpoint walk_iter (s : state) (head : ptr) (dev blockno : Z) (k : nat) (b : ptr)
  : option ptr :=
  match k with
  | O => Some b
  | S k' => b' ← walk_next s head dev blockno b; walk_iter s head dev blockno k' b'
  end.

(** The pointers that can be dereferenced. *)
Definition nodes (s : state) : list ptr :=
  (PTable <$> seq 0 (length (table s))) ++ (PBuf <$> seq 0 (length (buf s))).

(** ** What the victim scan settles on *)

(** What one run of the scan loop over [l] does to its variables: either
    no buffer of [l] qualifies and [lru] is kept, or the loop settles on
    the buffer at offset [k], which is free, no younger than the threshold
    and than any other free buffer of [l], and strictly older than every
    free buffer after it. *)
Inductive scan_result (l : list Buf.t) (i : nat) (ts : Z) (lru : option nat)
  : option nat -> Prop :=
| scan_keep :
    (forall k b, l !! k = Some b -> Buf.refcnt b = 0%Z -> (ts < Buf.timestamp b)%Z) ->
    scan_result l i ts lru lru
| scan_pick k b :
    l !! k = Some b ->
    Buf.refcnt b = 0%Z ->
    (Buf.timestamp b <= ts)%Z ->
    (forall k' b', l !! k' = Some b' -> Buf.refcnt b' = 0%Z ->
                   (Buf.timestamp b <= Buf.timestamp b')%Z /\
                   (k < k' -> (Buf.timestamp b < Buf.timestamp b')%Z)) ->
    scan_result l i ts lru (Some (i + k)).

(** ** Frames, labels and matches *)

(** Two versions of a buffer that cache the same block with the same
    contents: only the bookkeeping ([refcnt], [timestamp], the sleep lock
    and the links) may differ. *)
Definition same_block (b b' : Buf.t) : Prop :=
  Buf.valid b' = Buf.valid b /\ Buf.dev b' = Buf.dev b /\
  Buf.blockno b' = Buf.blockno b /\ Buf.data b' = Buf.data b.

(** An update that touches bookkeeping only. *)
Definition steady (f : Buf.t -> Buf.t) : Prop := forall b, same_block b (f b).

(** From [s] to [s'] every node is still there and, unless it is the node
    [v], still caches the same block with the same contents; the pool, the
    bucket array, the device and the tick counter are as they were. *)
Definition keeps (v : option ptr) (s s' : state) : Prop :=
  (forall p bf, deref s p = Some bf ->
     exists bf', deref s' p = Some bf' /\ (Some p ≠ v -> same_block bf bf')) /\
  length (buf s') = length (buf s) /\ length (table s') = length (table s) /\
  disk s' = disk s /\ ticks s' = ticks s.

(** Node [p] of [s] satisfies [Q]. *)
Definition has (Q : Buf.t -> Prop) (p : ptr) (s : state) : Prop :=
  exists bf, deref s p = Some bf /\ Q bf.

(** [Q] survives the update [f]. *)
Definition stable (Q : Buf.t -> Prop) (f : Buf.t -> Buf.t) : Prop :=
  forall b, Q b -> Q (f b).

(** The label of a buffer. *)
Definition labelled (dev blockno : Z) (b : Buf.t) : Prop :=
  Buf.dev b = dev /\ Buf.blockno b = blockno.

(** A buffer as the admission section leaves its victim. *)
Definition admitted (dev blockno t : Z) (b : Buf.t) : Prop :=
  Buf.valid b = 0%Z /\ Buf.dev b = dev /\ Buf.blockno b = blockno /\
  Buf.refcnt b = 1%Z /\ Buf.timestamp b = t.

(** [p] is a node labelled [(dev, blockno)]: the test of the lookup loop. *)
Definition matches (s : state) (dev blockno : Z) (p : ptr) : bool :=
  match deref s p with
  | Some bf => Z.eqb (Buf.blockno bf) blockno && Z.eqb (Buf.dev bf) dev
  | None => false
  end.

(** The first node of [l] so labelled. *)
Fixpoint first_match (s : state) (dev blockno : Z) (l : list ptr) : option ptr :=
  match l with
  | [] => None
  | p :: l' => if matches s dev blockno p then Some p else first_match s dev blockno l'
  end.

(** The state after a lookup that hit [b]: one more reference, a fresh
    timestamp, the bucket lock taken and released. *)
Definition after_hit (pid blockno : Z) (b : ptr) (s : state) : state :=
  log (Release pid (BucketLock (bucket_of blockno)))
    (update b (Buf.set_timestamp (ticks s))
       (update b (fun bf => Buf.set_refcnt (wrap32 (Buf.refcnt bf + 1)) bf)
          (log (Acquire pid (BucketLock (bucket_of blockno))) s))).

(** A bucket whose only node points at itself: [buf[0]] with
    [next = &buf[0]] behind the head of bucket 0. *)
Definition knot : state :=
  update (PTable 0) (Buf.set_next (PBuf 0))
    (update (PBuf 0) (Buf.set_next (PBuf 0)) (boot 1 blank)).


(** ** user/find.c *)

(** A C string is the list of its characters before the terminating NUL;
    [path[p]] at [p = strlen(path)] reads that NUL. *)
Abbreviation cstring := (list Ascii.ascii).

Definition slash : Ascii.ascii := Ascii.ascii_of_nat 47.

Definition char_at (path : cstring) (p : nat) : Ascii.ascii :=
  match path !! p with Some c => c | None => Ascii.zero end.

(** The loop of [pathFileName], line 76:
    [for(p=path+strlen(path); p >= path && *p != '/'; p--)].
    The pointer may end one below [path], so the loop variable is kept as
    [i = (p - path) + 1]: [p >= path] is [i] being a successor, and the
    [p++] of line 77 brings the offset [p - path] to the [i] returned. *)
Fixpoint pathFileName_loop (path : cstring) (i : nat) : nat :=
  match i with
  | O => O
  | S p =>
      if negb (Ascii.eqb (char_at path p) slash)
      then pathFileName_loop path p
      else S p
  end.

(** [pathFileName]: the string that starts at the pointer returned. *)
Definition pathFileName (path : cstring) : cstring :=
  drop (pathFileName_loop path (S (length path))) path.


#[global] Instance ascii_eq_dec : EqDecision Ascii.ascii := Ascii.ascii_dec.

(** The file types of [st.type] that [_find] tells apart. *)
Inductive ftype : Type :=
| T_DIR
| T_FILE
| T_OTHER.

(** A directory entry: [de.inum] and the bytes of [de.name]. *)
Record dirent : Type := mkdirent {
  inum : Z;
  name : list Ascii.ascii
}.

(** What the kernel answers to [open(path, 0)], [fstat] and the [read]s
    that follow: [open] fails, [fstat] fails, or the file has a type and,
    read as a directory, yields these entries. *)
Inductive opened : Type :=
| OpenFails
| StatFails
| Stat (t : ftype) (entries : list dirent).

(** What [_find] writes. *)
Inductive output : Type :=
| Found (path : cstring)
| CannotOpen (path : cstring)
| CannotStat (path : cstring)
| PathTooLong
| FindError.

(** [sizeof buf] in [_find]. *)
Definition BUFSZ : nat := 512.

(** The C string in the [n] bytes at [bytes]: what comes before the first
    NUL. *)
Fixpoint cstr (n : nat) (bytes : list Ascii.ascii) : cstring :=
  match n, bytes with
  | S n', c :: bytes' =>
      if Ascii.eqb c Ascii.zero then [] else c :: cstr n' bytes'
  | _, _ => []
  end.

Definition dot : cstring := [Ascii.ascii_of_nat 46].
Definition dotdot : cstring := [Ascii.ascii_of_nat 46; Ascii.ascii_of_nat 46].

Section Find.
(** Modelled from the spec: the system calls and constants [_find] uses
    are outside the sources.  [sys d path] is what [open], [fstat] and
    [read] answer for [path] while [d] descriptors opened by [_find] are
    still open; [DIRSIZ] is the size of [de.name], 14 in xv6 and large
    enough for the comparisons of line 57 to end inside the name.  A name
    is given by its bytes, NUL-padded. *)
Variable sys : nat -> cstring -> opened.
Variable DIRSIZ : nat.

(** The test of line 57: the entry is skipped. *)
Definition skipped (de : dirent) : bool :=
  Z.eqb (inum de) 0
  || bool_decide (cstr DIRSIZ (name de) = dotdot)
  || bool_decide (cstr DIRSIZ (name de) = dot).

(** Lines 52-54 and 59-60: [buf] once the entry's name has been moved
    behind the slash. *)
Definition child (path : cstring) (de : dirent) : cstring :=
  path ++ slash :: cstr DIRSIZ (name de).

(** The [while] loop of lines 56-63 over the entries read, [visit] being
    what is done with an entry. *)
Fixpoint read_loop (visit : dirent -> option (list output)) (es : list dirent)
  : option (list output) :=
  match es with
  | [] => Some []
  | de :: es' =>
      out ← visit de;
      outs ← read_loop visit es';
      Some (out ++ outs)
  end.

(** [_find], lines 24-68; [d] counts the descriptors the callers hold
    open.  [None] when the fuel runs out. *)
Fixpoint _find (fuel : nat) (d : nat) (path fileName : cstring)
  : option (list output) :=
  match fuel with
  | O => None
  | S fuel' =>
      match sys d path with
      | OpenFails => Some [CannotOpen path]
      | StatFails => Some [CannotStat path]
      | Stat T_FILE _ =>
          Some (if bool_decide (pathFileName path = fileName)
                then [Found path] else [])
      | Stat T_DIR entries =>
          if Nat.ltb BUFSZ (length path + 1 + DIRSIZ + 1)
          then Some [PathTooLong]
          else
            read_loop
              (fun de => if skipped de then Some []
                         else _find fuel' (S d) (child path de) fileName)
              entries
      | Stat T_OTHER _ => Some []
      end
  end.

(** [main], lines 13-22: the exit status and what was written; [argv]
    includes the program name. *)
Definition find_main (fuel : nat) (argv : list cstring)
  : option (Z * list output) :=
  match argv with
  | [_; path; fileName] =>
      out ← _find fuel 0 path fileName; Some (0%Z, out)
  | _ => Some (1%Z, [FindError])
  end.

(** The paths [_find] gets to from [path]: [path] itself, and down
    through directories that fit the buffer, by entries that are not
    skipped. *)
Inductive visits : nat -> cstring -> nat -> cstring -> Prop :=
| visits_here d p : visits d p d p
| visits_down d p es de d' p' :
    sys d p = Stat T_DIR es ->
    length p + 1 + DIRSIZ + 1 <= BUFSZ ->
    de ∈ es -> skipped de = false ->
    visits (S d) (child p de) d' p' ->
    visits d p d' p'.

(** Fuel that is enough for [path]: the buffer bounds how far down the
    paths can grow. *)
Definition enough (path : cstring) : nat :=
  if Nat.ltb (BUFSZ - 2) (length path) then 1 else BUFSZ - length path.
End Find.

(** A file system for examples: "/" holds ".", "..", a free slot, the
    file "b" and the directory "d"; "/d" holds the file "b"; every
    directory can be opened again through "." and "..". *)
Definition sample_name (s : String.string) : list Ascii.ascii :=
  String.list_ascii_of_string s.

Definition sample_root : list dirent :=
  [mkdirent 1 (sample_name "."); mkdirent 1 (sample_name "..");
   mkdirent 0 (sample_name "gone"); mkdirent 2 (sample_name "b");
   mkdirent 3 (sample_name "d")].

Definition sample_sys (d : nat) (path : cstring) : opened :=
  if bool_decide (path = sample_name "") then Stat T_DIR sample_root
  else if bool_decide (path = sample_name "/b") then Stat T_FILE []
  else if bool_decide (path = sample_name "/d") then
    Stat T_DIR [mkdirent 3 (sample_name "."); mkdirent 1 (sample_name "..");
                mkdirent 4 (sample_name "b")]
  else if bool_decide (path = sample_name "/d/b") then Stat T_FILE []
  else OpenFails.

(** ** kernel/bio.c without [LAB_LOCK_2] *)

Module Stock.
(** The configuration in which [LAB_LOCK_2] is not defined: one list of
    all the buffers through [prev]/[next], most recently used first, and
    [bcache.lock] for all of it.  [bcache.head] is the only list head; the
    state keeps it in the first cell of [table]. *)
Definition head : ptr := PTable 0.

(** One turn of the loop of [binit], lines 86-90. *)
Definition binit_link (b : ptr) : M unit :=
  h <~ load head ;;
  store b (Buf.set_next (Buf.next h)) ;;;
  store b (Buf.set_prev head) ;;;
  store b (Buf.set_lock None) ;;;
  h' <~ load head ;;
  store (Buf.next h') (Buf.set_prev b) ;;;
  store head (Buf.set_next b).

Fixpoint binit_loop (bs : list ptr) : M unit :=
  match bs with
  | [] => ret tt
  | b :: bs' => binit_link b ;;; binit_loop bs'
  end.

(** [binit], lines 80-91: [for(b = bcache.buf; b < bcache.buf+NBUF; b++)]
    goes through the pool in index order. *)
Definition binit : M unit :=
  store head (Buf.set_prev head) ;;;
  store head (Buf.set_next head) ;;;
  s <~ get ;;
  binit_loop (PBuf <$> seq 0 (length (buf s))).

(** The two [for] loops of [bget], lines 215-222 and 226-236: from [b]
    along [step] ([b->next] or [b->prev]) until the head comes round,
    left at the first buffer that passes [test].  [fuel] bounds the
    number of nodes visited. *)
Fixpoint walk (test : Buf.t -> bool) (step : Buf.t -> ptr) (fuel : nat)
  (s : state) (b : ptr) : walk_result :=
  match fuel with
  | O => WSpin
  | S fuel' =>
      if ptr_eqb b head then WMiss
      else match deref s b with
           | None => WFault
           | Some bf =>
               if test bf then WHit b else walk test step fuel' s (step bf)
           end
  end.

Definition search (test : Buf.t -> bool) (step : Buf.t -> ptr) (first : ptr)
  : M (option ptr) :=
  fun s =>
    match walk test step (walk_fuel s) s first with
    | WHit b => Ret (Some b) s
    | WMiss => Ret None s
    | WFault => Fault s
    | WSpin => Spin s
    end.

(** [b->dev == dev && b->blockno == blockno], line 216. *)
Definition cached (dev blockno : Z) (bf : Buf.t) : bool :=
  Z.eqb (Buf.dev bf) dev && Z.eqb (Buf.blockno bf) blockno.

(** [b->refcnt == 0], line 227. *)
Definition unused (bf : Buf.t) : bool := Z.eqb (Buf.refcnt bf) 0.

(** Lines 228-231: the four assignments that recycle a buffer. *)
Definition recycle (dev blockno : Z) (b : Buf.t) : Buf.t :=
  Buf.mk 0 dev blockno (Buf.lock b) 1 (Buf.timestamp b) (Buf.prev b)
    (Buf.next b) (Buf.data b).

(** [bget], lines 212-238. *)
Definition bget (pid dev blockno : Z) : M ptr :=
  acquire pid BcacheLock ;;;
  h <~ load head ;;
  hit <~ search (cached dev blockno) Buf.next (Buf.next h) ;;
  match hit with
  | Some b =>
      store b (fun bf => Buf.set_refcnt (wrap32 (Buf.refcnt bf + 1)) bf) ;;;
      release pid BcacheLock ;;;
      acquiresleep pid b ;;;
      ret b
  | None =>
      h' <~ load head ;;
      free <~ search unused Buf.prev (Buf.prev h') ;;
      match free with
      | Some b =>
          store b (recycle dev blockno) ;;;
          release pid BcacheLock ;;;
          acquiresleep pid b ;;;
          ret b
      | None => panic "bget: no buffers"
      end
  end.

Definition bread (pid dev blockno : Z) : M ptr :=
  b <~ bget pid dev blockno ;;
  bread_fill b.

(** [brelse], lines 269-272 and 299-311. *)
Definition brelse (pid : Z) (b : ptr) : M unit :=
  h <~ holdingsleep pid b ;;
  if negb h then panic "brelse"
  else
    releasesleep pid b ;;;
    acquire pid BcacheLock ;;;
    store b (fun bf => Buf.set_refcnt (wrap32 (Buf.refcnt bf - 1)) bf) ;;;
    bf <~ load b ;;
    (if Z.eqb (Buf.refcnt bf) 0
     then
       store (Buf.next bf) (Buf.set_prev (Buf.prev bf)) ;;;
       bf1 <~ load b ;;
       store (Buf.prev bf1) (Buf.set_next (Buf.next bf1)) ;;;
       h <~ load head ;;
       store b (Buf.set_next (Buf.next h)) ;;;
       store b (Buf.set_prev head) ;;;
       h' <~ load head ;;
       store (Buf.next h') (Buf.set_prev b) ;;;
       store head (Buf.set_next b)
     else ret tt) ;;;
    release pid BcacheLock.

Definition bpin (pid : Z) (b : ptr) : M unit :=
  acquire pid BcacheLock ;;;
  store b (fun bf => Buf.set_refcnt (wrap32 (Buf.refcnt bf + 1)) bf) ;;;
  release pid BcacheLock.

Definition bunpin (pid : Z) (b : ptr) : M unit :=
  acquire pid BcacheLock ;;;
  store b (fun bf => Buf.set_refcnt (wrap32 (Buf.refcnt bf - 1)) bf) ;;;
  release pid BcacheLock.

(** [p->next] and [p->prev] in a state. *)
Definition nxt (s : state) (p : ptr) : option ptr := Buf.next <$> deref s p.
Definition prv (s : state) (p : ptr) : option ptr := Buf.prev <$> deref s p.

(** [q] follows [p]: [p->next == q] and [q->prev == p]. *)
Definition link (s : state) (p q : ptr) : Prop :=
  nxt s p = Some q /\ prv s q = Some p.

(** From [p] through the nodes [l] to [q], every node linked to the next. *)
Fixpoint chain (s : state) (p : ptr) (l : list ptr) (q : ptr) : Prop :=
  match l with
  | [] => link s p q
  | x :: l' => link s p x /\ chain s x l' q
  end.

(** The list of the cache is [l], from [head.next] (most recently used)
    to [head.prev] (least recently used), and comes back to the head. *)
Definition listed (s : state) (l : list ptr) : Prop :=
  NoDup (head :: l) /\ chain s head l head.

(** The first node of [l] whose buffer passes [test]. *)
Fixpoint pick (test : Buf.t -> bool) (s : state) (l : list ptr) : option ptr :=
  match l with
  | [] => None
  | p :: l' =>
      match deref s p with
      | Some bf => if test bf then Some p else pick test s l'
      | None => pick test s l'
      end
  end.

(** One turn of a loop of [bget] that neither stops at the head nor
    finds its buffer: the node the loop moves on to. *)
Definition walk_on (test : Buf.t -> bool) (step : Buf.t -> ptr) (s : state)
  (b : ptr) : option ptr :=
  if ptr_eqb b head then None
  else match deref s b with
       | None => None
       | Some bf => if test bf then None else Some (step bf)
       end.

(** The node reached after [k] such turns. *)
Fixpoint walk_iter (test : Buf.t -> bool) (step : Buf.t -> ptr) (s : state)
  (k : nat) (b : ptr) : option ptr :=
  match k with
  | O => Some b
  | S k' => b' ← walk_on test step s b; walk_iter test step s k' b'
  end.

(** The static storage this configuration starts from: the zero-filled
    head and [nbuf] zero-filled buffers. *)
Definition zero_state (nbuf : nat) (d : Z -> Z -> list Byte.byte) : state :=
  mkstate [Buf.zero] (replicate nbuf Buf.zero) 0 d [].

(** A list that never comes back to the head: [buf[0]], in use, with
    [next] and [prev] pointing at itself. *)
Definition knot : state :=
  mkstate [Buf.mk 0 0 0 None 0 0 (PBuf 0) (PBuf 0) []]
          [Buf.mk 0 0 0 None 1 0 (PBuf 0) (PBuf 0) []] 0 (fun _ _ => []) [].
End Stock.

(** A property of a buffer that [binit] cannot change: the links and a
    freed sleep lock do not touch it. *)
Definition link_blind (Q : Buf.t -> Prop) : Prop :=
  (forall x, stable Q (Buf.set_next x)) /\ (forall x, stable Q (Buf.set_prev x)) /\
  stable Q (Buf.set_lock None).

(** * Properties *)

(** ** Updates and traces *)

Lemma trace_update p f s : trace (update p f s) = trace s.
Proof. by destruct p. Qed.

Lemma trace_log e s : trace (log e s) = trace s ++ [e].
Proof. done. Qed.

Lemma buf_log e s : buf (log e s) = buf s.
Proof. done. Qed.

(** ** The victim scan *)

Lemma bget_scan_result l : forall i ts lru,
  scan_result l i ts lru (bget_scan l i ts lru).
Proof.
  induction l as [|b l IH]; intros i ts lru; simpl.
  - apply scan_keep. intros k b' Hk. by rewrite lookup_nil in Hk.
  - destruct (Z.eqb (Buf.refcnt b) 0 && Z.leb (Buf.timestamp b) ts) eqn:E.
    + apply andb_true_iff in E as [Hr Ht].
      apply Z.eqb_eq in Hr. apply Z.leb_le in Ht.
      destruct (IH (S i) (Buf.timestamp b) (Some i)) as [Hall|k b' Hk Hr' Ht' Hmin].
      * replace i with (i + 0) at 2 by lia.
        apply (scan_pick _ _ _ _ 0 b); [done|done|done|].
        intros [|k'] b' Hk' Hr'; simpl in Hk'.
        -- inversion Hk'; subst. split; lia.
        -- specialize (Hall k' b' Hk' Hr'). split; [lia|intros _; lia].
      * replace (S i + k) with (i + S k) by lia.
        apply (scan_pick _ _ _ _ (S k) b'); [done|done|lia|].
        intros [|k'] b'' Hk' Hr''; simpl in Hk'.
        -- inversion Hk'; subst. split; [lia|intros; lia].
        -- destruct (Hmin k' b'' Hk' Hr'') as [H1 H2]. split; [done|intros; apply H2; lia].
    + assert (Hnot : Buf.refcnt b = 0%Z -> (ts < Buf.timestamp b)%Z).
      { intros Hr. apply andb_false_iff in E as [E|E].
        - apply Z.eqb_neq in E. done.
        - apply Z.leb_gt in E. done. }
      destruct (IH (S i) ts lru) as [Hall|k b' Hk Hr' Ht' Hmin].
      * apply scan_keep. intros [|k] b' Hk Hr'; simpl in Hk.
        -- inversion Hk; subst. auto.
        -- eauto.
      * replace (S i + k) with (i + S k) by lia.
        apply (scan_pick _ _ _ _ (S k) b'); [done|done|done|].
        intros [|k'] b'' Hk' Hr''; simpl in Hk'.
        -- inversion Hk'; subst. specialize (Hnot Hr''). split; [lia|intros; lia].
        -- destruct (Hmin k' b'' Hk' Hr'') as [H1 H2]. split; [done|intros; apply H2; lia].
Qed.

(** The scan as [bget] runs it, from index 0 with no candidate: a victim,
    when there is one, is a free buffer that is oldest among the free
    buffers, and the last of those that are as old. *)
Lemma bget_scan_victim l t v :
  bget_scan l 0 t None = Some v ->
  exists b, l !! v = Some b /\ Buf.refcnt b = 0%Z /\ (Buf.timestamp b <= t)%Z /\
    forall j b', l !! j = Some b' -> Buf.refcnt b' = 0%Z ->
      (Buf.timestamp b <= Buf.timestamp b')%Z /\
      (v < j -> (Buf.timestamp b < Buf.timestamp b')%Z).
Proof.
  intros H. pose proof (bget_scan_result l 0 t None) as R. rewrite H in R.
  inversion R as [Hall Heq|k b Hk Hr Ht Hmin Heq]; subst.
  exists b. simpl. auto.
Qed.

(** The scan finds a victim as soon as one free buffer is no younger than
    the tick count. *)
Lemma bget_scan_finds l t j b :
  l !! j = Some b -> Buf.refcnt b = 0%Z -> (Buf.timestamp b <= t)%Z ->
  exists v, bget_scan l 0 t None = Some v.
Proof.
  intros Hj Hr Ht. pose proof (bget_scan_result l 0 t None) as R.
  inversion R as [Hall Heq|k b' Hk Hr' Ht' Hmin Heq].
  - specialize (Hall j b Hj Hr). lia.
  - eauto.
Qed.

(** No victim when no buffer is free. *)
Lemma bget_scan_none l : forall i t lru,
  (forall b, b ∈ l -> Buf.refcnt b ≠ 0%Z) ->
  bget_scan l i t lru = lru.
Proof.
  induction l as [|b l IH]; intros i t lru Hl; simpl; [done|].
  assert (Buf.refcnt b ≠ 0%Z) as Hb by (apply Hl; left).
  apply Z.eqb_neq in Hb. rewrite Hb. simpl.
  apply IH. intros b' Hin. apply Hl. by right.
Qed.

(** ** The lookup walk and its fuel *)

Section Walk.
Variables (s : state) (head : ptr) (dev blockno : Z).
Abbreviation next := (walk_next s head dev blockno).
Abbreviation iter := (walk_iter s head dev blockno).

Lemma walk_spin_iter fuel : forall b,
  bget_walk fuel s head b dev blockno = WSpin <-> is_Some (iter fuel b).
Proof.
  induction fuel as [|fuel IH]; intros b; simpl; [by eauto|].
  unfold walk_next. destruct (ptr_eqb b head); simpl.
  { split; [done|]. by intros [? ?]. }
  destruct (deref s b) as [bf|]; simpl.
  2:{ split; [done|]. by intros [? ?]. }
  destruct (Z.eqb (Buf.blockno bf) blockno && Z.eqb (Buf.dev bf) dev); simpl.
  { split; [done|]. by intros [? ?]. }
  apply IH.
Qed.

Lemma walk_iter_add a : forall m b,
  iter (a + m) b = b' ← iter a b; iter m b'.
Proof.
  induction a as [|a IH]; intros m b; simpl; [done|].
  destruct (next b) as [b'|]; simpl; [apply IH|done].
Qed.

Lemma walk_iter_le a m b : is_Some (iter (a + m) b) -> is_Some (iter a b).
Proof.
  rewrite walk_iter_add. destruct (iter a b); [eauto|]. by intros [? ?].
Qed.

Lemma walk_next_node b b' : next b = Some b' -> b ∈ nodes s.
Proof.
  unfold walk_next, nodes. destruct (ptr_eqb b head); [done|].
  destruct (deref s b) as [bf|] eqn:Hd; [|done]. intros _.
  apply elem_of_app. destruct b as [|i|i]; simpl in Hd; [done| |].
  - left. apply list_elem_of_fmap. exists i. split; [done|].
    apply elem_of_seq. apply lookup_lt_Some in Hd. lia.
  - right. apply list_elem_of_fmap. exists i. split; [done|].
    apply elem_of_seq. apply lookup_lt_Some in Hd. lia.
Qed.

Lemma length_nodes : length (nodes s) = length (table s) + length (buf s).
Proof. unfold nodes. by rewrite length_app, !length_fmap, !length_seq. Qed.
End Walk.

Lemma repeated_element {A} `{EqDecision A} (l : list A) :
  ¬ NoDup l -> exists i j x, i < j /\ l !! i = Some x /\ l !! j = Some x.
Proof.
  induction l as [|x l IH]; intros Hdup.
  - destruct Hdup. constructor.
  - destruct (decide (x ∈ l)) as [Hin|Hnin].
    + apply list_elem_of_lookup in Hin as [k Hk].
      exists 0, (S k), x. split; [lia|done].
    + destruct IH as (i & j & y & Hij & Hi & Hj).
      { intros Hnd. apply Hdup. by constructor. }
      exists (S i), (S j), y. split; [lia|done].
Qed.

Lemma pigeonhole_lookup {A} `{EqDecision A} (l k : list A) :
  (forall x, x ∈ l -> x ∈ k) -> length k < length l ->
  exists i j x, i < j /\ l !! i = Some x /\ l !! j = Some x.
Proof.
  intros Hsub Hlen. apply repeated_element. intros Hnd.
  pose proof (submseteq_length _ _ (NoDup_submseteq _ _ Hnd Hsub)). lia.
Qed.

(** X12. The lookup loop of [bget] ends within as many turns as the
    cache has nodes, or never: a walk that is still going when the fuel
    [bget] gives it runs out goes on for ever, whatever the fuel. *)
Lemma walk_spins_for_ever s head dev blockno b :
  bget_walk (walk_fuel s) s head b dev blockno = WSpin ->
  forall fuel, bget_walk fuel s head b dev blockno = WSpin.
Proof.
  intros Hspin. apply walk_spin_iter in Hspin.
  set (iter := walk_iter s head dev blockno) in *.
  set (N := length (table s) + length (buf s)).
  assert (Hle : forall k, k <= S N -> is_Some (iter k b)).
  { intros k Hk. apply (walk_iter_le s head dev blockno k (S N - k)).
    replace (k + (S N - k)) with (S N) by lia. exact Hspin. }
  destruct (pigeonhole_lookup ((fun k => iter k b) <$> seq 0 (S N))
                              (Some <$> nodes s)) as (i & j & x & Hij & Hi & Hj).
  { intros x Hx. apply list_elem_of_fmap in Hx as (k & -> & Hk).
    apply elem_of_seq in Hk.
    destruct (Hle (S k) ltac:(lia)) as [b' Hb'].
    replace (S k) with (k + 1) in Hb' by lia.
    unfold iter in Hb'. rewrite walk_iter_add in Hb'. fold iter in Hb'.
    destruct (iter k b) as [n|]; [|done]. unfold iter in Hb'. simpl in Hb'.
    destruct (walk_next s head dev blockno n) as [n'|] eqn:Hn; [|done].
    apply list_elem_of_fmap. exists n. split; [done|].
    by apply (walk_next_node s head dev blockno n n'). }
  { rewrite !length_fmap, length_seq, length_nodes. lia. }
  rewrite list_lookup_fmap in Hi, Hj.
  destruct (seq 0 (S N) !! i) as [i'|] eqn:Ei; [|done].
  destruct (seq 0 (S N) !! j) as [j'|] eqn:Ej; [|done].
  apply lookup_seq in Ei as [-> _]. apply lookup_seq in Ej as [-> Hj'].
  simpl in Hi, Hj. inversion Hi as [Hi']. inversion Hj as [Hj''].
  assert (Heq : iter j b = iter i b) by congruence.
  intros fuel. apply walk_spin_iter. fold iter.
  induction fuel as [fuel IH] using lt_wf_ind.
  destruct (decide (fuel <= S N)) as [|Hbig]; [by apply Hle|].
  replace fuel with (j + (fuel - j)) by lia.
  unfold iter. rewrite walk_iter_add. fold iter. rewrite Heq.
  unfold iter. rewrite <- walk_iter_add. fold iter.
  apply IH. lia.
Qed.

(** Looking for block 13 of device 1 in the knot. *)
Lemma walk_spins_for_ever_witness :
  bget_walk 1000 knot (PTable 0) (PBuf 0) 1 13 = WSpin.
Proof.
  apply (walk_spins_for_ever knot (PTable 0) 1 13 (PBuf 0)).
  vm_compute. reflexivity.
Defined.

(** ** Stepping through monadic code *)

Lemma quietly_refl s : quietly s s.
Proof. exists []. by rewrite app_nil_r. Qed.

Lemma quietly_update s s' p f : quietly s s' -> quietly s (update p f s').
Proof. intros [evs [H1 H2]]. exists evs. by rewrite trace_update. Qed.

Lemma quietly_log s s' e : is_sleep e = false -> quietly s s' -> quietly s (log e s').
Proof.
  intros He [evs [H1 H2]]. exists (evs ++ [e]). rewrite trace_log, H1, app_assoc.
  split; [done|]. rewrite forallb_app, H2. simpl. by rewrite He.
Qed.

Lemma quietly_set_buf s s' f : quietly s s' -> quietly s (set_buf f s').
Proof. intros [evs [H1 H2]]. by exists evs. Qed.

Lemma quietly_set_table s s' f : quietly s s' -> quietly s (set_table f s').
Proof. intros [evs [H1 H2]]. by exists evs. Qed.

Create HintDb quiet.
#[local] Hint Resolve quietly_refl quietly_update quietly_log quietly_set_buf quietly_set_table : quiet.

Lemma bind_emit {B} e (k : unit -> M B) s : bind (emit e) k s = k tt (log e s).
Proof. done. Qed.
Lemma bind_acquire {B} pid l (k : unit -> M B) s :
  bind (acquire pid l) k s = k tt (log (Acquire pid l) s).
Proof. done. Qed.
Lemma bind_release {B} pid l (k : unit -> M B) s :
  bind (release pid l) k s = k tt (log (Release pid l) s).
Proof. done. Qed.
Lemma bind_get {B} (k : state -> M B) s : bind get k s = k s s.
Proof. done. Qed.
Lemma bind_modify {B} f (k : unit -> M B) s : bind (modify f) k s = k tt (f s).
Proof. done. Qed.
Lemma bind_ret {A B} (a : A) (k : A -> M B) s : bind (ret a) k s = k a s.
Proof. done. Qed.
Lemma bind_load {B} p (k : Buf.t -> M B) s :
  bind (load p) k s = match deref s p with Some b => k b s | None => Fault s end.
Proof. unfold bind, load. by destruct (deref s p). Qed.
Lemma bind_store {B} p f (k : unit -> M B) s :
  bind (store p f) k s =
  match deref s p with Some _ => k tt (update p f s) | None => Fault s end.
Proof. unfold bind, store. by destruct (deref s p). Qed.
Lemma bind_when {B} c m (k : unit -> M B) s :
  bind (when c m) k s = if c then bind m k s else k tt s.
Proof. by destruct c. Qed.
Lemma bind_assoc {A B C} (m : M A) (k : A -> M B) (k' : B -> M C) s :
  bind (bind m k) k' s = bind m (fun a => bind (k a) k') s.
Proof. unfold bind. by destruct (m s). Qed.
Lemma bind_if {A B} (c : bool) (m1 m2 : M A) (k : A -> M B) s :
  bind (if c then m1 else m2) k s = if c then bind m1 k s else bind m2 k s.
Proof. by destruct c. Qed.


Lemma bind_unfold {A B} (m : M A) (k : A -> M B) s :
  bind m k s =
  match m s with
  | Ret a s' => k a s'
  | Panic msg s' => Panic msg s'
  | Fault s' => Fault s'
  | Sleeping b s' => Sleeping b s'
  | Spin s' => Spin s'
  end.
Proof. done. Qed.

(** One step of a computation applied to a state. *)
Ltac mstep :=
  first
    [ rewrite bind_acquire | rewrite bind_release | rewrite bind_emit
    | rewrite bind_get | rewrite bind_modify | rewrite bind_ret
    | rewrite bind_assoc
    | rewrite bind_when
    | rewrite bind_if
    | rewrite bind_load | rewrite bind_store ];
  cbv beta iota zeta; cbn [negb].

Ltac mfault := cbv beta iota zeta; solve [auto 20 with quiet].


Lemma store_unfold p f s :
  store p f s = match deref s p with Some _ => Ret tt (update p f s) | None => Fault s end.
Proof. done. Qed.
Lemma release_unfold pid l s : release pid l s = Ret tt (log (Release pid l) s).
Proof. done. Qed.
Lemma emit_unfold e s : emit e s = Ret tt (log e s).
Proof. done. Qed.
Lemma ret_unfold {A} (a : A) s : ret a s = Ret a s.
Proof. done. Qed.

(** Run a computation to its outcomes, splitting on every pointer read;
    a read that faults ends the run quietly. *)
Ltac mrun :=
  repeat first
    [ match goal with
      | |- match (if ?c then _ else _) _ with _ => _ end =>
          let E := fresh "Hif" in destruct c eqn:E
      | |- match (match deref ?s ?p with _ => _ end) with _ => _ end =>
          let E := fresh "Hderef" in
          destruct (deref s p) eqn:E; [|try mfault]
      | |- match store ?p ?f ?s with _ => _ end => rewrite (store_unfold p f s)
      | |- match release ?p ?l ?s with _ => _ end => rewrite (release_unfold p l s)
      | |- match emit ?e ?s with _ => _ end => rewrite (emit_unfold e s)
      | |- match ret ?a ?s with _ => _ end => rewrite (ret_unfold a s)
      end
    | mstep ];
  cbv beta iota zeta.

(** Linking touches pointers only: no event, no panic, no sleep. *)
Lemma bget_link_cases bucketno lru s :
  match bget_link bucketno lru s with
  | Ret _ s' | Fault s' => trace s' = trace s
  | _ => False
  end.
Proof.
  unfold bget_link. mrun; by rewrite ?trace_update.
Qed.


Lemma quietly_same s s1 s2 : trace s2 = trace s1 -> quietly s s1 -> quietly s s2.
Proof. intros E [evs [H1 H2]]. exists evs. by rewrite E. Qed.

Create Rewrite HintDb trace.
#[local] Hint Rewrite trace_log trace_update : trace.

Lemma bget_admit_cases s pid dev blockno :
  match bget_admit pid dev blockno s with
  | Ret (Some p) s' =>
      exists i bf, p = PBuf i /\ bget_scan (buf s) 0 (ticks s) None = Some i /\
        buf s !! i = Some bf /\
        trace s' = trace s ++ admit_events pid (bucket_of blockno) (bucket_of (Buf.blockno bf))
  | Ret None s' =>
      bget_scan (buf s) 0 (ticks s) None = None /\
      s' = log (Release pid BcacheLock) (log (Acquire pid BcacheLock) s)
  | Fault s' => quietly s s'
  | _ => False
  end.
Proof.
  unfold bget_admit. cbv zeta. do 2 mstep. rewrite buf_log.
  replace (ticks (log (Acquire pid BcacheLock) s)) with (ticks s) by done.
  destruct (bget_scan (buf s) 0 (ticks s) None) as [i|] eqn:Hscan; cbv beta iota zeta.
  2:{ mstep. done. }
  mstep. simpl deref. destruct (buf s !! i) as [bf|] eqn:Hi.
  2:{ auto with quiet. }
  unfold admit_events.
  destruct (bool_decide (bucket_of (Buf.blockno bf) = bucket_of blockno)) eqn:Hb;
    cbv beta iota zeta; cbn [negb]; mrun;
    rewrite (bind_unfold (bget_link _ _));
    match goal with
    | |- context [bget_link ?b ?l ?s0] =>
        pose proof (bget_link_cases b l s0) as Hl;
        destruct (bget_link b l s0) as [[] sl| |sl| |]
    end; try done;
    try (eapply quietly_same; [exact Hl|auto 20 with quiet]);
    mrun; exists i, bf; rewrite Hb; autorewrite with trace; rewrite Hl;
    autorewrite with trace; rewrite <- !app_assoc; done.
Qed.

Lemma bget_lookup_cases s pid dev blockno :
  match bget_lookup pid dev blockno s with
  | Ret r s' =>
      trace s' = trace s ++ lookup_events pid (bucket_of blockno) /\
      (r = None -> s' = log (Release pid (BucketLock (bucket_of blockno)))
                          (log (Acquire pid (BucketLock (bucket_of blockno))) s))
  | Fault s' | Spin s' => quietly s s'
  | _ => False
  end.
Proof.
  unfold bget_lookup, bget_find. cbv zeta. mrun.
  rewrite bind_unfold.
  match goal with
  | |- context [bget_walk ?f ?s0 ?h ?b ?d ?n] => destruct (bget_walk f s0 h b d n)
  end; mrun; autorewrite with trace; rewrite <- ?app_assoc; auto with quiet.
  split; [done|]. done.
Qed.


(** ** Pointers after an update *)

Lemma deref_log e s p : deref (log e s) p = deref s p.
Proof. by destruct p. Qed.

Lemma deref_update_eq p f s : deref (update p f s) p = f <$> deref s p.
Proof. destruct p; simpl; [done| |]; apply list_lookup_alter_eq. Qed.

Lemma deref_update_ne p q f s : p ≠ q -> deref (update p f s) q = deref s q.
Proof.
  intros Hne. destruct p as [|i|i], q as [|j|j]; simpl; try done;
    apply list_lookup_alter_ne; congruence.
Qed.

(** ** The sleep lock *)

Lemma acquiresleep_cases pid b s :
  match acquiresleep pid b s with
  | Ret _ s' =>
      trace s' = trace s ++ [AcquireSleep pid b] /\
      exists bf, deref s' b = Some bf /\ Buf.lock bf = Some pid
  | Sleeping b' s' => b' = b /\ s' = s
  | Fault s' => s' = s
  | _ => False
  end.
Proof.
  unfold acquiresleep. rewrite bind_load.
  destruct (deref s b) as [bf|] eqn:Hb; [|done].
  destruct (Buf.lock bf) eqn:Hl; [done|].
  rewrite bind_store, Hb, emit_unfold.
  split; [by autorewrite with trace|].
  rewrite deref_log, deref_update_eq, Hb. simpl. eauto.
Qed.

(** ** Spin locks along a trace *)

Lemma locks_held_app pid evs1 evs2 :
  locks_held pid (evs1 ++ evs2) = foldl (lock_step pid) (locks_held pid evs1) evs2.
Proof. unfold locks_held. apply foldl_app. Qed.

Lemma sleep_unlocked_app pid evs1 : forall held evs2,
  sleep_unlocked pid held (evs1 ++ evs2) =
  sleep_unlocked pid held evs1 &&
  sleep_unlocked pid (foldl (lock_step pid) held evs1) evs2.
Proof.
  induction evs1 as [|e evs1 IH]; intros held evs2; simpl; [done|].
  destruct e; simpl; rewrite IH; try done.
  by rewrite andb_assoc.
Qed.

Lemma sleep_unlocked_quiet pid evs : forall held,
  forallb (fun e => negb (is_sleep e)) evs = true ->
  sleep_unlocked pid held evs = true.
Proof.
  induction evs as [|e evs IH]; intros held H; simpl in *; [done|].
  apply andb_true_iff in H as [He H]. destruct e; simpl in *; auto. done.
Qed.

Lemma lock_step_acquire pid held l :
  lock_step pid held (Acquire pid l) = l :: held.
Proof. simpl. by rewrite bool_decide_eq_true_2. Qed.

Lemma lock_step_release pid held l :
  lock_step pid held (Release pid l) = filter (fun l' => l' ≠ l) held.
Proof. simpl. by rewrite bool_decide_eq_true_2. Qed.

Lemma filter_drop_head (l : lockid) held :
  filter (fun l' => l' ≠ l) (l :: held) = filter (fun l' => l' ≠ l) held.
Proof. rewrite filter_cons. by rewrite decide_False by (intros H; by apply H). Qed.

Lemma filter_keep_head (l l0 : lockid) held :
  l0 ≠ l ->
  filter (fun l' => l' ≠ l) (l0 :: held) = l0 :: filter (fun l' => l' ≠ l) held.
Proof. intros H. rewrite filter_cons. by rewrite decide_True. Qed.

(** Replay spin-lock events on the list of locks held. *)
Ltac locks :=
  repeat first
    [ rewrite lock_step_acquire | rewrite lock_step_release
    | rewrite filter_drop_head
    | rewrite filter_keep_head by congruence
    | rewrite filter_nil
    | progress cbn [foldl sleep_unlocked ascending app] ].

(** The lookup section leaves no spin lock behind. *)
Lemma lookup_events_held pid k held :
  foldl (lock_step pid) held (lookup_events pid k) =
  filter (fun l' => l' ≠ BucketLock k) held.
Proof. unfold lookup_events. by locks. Qed.

(** The admission section leaves no spin lock behind. *)
Lemma admit_events_held pid new old :
  foldl (lock_step pid) [] (admit_events pid new old) = [].
Proof.
  unfold admit_events. case_bool_decide; cbn [app]; by locks.
Qed.

Lemma lookup_events_quiet pid k :
  forallb (fun e => negb (is_sleep e)) (lookup_events pid k) = true.
Proof. done. Qed.

Lemma admit_events_quiet pid new old :
  forallb (fun e => negb (is_sleep e)) (admit_events pid new old) = true.
Proof. unfold admit_events. by case_bool_decide. Qed.

(** ** Lock discipline of [bget] *)

(** C9. On every path of [bget], the hit path and the admission path
    alike, the events of the call never show an [acquiresleep] issued
    while the caller holds a spin lock.  When the call returns buffer [b],
    its events are spin-lock events that leave nothing held, followed by
    the one [acquiresleep] on [b]; when the call blocks on the sleep lock,
    every bucket lock and [bcache.lock] it took has been released. *)
Theorem bget_sleeps_without_spin_locks s pid dev blockno :
  exists evs,
    trace (final (bget pid dev blockno s)) = trace s ++ evs /\
    sleep_unlocked pid [] evs = true /\
    match bget pid dev blockno s with
    | Ret b _ =>
        exists evs0, evs = evs0 ++ [AcquireSleep pid b] /\
          forallb (fun e => negb (is_sleep e)) evs0 = true /\
          locks_held pid evs0 = []
    | Sleeping _ _ =>
        forallb (fun e => negb (is_sleep e)) evs = true /\ locks_held pid evs = []
    | _ => True
    end.
Proof.
  unfold bget. rewrite bind_unfold.
  pose proof (bget_lookup_cases s pid dev blockno) as Hl.
  destruct (bget_lookup pid dev blockno s) as [[b|] s1| |s1| |s1]; try done.
  - (* hit *)
    destruct Hl as [Hl _]. rewrite bind_unfold.
    pose proof (acquiresleep_cases pid b s1) as Hs.
    destruct (acquiresleep pid b s1) as [[] s2| |s2|b' s2|]; try done; simpl.
    + destruct Hs as [Hs _]. exists (lookup_events pid (bucket_of blockno) ++ [AcquireSleep pid b]).
      rewrite Hs, Hl, <- app_assoc. split; [done|]. split.
      * unfold lookup_events. locks. by rewrite bool_decide_eq_true_2.
      * eexists. split; [done|]. split; [done|]. unfold lookup_events, locks_held. by locks.
    + subst. exists (lookup_events pid (bucket_of blockno)). split; [done|].
      split; [|done]. by apply sleep_unlocked_quiet.
    + destruct Hs as [-> ->]. exists (lookup_events pid (bucket_of blockno)).
      split; [done|]. split; [by apply sleep_unlocked_quiet|].
      split; [done|]. unfold lookup_events, locks_held. by locks.
  - (* miss *)
    destruct Hl as [Hl _]. rewrite bind_unfold.
    pose proof (bget_admit_cases s1 pid dev blockno) as Ha.
    destruct (bget_admit pid dev blockno s1) as [[p|] s2| |s2| |]; try done.
    + destruct Ha as (i & bf & -> & _ & _ & Ha).
      set (adm := admit_events pid (bucket_of blockno) (bucket_of (Buf.blockno bf))) in *.
      set (lk := lookup_events pid (bucket_of blockno)) in *.
      assert (Hq : forallb (fun e => negb (is_sleep e)) (lk ++ adm) = true).
      { rewrite forallb_app. apply andb_true_iff. split;
          [apply lookup_events_quiet|apply admit_events_quiet]. }
      assert (Hh : locks_held pid (lk ++ adm) = []).
      { rewrite locks_held_app. unfold locks_held, lk.
        rewrite lookup_events_held, filter_nil. apply admit_events_held. }
      rewrite bind_unfold.
      pose proof (acquiresleep_cases pid (PBuf i) s2) as Hs.
      destruct (acquiresleep pid (PBuf i) s2) as [[] s3| |s3|b' s3|]; try done; simpl.
      * destruct Hs as [Hs _]. exists ((lk ++ adm) ++ [AcquireSleep pid (PBuf i)]).
        rewrite Hs, Ha, Hl, <- !app_assoc. split; [done|]. split.
        -- rewrite !app_assoc, sleep_unlocked_app.
           rewrite (sleep_unlocked_quiet _ _ _ Hq). fold (locks_held pid (lk ++ adm)).
           rewrite Hh. simpl. by rewrite bool_decide_eq_true_2, orb_true_r.
        -- exists (lk ++ adm). by rewrite <- !app_assoc.
      * subst. exists (lk ++ adm). rewrite Ha, Hl, <- app_assoc.
        split; [done|]. split; [|done]. by apply sleep_unlocked_quiet.
      * destruct Hs as [-> ->]. exists (lk ++ adm). rewrite Ha, Hl, <- app_assoc.
        split; [done|]. split; [by apply sleep_unlocked_quiet|]. done.
    + destruct Ha as [_ ->]. simpl.
      exists (lookup_events pid (bucket_of blockno)
              ++ [Acquire pid BcacheLock; Release pid BcacheLock]).
      rewrite Hl, <- !app_assoc. split; [done|]. split; [|done].
      by apply sleep_unlocked_quiet.
    + destruct Ha as (evs & Ha & Hq). simpl.
      exists (lookup_events pid (bucket_of blockno) ++ evs).
      rewrite Ha, Hl, <- app_assoc. split; [done|]. split; [|done].
      apply sleep_unlocked_quiet. rewrite forallb_app. by rewrite Hq.
  - destruct Hl as (evs & Hl & Hq). exists evs. simpl.
    split; [done|]. split; [|done]. by apply sleep_unlocked_quiet.
  - destruct Hl as (evs & Hl & Hq). exists evs. simpl.
    split; [done|]. split; [|done]. by apply sleep_unlocked_quiet.
Qed.

(** C2, as the code has it.  When the admission section of [bget] finds a
    victim it takes [bcache.lock], then the lock of the target bucket,
    then, if the victim's old bucket is another one, the lock of that old
    bucket; it releases them in the reverse order.  The order is "target
    first, old second", whatever the two indices are. *)
Theorem admission_lock_order s pid dev blockno p s' :
  bget_admit pid dev blockno s = Ret (Some p) s' ->
  exists i bf, p = PBuf i /\ buf s !! i = Some bf /\
    let new := bucket_of blockno in
    let old := bucket_of (Buf.blockno bf) in
    trace s' = trace s ++
      if bool_decide (old = new)
      then [Acquire pid BcacheLock; Acquire pid (BucketLock new);
            Release pid (BucketLock new); Release pid BcacheLock]
      else [Acquire pid BcacheLock; Acquire pid (BucketLock new);
            Acquire pid (BucketLock old); Release pid (BucketLock old);
            Release pid (BucketLock new); Release pid BcacheLock].
Proof.
  intros H. pose proof (bget_admit_cases s pid dev blockno) as Ha.
  rewrite H in Ha. destruct Ha as (i & bf & -> & _ & Hi & Ht).
  exists i, bf. split; [done|]. split; [done|]. cbv zeta.
  rewrite Ht. unfold admit_events. by case_bool_decide.
Qed.

(** The first admission on a fresh pool: target bucket 7, old bucket 0. *)
Lemma admission_lock_order_witness :
  exists i bf, PBuf 2 = PBuf i /\ buf (boot 3 blank) !! i = Some bf /\
    let new := bucket_of 7 in
    let old := bucket_of (Buf.blockno bf) in
    trace (final (bget_admit 1 1 7 (boot 3 blank))) = trace (boot 3 blank) ++
      if bool_decide (old = new)
      then [Acquire 1 BcacheLock; Acquire 1 (BucketLock new);
            Release 1 (BucketLock new); Release 1 BcacheLock]
      else [Acquire 1 BcacheLock; Acquire 1 (BucketLock new);
            Acquire 1 (BucketLock old); Release 1 (BucketLock old);
            Release 1 (BucketLock new); Release 1 BcacheLock].
Proof.
  apply (admission_lock_order (boot 3 blank) 1 1 7 (PBuf 2)
           (final (bget_admit 1 1 7 (boot 3 blank)))).
  vm_compute. reflexivity.
Defined.

(** C2, as stated, fails: on a fresh pool the first [bget] of block 7
    takes the lock of bucket 7 and, still holding it, the lock of bucket 0
    (the bucket of the victim's stale block number). *)
Lemma admission_takes_lower_lock_second :
  trace (final (bget 1 1 7 (boot 3 blank))) =
    [Acquire 1 (BucketLock 7); Release 1 (BucketLock 7);
     Acquire 1 BcacheLock; Acquire 1 (BucketLock 7); Acquire 1 (BucketLock 0);
     Release 1 (BucketLock 0); Release 1 (BucketLock 7); Release 1 BcacheLock;
     AcquireSleep 1 (PBuf 2)] /\
  ascending 1 [] (trace (final (bget 1 1 7 (boot 3 blank)))) = false.
Proof. split; vm_compute; reflexivity. Qed.

(** ** Exhaustion *)

(** C5. When the lookup misses and no buffer has [refcnt == 0], [bget]
    panics with "bget: no buffers".  The state it stops in differs from
    the state it started in by four trace events only: the bucket lock and
    [bcache.lock] were each taken and released, so nothing is left held,
    and no bucket, buffer, tick or device block has changed. *)
Theorem bget_no_buffers s pid dev blockno s1 :
  bget_lookup pid dev blockno s = Ret None s1 ->
  Forall (fun b => Buf.refcnt b ≠ 0%Z) (buf s) ->
  exists s' evs,
    bget pid dev blockno s = Panic "bget: no buffers" s' /\
    table s' = table s /\ buf s' = buf s /\ ticks s' = ticks s /\
    disk s' = disk s /\
    trace s' = trace s ++ evs /\
    evs = [Acquire pid (BucketLock (bucket_of blockno));
           Release pid (BucketLock (bucket_of blockno));
           Acquire pid BcacheLock; Release pid BcacheLock] /\
    locks_held pid evs = [].
Proof.
  intros Hl Hbusy.
  pose proof (bget_lookup_cases s pid dev blockno) as Hc. rewrite Hl in Hc.
  destruct Hc as [_ Hs1]. specialize (Hs1 eq_refl). subst s1.
  unfold bget. rewrite bind_unfold, Hl. cbv beta iota.
  unfold bget_admit. cbv zeta. rewrite bind_unfold, bind_acquire, bind_get.
  cbv beta iota. rewrite !buf_log.
  rewrite bget_scan_none by (intros b Hb; by apply (proj1 (Forall_forall _ _) Hbusy)).
  rewrite bind_release, ret_unfold. cbv beta iota.
  eexists _, _. split; [done|]. repeat (split; [done|]).
  split; [by rewrite !trace_log, <- !app_assoc|]. split; [done|].
  unfold locks_held. by locks.
Qed.

(** A pool of two buffers, both held, and a request for a third block. *)
Lemma bget_no_buffers_witness :
  let s := final ((bget 1 1 1 ;;; bget 1 1 2) (boot 2 blank)) in
  exists s' evs,
    bget 1 1 3 s = Panic "bget: no buffers" s' /\
    table s' = table s /\ buf s' = buf s /\ ticks s' = ticks s /\
    disk s' = disk s /\
    trace s' = trace s ++ evs /\
    evs = [Acquire 1 (BucketLock (bucket_of 3));
           Release 1 (BucketLock (bucket_of 3));
           Acquire 1 BcacheLock; Release 1 BcacheLock] /\
    locks_held 1 evs = [].
Proof.
  intros s.
  apply (bget_no_buffers s 1 1 3 (final (bget_lookup 1 1 3 s))).
  - vm_compute. reflexivity.
  - apply (bool_decide_unpack _). vm_compute. exact I.
Defined.

(** ** The sleep lock around [bread], [bwrite] and [brelse] *)

(** A buffer handed back by [bget] is locked by the caller. *)
Lemma bget_returns_locked s pid dev blockno b s' :
  bget pid dev blockno s = Ret b s' ->
  exists bf, deref s' b = Some bf /\ Buf.lock bf = Some pid.
Proof.
  unfold bget. rewrite bind_unfold.
  destruct (bget_lookup pid dev blockno s) as [[b0|] s1| | | |]; try done.
  - rewrite bind_unfold. pose proof (acquiresleep_cases pid b0 s1) as Hs.
    destruct (acquiresleep pid b0 s1) as [[] s2| | | |]; try done.
    rewrite ret_unfold. intros [= <- <-]. by destruct Hs.
  - rewrite bind_unfold.
    destruct (bget_admit pid dev blockno s1) as [[p|] s2| | | |]; try done.
    rewrite bind_unfold. pose proof (acquiresleep_cases pid p s2) as Hs.
    destruct (acquiresleep pid p s2) as [[] s3| | | |]; try done.
    rewrite ret_unfold. intros [= <- <-]. by destruct Hs.
Qed.

Lemma holdingsleep_unfold pid b s :
  holdingsleep pid b s =
  match deref s b with
  | Some bf => Ret (bool_decide (Buf.lock bf = Some pid)) s
  | None => Fault s
  end.
Proof. unfold holdingsleep. rewrite bind_load. by destruct (deref s b). Qed.

(** C6.  [bwrite] and [brelse] check the sleep lock first: called on a
    buffer whose lock the caller does not hold, they panic ("bwrite",
    "brelse") and leave the state as it was.  The read step of [bread]
    (lines 248-251) is no function of its own and cannot be called on a
    buffer of the caller's choice: whatever the state and the block, it
    runs only when [bget] has returned, on the buffer [bget] returned and
    in the state [bget] left, where the caller holds that buffer's sleep
    lock; when [bget] does not return, [bread] ends as [bget] did and the
    read step does not run.  So the read step is never run on a buffer
    whose lock the caller does not hold. *)
Theorem sleep_lock_checks s pid b :
  holdingsleep pid b s = Ret false s ->
  bwrite pid b s = Panic "bwrite" s /\
  brelse pid b s = Panic "brelse" s /\
  forall s0 dev blockno,
    match bget pid dev blockno s0 with
    | Ret b' s' =>
        bread pid dev blockno s0 = bread_fill b' s' /\
        holdingsleep pid b' s' = Ret true s'
    | o => bread pid dev blockno s0 = o
    end.
Proof.
  intros Hh. split; [|split].
  - unfold bwrite. by rewrite bind_unfold, Hh.
  - unfold brelse. by rewrite bind_unfold, Hh.
  - intros s0 dev blockno. unfold bread. rewrite bind_unfold.
    destruct (bget pid dev blockno s0) as [b' s'| | | |] eqn:Hg; try done.
    split; [done|].
    destruct (bget_returns_locked _ _ _ _ _ _ Hg) as (bf & Hd & Hlk).
    rewrite holdingsleep_unfold, Hd. by rewrite bool_decide_eq_true_2.
Qed.

(** Process 2 on a buffer that process 1 holds. *)
Lemma sleep_lock_checks_witness :
  let s := final (bget 1 1 7 (boot 3 blank)) in
  bwrite 2 (PBuf 2) s = Panic "bwrite" s /\
  brelse 2 (PBuf 2) s = Panic "brelse" s /\
  forall s0 dev blockno,
    match bget 2 dev blockno s0 with
    | Ret b' s' =>
        bread 2 dev blockno s0 = bread_fill b' s' /\
        holdingsleep 2 b' s' = Ret true s'
    | o => bread 2 dev blockno s0 = o
    end.
Proof.
  intros s. apply (sleep_lock_checks s 2 (PBuf 2)).
  vm_compute. reflexivity.
Defined.

(** ** [bread] *)

(** C7. Let [bget] return buffer [b].  If [b] is not valid, [bread] issues
    exactly one device read of [b], stores the block in [data] and sets
    [valid] to 1; if [b] is valid, [bread] issues no device transfer and
    leaves the state alone.  Either way [bread] returns [b], valid. *)
Theorem bread_ensures_valid s pid dev blockno b s1 :
  bget pid dev blockno s = Ret b s1 ->
  exists bf s2 bf2,
    deref s1 b = Some bf /\
    bread pid dev blockno s = Ret b s2 /\
    deref s2 b = Some bf2 /\ Buf.valid bf2 ≠ 0%Z /\
    if Z.eqb (Buf.valid bf) 0
    then trace s2 = trace s1 ++ [DiskRW b false] /\
         bf2 = Buf.set_valid 1
                 (Buf.set_data (disk s1 (Buf.dev bf) (Buf.blockno bf)) bf)
    else s2 = s1.
Proof.
  intros Hg. destruct (bget_returns_locked _ _ _ _ _ _ Hg) as (bf & Hd & _).
  unfold bread. rewrite bind_unfold, Hg. cbv beta iota.
  unfold bread_fill. rewrite bind_load, Hd.
  destruct (Z.eqb (Buf.valid bf) 0) eqn:Hv.
  - exists bf. eexists _, _. split; [done|]. split.
    { unfold virtio_disk_rw.
      repeat (mstep; rewrite ?deref_log, ?deref_update_eq, ?Hd;
              simpl fmap; cbv beta iota).
      reflexivity. }
    rewrite deref_update_eq, deref_log, deref_update_eq, Hd. simpl fmap.
    split; [done|]. split; [done|].
    rewrite Hv. by rewrite trace_update, trace_log, trace_update.
  - rewrite bind_ret, ret_unfold. exists bf, s1, bf. rewrite Hv.
    apply Z.eqb_neq in Hv. done.
Qed.

(** The first [bread] on a fresh pool reads block 7 from the device. *)
Lemma bread_ensures_valid_witness :
  let s1 := final (bget 1 1 7 (boot 3 blank)) in
  exists bf s2 bf2,
    deref s1 (PBuf 2) = Some bf /\
    bread 1 1 7 (boot 3 blank) = Ret (PBuf 2) s2 /\
    deref s2 (PBuf 2) = Some bf2 /\ Buf.valid bf2 ≠ 0%Z /\
    if Z.eqb (Buf.valid bf) 0
    then trace s2 = trace s1 ++ [DiskRW (PBuf 2) false] /\
         bf2 = Buf.set_valid 1
                 (Buf.set_data (disk s1 (Buf.dev bf) (Buf.blockno bf)) bf)
    else s2 = s1.
Proof.
  intros s1. apply (bread_ensures_valid (boot 3 blank) 1 1 7 (PBuf 2) s1).
  vm_compute. reflexivity.
Defined.

(** ** The victim *)

(** The buffer admitted by [bget] is the one the scan settled on. *)
Lemma bget_admit_victim s pid dev blockno p s' :
  bget_admit pid dev blockno s = Ret (Some p) s' ->
  exists v b, p = PBuf v /\ buf s !! v = Some b /\ Buf.refcnt b = 0%Z /\
    (Buf.timestamp b <= ticks s)%Z /\
    forall j b', buf s !! j = Some b' -> Buf.refcnt b' = 0%Z ->
      (Buf.timestamp b <= Buf.timestamp b')%Z /\
      (v < j -> (Buf.timestamp b < Buf.timestamp b')%Z).
Proof.
  intros H. pose proof (bget_admit_cases s pid dev blockno) as Ha.
  rewrite H in Ha. destruct Ha as (i & bf & -> & Hscan & Hi & _).
  destruct (bget_scan_victim _ _ _ Hscan) as (b & Hb & Hr & Ht & Hmin).
  exists i, b. auto.
Qed.

(** [bpin] adds one reference. *)
Lemma bpin_increments s pid j bf :
  buf s !! j = Some bf ->
  exists s', bpin pid (PBuf j) s = Ret tt s' /\
    buf s' !! j = Some (Buf.set_refcnt (wrap32 (Buf.refcnt bf + 1)) bf).
Proof.
  intros Hj. unfold bpin. rewrite bind_load. simpl deref. rewrite Hj.
  cbv zeta. rewrite bind_acquire, bind_store. simpl deref. rewrite Hj.
  rewrite release_unfold. eexists. split; [done|].
  simpl. by rewrite list_lookup_alter_eq, Hj.
Qed.

(** C8. The buffer that the admission section of [bget] takes as victim
    had [refcnt == 0] when it was scanned.  So no buffer with
    [refcnt > 0] is ever the victim, whatever its timestamp; and as [bpin]
    leaves [refcnt] one higher, no buffer is the victim in the state
    [bpin] leaves it in. *)
Theorem pinned_buffer_is_no_victim s pid dev blockno p s' :
  bget_admit pid dev blockno s = Ret (Some p) s' ->
  exists i bf, p = PBuf i /\ buf s !! i = Some bf /\ Buf.refcnt bf = 0%Z /\
    (forall j bj, buf s !! j = Some bj -> (0 < Buf.refcnt bj)%Z -> i ≠ j) /\
    (forall s0 pid0 j bj, buf s0 !! j = Some bj ->
       (0 <= Buf.refcnt bj < 2 ^ 32 - 1)%Z ->
       bpin pid0 (PBuf j) s0 = Ret tt s -> i ≠ j).
Proof.
  intros H. destruct (bget_admit_victim _ _ _ _ _ _ H) as (v & b & -> & Hv & Hr & _).
  exists v, b. split; [done|]. split; [done|]. split; [done|].
  assert (Hlive : forall j bj, buf s !! j = Some bj -> (0 < Buf.refcnt bj)%Z -> v ≠ j).
  { intros j bj Hj Hpos ->. rewrite Hv in Hj. inversion Hj; subst. lia. }
  split; [done|].
  intros s0 pid0 j bj Hj Hrange Hpin.
  destruct (bpin_increments s0 pid0 j bj Hj) as (s1 & Hpin' & Hj').
  rewrite Hpin in Hpin'. inversion Hpin'; subst s1.
  apply (Hlive j _ Hj'). simpl. unfold wrap32.
  rewrite Z.mod_small by lia. lia.
Qed.

(** Buffer 2 is pinned and as old as the others; the victim is buffer 1. *)
Lemma pinned_buffer_is_no_victim_witness :
  let s := final ((b <~ bget 1 1 7 ;; bpin 1 b ;;; brelse 1 b) (boot 3 blank)) in
  exists i bf, PBuf 1 = PBuf i /\ buf s !! i = Some bf /\ Buf.refcnt bf = 0%Z /\
    (forall j bj, buf s !! j = Some bj -> (0 < Buf.refcnt bj)%Z -> i ≠ j) /\
    (forall s0 pid0 j bj, buf s0 !! j = Some bj ->
       (0 <= Buf.refcnt bj < 2 ^ 32 - 1)%Z ->
       bpin pid0 (PBuf j) s0 = Ret tt s -> i ≠ j).
Proof.
  intros s.
  apply (pinned_buffer_is_no_victim s 1 1 8 (PBuf 1) (final (bget_admit 1 1 8 s))).
  vm_compute. reflexivity.
Defined.

(** C10. The victim of the admission section is a free buffer with the
    smallest timestamp among the free buffers, and every free buffer with
    that same timestamp has an index no larger than the victim's: among
    free buffers tied for oldest, the last one in [bcache.buf] wins. *)
Theorem victim_tie_goes_to_last s pid dev blockno p s' :
  bget_admit pid dev blockno s = Ret (Some p) s' ->
  exists v b, p = PBuf v /\ buf s !! v = Some b /\ Buf.refcnt b = 0%Z /\
    forall j b', buf s !! j = Some b' -> Buf.refcnt b' = 0%Z ->
      (Buf.timestamp b <= Buf.timestamp b')%Z /\
      (Buf.timestamp b' = Buf.timestamp b -> j <= v).
Proof.
  intros H. destruct (bget_admit_victim _ _ _ _ _ _ H) as (v & b & -> & Hv & Hr & _ & Hmin).
  exists v, b. split; [done|]. split; [done|]. split; [done|].
  intros j b' Hj Hr'. destruct (Hmin j b' Hj Hr') as [Hle Hlt].
  split; [done|]. intros Heq.
  destruct (decide (j <= v)) as [|Hgt]; [done|].
  assert (v < j) as Hvj by lia. specialize (Hlt Hvj). lia.
Qed.

(** On a fresh pool all three timestamps are 0; the victim is buffer 2. *)
Lemma victim_tie_goes_to_last_witness :
  let s := boot 3 blank in
  exists v b, PBuf 2 = PBuf v /\ buf s !! v = Some b /\ Buf.refcnt b = 0%Z /\
    forall j b', buf s !! j = Some b' -> Buf.refcnt b' = 0%Z ->
      (Buf.timestamp b <= Buf.timestamp b')%Z /\
      (Buf.timestamp b' = Buf.timestamp b -> j <= v).
Proof.
  intros s.
  apply (victim_tie_goes_to_last s 1 1 7 (PBuf 2) (final (bget_admit 1 1 7 s))).
  vm_compute. reflexivity.
Defined.

(** ** Several contexts *)

(** A context running alone goes through [bget] in three steps. *)
Lemma run_alone pid dev blockno s b s' :
  bget pid dev blockno s = Ret b s' ->
  run [pid; pid; pid] [(pid, TLookup dev blockno)] s = ([(pid, TReturned b)], s').
Proof.
  unfold bget. rewrite bind_unfold. simpl. rewrite !Z.eqb_refl. simpl.
  destruct (bget_lookup pid dev blockno s) as [[b0|] s1| | | |]; try done; simpl.
  - rewrite bind_unfold, !Z.eqb_refl. simpl.
    destruct (acquiresleep pid b0 s1) as [[] s2| | | |]; try done; simpl.
    rewrite Z.eqb_refl. simpl. by intros [= <- <-].
  - rewrite bind_unfold, !Z.eqb_refl. simpl.
    destruct (bget_admit pid dev blockno s1) as [[p|] s2| | | |]; try done; simpl.
    rewrite bind_unfold, Z.eqb_refl. simpl.
    destruct (acquiresleep pid p s2) as [[] s3| | | |]; try done; simpl.
    by intros [= <- <-].
Qed.

(** C1 fails on the code.  Two contexts ask for block 7 of device 1 on a
    fresh pool of three buffers.  Both run the lookup section and miss
    before either runs the admission section; the admission section does
    not look at the bucket again, so each admits a buffer of its own.
    Both calls return, and buffers 1 and 2 are live copies of the same
    block.  (Run one after the other, the second call hits buffer 2 and
    waits for its sleep lock: one live copy.) *)
Theorem racing_admissions_duplicate_a_block :
  let r := run [1; 2; 1; 2; 1; 2]%Z
               [(1%Z, TLookup 1 7); (2%Z, TLookup 1 7)] (boot 3 blank) in
  let r' := run [1; 1; 1; 2; 2; 2]%Z
                [(1%Z, TLookup 1 7); (2%Z, TLookup 1 7)] (boot 3 blank) in
  r.1 = [(1%Z, TReturned (PBuf 2)); (2%Z, TReturned (PBuf 1))] /\
  live_on r.2 1 7 = [1; 2] /\
  members r.2 7 = Some [PBuf 1; PBuf 2] /\
  r'.1 = [(1%Z, TReturned (PBuf 2)); (2%Z, TSleep (PBuf 2))] /\
  live_on r'.2 1 7 = [2].
Proof. repeat split; vm_compute; reflexivity. Qed.

(** ** Membership after [bunpin] *)

(** The cache after a caller has taken block 5, pinned it, released it
    and unpinned it, and after block 6 has then been admitted. *)
Lemma stale_link_state :
  exists s s',
    pin_release_unpin 1 1 5 (boot 3 blank) = Ret (PBuf 2) s /\
    bget 1 1 6 s = Ret (PBuf 2) s' /\
    deref s' (PTable 5) = Some (Buf.mk 0 0 0 None 0 0 (PBuf 2) (PBuf 2) []) /\
    deref s' (PTable 6) = Some (Buf.mk 0 0 0 None 0 0 (PBuf 2) (PBuf 2) []) /\
    deref s' (PBuf 2) =
      Some (Buf.mk 0 1 6 (Some 1%Z) 1 0 (PTable 6) (PTable 6) []).
Proof.
  eexists _, _. split; [vm_compute; reflexivity|].
  split; [vm_compute; reflexivity|]. repeat split; vm_compute; reflexivity.
Qed.

(** A walk of bucket 5 for block 18 that has reached buffer 2 or the head
    of bucket 6 alternates between the two, whatever the fuel. *)
Lemma stale_link_walk_never_ends s' :
  deref s' (PTable 6) = Some (Buf.mk 0 0 0 None 0 0 (PBuf 2) (PBuf 2) []) ->
  deref s' (PBuf 2) = Some (Buf.mk 0 1 6 (Some 1%Z) 1 0 (PTable 6) (PTable 6) []) ->
  forall fuel,
    bget_walk fuel s' (PTable 5) (PBuf 2) 1 18 = WSpin /\
    bget_walk fuel s' (PTable 5) (PTable 6) 1 18 = WSpin.
Proof.
  intros H6 H2. induction fuel as [|fuel [IH2 IH6]]; [done|].
  split; cbn [bget_walk].
  - rewrite H2. by cbn.
  - rewrite H6. by cbn.
Qed.

(** C3 fails on the code.  A caller takes block 5, pins it, releases it
    and unpins it.  [bunpin] brings [refcnt] to 0 and leaves the buffer
    linked in bucket 5, where [brelse] would have unlinked it.  The next
    admission picks that buffer as victim and links it into bucket 6
    while bucket 5 still leads to it; a later lookup in bucket 5 (block
    18) then walks from bucket 5 into bucket 6 and never meets its own
    head again, however long it walks. *)
Theorem bunpin_leaves_free_buffer_linked :
  exists s s',
    pin_release_unpin 1 1 5 (boot 3 blank) = Ret (PBuf 2) s /\
    Buf.refcnt <$> buf s !! 2 = Some 0%Z /\
    members s 5 = Some [PBuf 2] /\
    bget 1 1 6 s = Ret (PBuf 2) s' /\
    members s' 6 = Some [PBuf 2] /\
    Buf.next <$> table s' !! 5 = Some (PBuf 2) /\
    (forall fuel, bget_walk fuel s' (PTable 5) (PBuf 2) 1 18 = WSpin) /\
    bget 2 1 18 s' = Spin (log (Acquire 2 (BucketLock 5)) s').
Proof.
  destruct stale_link_state as (s & s' & Hs & Hs' & H5 & H6 & H2).
  exists s, s'. split; [done|].
  assert (s = final (pin_release_unpin 1 1 5 (boot 3 blank))) as Es by by rewrite Hs.
  assert (s' = final (bget 1 1 6 s)) as Es' by by rewrite Hs'.
  split; [by rewrite Es; vm_compute|]. split; [by rewrite Es; vm_compute|].
  split; [done|]. split; [by rewrite Es', Es; vm_compute|].
  split; [by rewrite Es', Es; vm_compute|].
  split; [intros fuel; apply (stale_link_walk_never_ends s' H6 H2)|].
  rewrite Es', Es. vm_compute. reflexivity.
Qed.

(** ** Least recently used *)

(** C4, as stated, fails when the tick counter stands still.  Pool of
    three, tick 0 throughout (as it is right after boot): blocks 1, 2 and
    3 are taken and released in turn.  Every admission picks buffer 2, so
    block 2 evicts block 1 and block 3 evicts block 2 while buffers 0 and
    1 stay unused; the admission of a fourth block evicts block 3, the
    most recently released one. *)
Lemma stalled_ticks_evict_most_recent :
  exists bs s s',
    use_blocks 1 [(0, 1, 1); (0, 1, 2); (0, 1, 3)]%Z (boot 3 blank) = Ret bs s /\
    bs = [PBuf 2; PBuf 2; PBuf 2] /\
    Buf.blockno <$> buf s = [0; 0; 3]%Z /\
    bget 1 1 4 s = Ret (PBuf 2) s' /\
    Buf.blockno <$> buf s' = [0; 0; 4]%Z.
Proof.
  eexists _, _, _. split; [vm_compute; reflexivity|].
  repeat split; vm_compute; reflexivity.
Qed.

(** ** Single-context use of an idle cache *)

Lemma bucket_of_lt blockno : bucket_of blockno < Z.to_nat NBUCKET.
Proof.
  unfold bucket_of, NBUCKET.
  pose proof (Z.mod_pos_bound blockno 13 eq_refl). lia.
Qed.

Lemma deref_set_ticks t s p : deref (set_ticks t s) p = deref s p.
Proof. by destruct p. Qed.

(** Push [deref] through logs and updates down to the starting state. *)
Ltac dsimp :=
  repeat first
    [ rewrite deref_log | rewrite deref_update_eq
    | rewrite deref_update_ne by congruence | rewrite deref_set_ticks ].

Lemma bget_walk_empty s head dev blockno :
  bget_walk (walk_fuel s) s head head dev blockno = WMiss.
Proof. unfold walk_fuel. simpl. unfold ptr_eqb. by rewrite bool_decide_eq_true_2. Qed.

Lemma ptr_eqb_refl p : ptr_eqb p p = true.
Proof. unfold ptr_eqb. by rewrite bool_decide_eq_true_2. Qed.

(** Run straight-line code: one monadic step, then the pointer reads it
    exposes, then the facts [tac] knows about the starting state. *)
Ltac go tac :=
  repeat (first [mstep | rewrite ret_unfold | rewrite emit_unfold | rewrite release_unfold];
          dsimp; tac; simpl fmap;
          cbn [negb Buf.lock Buf.valid Buf.refcnt Buf.next Buf.prev Buf.blockno
               Buf.dev Buf.timestamp Buf.data
               Buf.set_next Buf.set_prev Buf.relabel Buf.set_lock Buf.set_refcnt];
          tac; cbv beta iota).

(** [bget] on an idle cache misses, relabels the scan's victim, links it as
    the only member of the target bucket and returns it locked. *)
Lemma bget_idle s pid dev blockno v :
  idle s ->
  bget_scan (buf s) 0 (ticks s) None = Some v ->
  exists s1 b h,
    buf s !! v = Some b /\ table s !! bucket_of blockno = Some h /\
    bget pid dev blockno s = Ret (PBuf v) s1 /\
    buf s1 !! v = Some (Buf.mk 0 dev blockno (Some pid) 1 (ticks s)
                          (PTable (bucket_of blockno)) (PTable (bucket_of blockno))
                          (Buf.data b)) /\
    table s1 !! bucket_of blockno =
      Some (Buf.set_prev (PBuf v) (Buf.set_next (PBuf v) h)) /\
    (forall j, j ≠ v -> buf s1 !! j = buf s !! j) /\
    (forall k, k ≠ bucket_of blockno -> table s1 !! k = table s !! k) /\
    ticks s1 = ticks s /\ disk s1 = disk s.
Proof.
  intros (Hempty & Hfree) Hscan.
  destruct (bget_scan_victim _ _ _ Hscan) as (b & Hb & Hr & _).
  destruct (Hfree v b Hb) as [_ Hlock].
  set (k := bucket_of blockno).
  destruct (Hempty k (bucket_of_lt blockno)) as (h & Hh & Hnext & Hprev).
  assert (Hpe : ptr_eqb (Buf.next h) (PTable k) = true)
    by (rewrite Hnext; apply ptr_eqb_refl).
  cut (exists s1, bget pid dev blockno s = Ret (PBuf v) s1 /\
         deref s1 (PBuf v) = Some (Buf.mk 0 dev blockno (Some pid) 1 (ticks s)
                          (PTable k) (PTable k) (Buf.data b)) /\
         deref s1 (PTable k) = Some (Buf.set_prev (PBuf v) (Buf.set_next (PBuf v) h)) /\
         (forall p, p ≠ PBuf v -> p ≠ PTable k -> deref s1 p = deref s p) /\
         ticks s1 = ticks s /\ disk s1 = disk s).
  { intros (s1 & Hg & Hv & Hk & Hframe & Ht & Hd). exists s1, b, h.
    repeat (split; [done|]). split; [|split; [|done]].
    - intros j Hj. apply (Hframe (PBuf j)); congruence.
    - intros k' Hk'. apply (Hframe (PTable k')); congruence. }
  assert (Hb' : deref s (PBuf v) = Some b) by done.
  assert (Hh' : deref s (PTable k) = Some h) by done.
  assert (Hticks : forall e s0, ticks (log e s0) = ticks s0) by done.
  unfold bget, bget_lookup, bget_find, bget_admit, bget_link, acquiresleep.
  fold k. cbv zeta.
  destruct (bool_decide (bucket_of (Buf.blockno b) = k)) eqn:Hbd;
    repeat mstep; dsimp; rewrite Hh'; cbv beta iota;
    rewrite bind_assoc, bind_unfold, Hnext, bget_walk_empty; cbv beta iota;
    repeat mstep; rewrite !buf_log;
    replace (ticks _) with (ticks s) by done; rewrite Hscan; cbv beta iota zeta;
    go ltac:(rewrite ?Hh', ?Hb', ?Hpe, ?Hlock, ?Hbd);
    (eexists; split; [reflexivity|]);
    (split; [by dsimp; rewrite Hb'|]); (split; [by dsimp; rewrite Hh'|]);
    (split; [|done]); intros p Hp1 Hp2; by dsimp.
Qed.

(** [brelse] by the last holder of the only member of bucket [k] drops the
    reference and empties the bucket. *)
Lemma brelse_last s pid v k bf h :
  deref s (PBuf v) = Some bf -> deref s (PTable k) = Some h ->
  Buf.lock bf = Some pid -> Buf.refcnt bf = 1%Z ->
  Buf.prev bf = PTable k -> Buf.next bf = PTable k ->
  exists s2, brelse pid (PBuf v) s = Ret tt s2 /\
    deref s2 (PBuf v) = Some (Buf.set_refcnt 0 (Buf.set_lock None bf)) /\
    deref s2 (PTable k) = Some (Buf.set_prev (PTable k) (Buf.set_next (PTable k) h)) /\
    (forall p, p ≠ PBuf v -> p ≠ PTable k -> deref s2 p = deref s p) /\
    ticks s2 = ticks s /\ disk s2 = disk s.
Proof.
  intros Hb Hh Hlock Hr Hprev Hnext.
  unfold brelse, holdingsleep, releasesleep. cbv zeta.
  go ltac:(rewrite ?Hb, ?Hh, ?Hlock, ?Hr, ?Hprev, ?Hnext,
             ?(bool_decide_eq_true_2 (Some pid = Some pid) eq_refl);
           try change (wrap32 (1 - 1)) with 0%Z;
           try change (0 =? 0)%Z with true).
  eexists. split; [reflexivity|].
  split; [by dsimp; rewrite Hb; simpl; rewrite Hr|].
  split; [by dsimp; rewrite Hh|].
  split; [|done]. intros p Hp1 Hp2. by dsimp.
Qed.

Lemma idle_set_ticks t s : idle s -> idle (set_ticks t s).
Proof. done. Qed.

(** One acquire/release pair on an idle cache: the victim is relabelled
    and stamped, everything else is as before, and the cache is idle
    again. *)
Lemma use_block_idle s pid t dev blockno v :
  idle s ->
  bget_scan (buf s) 0 t None = Some v ->
  exists s2 b,
    buf s !! v = Some b /\
    use_block pid (t, dev, blockno) s = Ret (PBuf v) s2 /\
    idle s2 /\
    buf s2 !! v = Some (Buf.mk 0 dev blockno None 0 t
                          (PTable (bucket_of blockno)) (PTable (bucket_of blockno))
                          (Buf.data b)) /\
    (forall j, j ≠ v -> buf s2 !! j = buf s !! j).
Proof.
  intros Hidle Hscan.
  destruct (bget_idle (set_ticks t s) pid dev blockno v (idle_set_ticks t s Hidle) Hscan)
    as (s1 & b & h & Hb & Hh & Hget & Hv1 & Hk1 & Hbuf1 & Htab1 & _).
  set (k := bucket_of blockno) in *.
  destruct (proj1 Hidle k (bucket_of_lt blockno)) as (h' & Hh' & Hnext & Hprev).
  change (table (set_ticks t s) !! k) with (table s !! k) in Hh.
  rewrite Hh' in Hh. inversion Hh; subst h'. clear Hh.
  destruct (brelse_last s1 pid v k _ _ Hv1 Hk1 eq_refl eq_refl eq_refl eq_refl)
    as (s2 & Hrel & Hv2 & Hk2 & Hframe & _).
  exists s2, b. split; [done|]. split.
  { unfold use_block. rewrite bind_modify, bind_unfold, Hget. cbv beta iota.
    by rewrite bind_unfold, Hrel. }
  split; [|split].
  - split.
    + intros k' Hk'. destruct (decide (k' = k)) as [->|Hne].
      * eexists. split; [exact Hk2|]. done.
      * specialize (Hframe (PTable k')). simpl in Hframe.
        rewrite Hframe by congruence. rewrite Htab1 by done.
        apply (proj1 Hidle k' Hk').
    + intros i bi Hi. destruct (decide (i = v)) as [->|Hne].
      * simpl in Hv2. rewrite Hv2 in Hi. by inversion Hi.
      * specialize (Hframe (PBuf i)). simpl in Hframe.
        rewrite Hframe in Hi by congruence. rewrite Hbuf1 in Hi by done.
        apply (proj2 Hidle i bi Hi).
  - done.
  - intros j Hj. specialize (Hframe (PBuf j)). simpl in Hframe.
    rewrite Hframe by congruence. by apply Hbuf1.
Qed.

Lemma length_by_lookup {A} (l1 l2 : list A) :
  (forall i, is_Some (l1 !! i) <-> is_Some (l2 !! i)) -> length l1 = length l2.
Proof.
  intros H. destruct (lt_eq_lt_dec (length l1) (length l2)) as [[Hlt|]|Hlt]; [|done|].
  - pose proof (lookup_lt_is_Some_2 l2 _ Hlt) as H2. apply H in H2.
    apply lookup_lt_is_Some_1 in H2. lia.
  - pose proof (lookup_lt_is_Some_2 l1 _ Hlt) as H1. apply H in H1.
    apply lookup_lt_is_Some_1 in H1. lia.
Qed.

(** While untouched buffers remain (indices below [m]), the victim is the
    last of them. *)
Lemma victim_fill s n m T t :
  filled s n m T -> 0 < m -> m <= n -> (0 <= t)%Z ->
  bget_scan (buf s) 0 t None = Some (m - 1).
Proof.
  intros ((_ & Hfree) & Hlen & Hts & _) Hm Hmn Ht.
  destruct (lookup_lt_is_Some_2 (buf s) (m - 1)) as [b0 Hb0]; [lia|].
  destruct (Hfree _ _ Hb0) as [Hr0 _].
  destruct (Hts _ _ Hb0) as [Hz0 _]. specialize (Hz0 ltac:(lia)).
  destruct (bget_scan_finds (buf s) t (m - 1) b0 Hb0 Hr0 ltac:(lia)) as [v Hv].
  rewrite Hv. f_equal.
  destruct (bget_scan_victim _ _ _ Hv) as (b & Hb & Hr & _ & Hmin).
  destruct (Hmin _ _ Hb0 Hr0) as [Hle Hlt].
  destruct (Hts _ _ Hb) as [Hz Hpos].
  destruct (decide (m <= v)) as [Hge|Hlt']; [specialize (Hpos Hge); lia|].
  destruct (decide (v < m - 1)) as [Hsmall|]; [|lia].
  specialize (Hlt Hsmall). specialize (Hz ltac:(lia)). lia.
Qed.

(** Once every buffer has been used, the victim is the last buffer, the
    one stamped first. *)
Lemma victim_full s n T t :
  filled s n 0 T -> 0 < n -> (T <= t)%Z ->
  bget_scan (buf s) 0 t None = Some (n - 1).
Proof.
  intros ((_ & Hfree) & Hlen & Hts & Hmono) Hn Ht.
  destruct (lookup_lt_is_Some_2 (buf s) (n - 1)) as [b0 Hb0]; [lia|].
  destruct (Hfree _ _ Hb0) as [Hr0 _].
  destruct (Hts _ _ Hb0) as [_ Hpos0]. specialize (Hpos0 ltac:(lia)).
  destruct (bget_scan_finds (buf s) t (n - 1) b0 Hb0 Hr0 ltac:(lia)) as [v Hv].
  rewrite Hv. f_equal.
  destruct (bget_scan_victim _ _ _ Hv) as (b & Hb & Hr & _ & Hmin).
  destruct (Hmin _ _ Hb0 Hr0) as [Hle Hlt].
  pose proof (lookup_lt_Some _ _ _ Hb) as Hvn.
  destruct (decide (v < n - 1)) as [Hsmall|]; [|lia].
  specialize (Hlt Hsmall).
  pose proof (Hmono v (n - 1) b b0 ltac:(lia) ltac:(lia) Hb Hb0). lia.
Qed.

(** One more pair while untouched buffers remain: it lands in buffer
    [m - 1]. *)
Lemma use_block_fill s pid n m T t dev blockno :
  filled s n m T -> 0 < m -> m <= n -> (T <= t)%Z -> (0 < t)%Z ->
  exists s2 b,
    use_block pid (t, dev, blockno) s = Ret (PBuf (m - 1)) s2 /\
    filled s2 n (m - 1) t /\
    buf s2 !! (m - 1) = Some b /\
    Buf.dev b = dev /\ Buf.blockno b = blockno /\ Buf.valid b = 0%Z /\
    (forall j, j ≠ m - 1 -> buf s2 !! j = buf s !! j).
Proof.
  intros Hf Hm Hmn HT Ht.
  pose proof (victim_fill s n m T t Hf Hm Hmn ltac:(lia)) as Hscan.
  destruct Hf as (Hidle & Hlen & Hts & Hmono).
  destruct (use_block_idle s pid t dev blockno (m - 1) Hidle Hscan)
    as (s2 & b & Hb & Huse & Hidle2 & Hv2 & Hframe).
  eexists s2, _. split; [done|]. split; [|by split; [exact Hv2|]].
  split; [done|]. split; [|split].
  - rewrite <- Hlen. apply length_by_lookup. intros i.
    destruct (decide (i = m - 1)) as [->|Hne].
    + rewrite Hv2, Hb. split; eauto.
    + by rewrite Hframe.
  - intros i bi Hi. destruct (decide (i = m - 1)) as [->|Hne].
    + rewrite Hv2 in Hi. inversion Hi; subst bi. simpl. split; [lia|]. lia.
    + rewrite Hframe in Hi by done. destruct (Hts i bi Hi) as [Hz Hpos].
      split; [intros; apply Hz; lia|]. intros Hge. specialize (Hpos ltac:(lia)). lia.
  - intros i j bi bj Hi Hij Hbi Hbj.
    destruct (decide (j = m - 1)) as [->|Hnej].
    + assert (i = m - 1) as -> by lia. rewrite Hbi in Hbj. inversion Hbj. lia.
    + rewrite Hframe in Hbj by done.
      destruct (Hts j bj Hbj) as [_ Hposj]. specialize (Hposj ltac:(lia)).
      destruct (decide (i = m - 1)) as [->|Hnei].
      * rewrite Hv2 in Hbi. inversion Hbi; subst bi. simpl. lia.
      * rewrite Hframe in Hbi by done. apply (Hmono i j); [lia|lia|done|done].
Qed.

Lemma table_boot n d :
  table (boot n d) = imap binit_head (replicate (Z.to_nat NBUCKET) Buf.zero).
Proof. done. Qed.

Lemma buf_boot n d : buf (boot n d) = replicate n Buf.zero.
Proof.
  change (buf (boot n d)) with (Buf.set_lock None <$> replicate n Buf.zero).
  by rewrite fmap_replicate.
Qed.

(** After [binit] nothing has been used. *)
Lemma filled_boot n d : filled (boot n d) n n 0.
Proof.
  split; [split|split; [|split]].
  - intros k Hk. exists (binit_head k Buf.zero). split; [|done].
    rewrite table_boot, list_lookup_imap, lookup_replicate_2 by done. done.
  - intros i b Hi. rewrite buf_boot in Hi.
    apply lookup_replicate in Hi as [-> _]. done.
  - by rewrite buf_boot, length_replicate.
  - intros i b Hi. rewrite buf_boot in Hi.
    apply lookup_replicate in Hi as [-> Hlt]. split; [done|lia].
  - intros i j bi bj Hi Hij Hbi Hbj. rewrite buf_boot in Hbi.
    apply lookup_replicate in Hbi as [_ Hlt]. lia.
Qed.

(** A run of acquire/release pairs that fits in the untouched part of
    the pool: request [k] ends up in buffer [m - 1 - k]. *)
Lemma use_blocks_fill pid n tl dl bl rs : forall s m T,
  filled s n m T -> length rs <= m -> m <= n ->
  rising T (rs ++ [(tl, dl, bl)]) ->
  exists bs s' T',
    use_blocks pid rs s = Ret bs s' /\
    filled s' n (m - length rs) T' /\ (T' <= tl)%Z /\ (0 < tl)%Z /\
    (forall j, m <= j -> buf s' !! j = buf s !! j) /\
    (forall k t d b, rs !! k = Some (t, d, b) ->
       exists bf, buf s' !! (m - 1 - k) = Some bf /\
                  Buf.dev bf = d /\ Buf.blockno bf = b).
Proof.
  induction rs as [|[[t d] b] rs IH]; intros s m T Hf Hlen Hmn Hr.
  - simpl in Hr. exists [], s, T. rewrite Nat.sub_0_r.
    split; [done|]. split; [done|]. split; [lia|]. split; [lia|].
    split; [done|]. intros k t d b Hk. by rewrite lookup_nil in Hk.
  - simpl in Hr, Hlen. destruct Hr as (HT & Ht & Hr).
    destruct (use_block_fill s pid n m T t d b Hf ltac:(lia) Hmn HT Ht)
      as (s1 & bf1 & Huse & Hf1 & Hb1 & Hd1 & Hn1 & _ & Hframe1).
    destruct (IH s1 (m - 1) t Hf1 ltac:(lia) ltac:(lia) Hr)
      as (bs & s' & T' & Hrun & Hf' & HT' & Htl & Hframe' & Hid').
    exists (PBuf (m - 1) :: bs), s', T'. split.
    { cbn [use_blocks]. rewrite bind_unfold, Huse. cbv beta iota.
      rewrite bind_unfold, Hrun. done. }
    split.
    { cbn [length]. replace (m - S (length rs)) with (m - 1 - length rs) by lia.
      exact Hf'. }
    split; [done|]. split; [done|]. split.
    { intros j Hj. rewrite Hframe' by lia. apply Hframe1. lia. }
    intros [|k] t0 d0 b0 Hk; simpl in Hk.
    + inversion Hk; subst. exists bf1. rewrite Nat.sub_0_r.
      rewrite Hframe' by lia. done.
    + destruct (Hid' k t0 d0 b0 Hk) as (bf & Hbf & Hd & Hb).
      exists bf. replace (m - 1 - S k) with (m - 1 - 1 - k) by lia. done.
Qed.

(** C4, as the code has it.  The victim of an admission is a free buffer
    whose timestamp is smallest among the free buffers.  Timestamps are
    tick counts taken when a block is acquired.  So on a fresh pool of [n]
    buffers, after [n] acquire/release pairs at tick counts that are
    positive and never decrease, request [k] sits in buffer [n - 1 - k],
    and a further [bget] at a tick count no smaller relabels buffer
    [n - 1], the one holding the block of the first pair (the least
    recently used), and leaves every other buffer as it was. *)
Theorem lru_when_ticks_are_positive pid n d rs tl dl bl :
  0 < n -> length rs = n -> rising 0 (rs ++ [(tl, dl, bl)]) ->
  (forall s0 pid0 dev0 blockno0 p s1,
     bget_admit pid0 dev0 blockno0 s0 = Ret (Some p) s1 ->
     exists v b, p = PBuf v /\ buf s0 !! v = Some b /\ Buf.refcnt b = 0%Z /\
       forall j b', buf s0 !! j = Some b' -> Buf.refcnt b' = 0%Z ->
         (Buf.timestamp b <= Buf.timestamp b')%Z) /\
  exists bs s s',
    use_blocks pid rs (boot n d) = Ret bs s /\
    (forall k t dev blockno, rs !! k = Some (t, dev, blockno) ->
       exists bf, buf s !! (n - 1 - k) = Some bf /\
                  Buf.dev bf = dev /\ Buf.blockno bf = blockno /\
                  Buf.refcnt bf = 0%Z) /\
    bget pid dl bl (set_ticks tl s) = Ret (PBuf (n - 1)) s' /\
    (exists bf', buf s' !! (n - 1) = Some bf' /\
                 Buf.dev bf' = dl /\ Buf.blockno bf' = bl /\
                 Buf.valid bf' = 0%Z /\ Buf.refcnt bf' = 1%Z) /\
    (forall j, j ≠ n - 1 -> buf s' !! j = buf s !! j).
Proof.
  intros Hn Hlen Hr. split.
  { intros s0 pid0 dev0 blockno0 p s1 H.
    destruct (bget_admit_victim _ _ _ _ _ _ H) as (v & b & -> & Hv & Hr0 & _ & Hmin).
    exists v, b. split; [done|]. split; [done|]. split; [done|].
    intros j b' Hj Hr'. by destruct (Hmin j b' Hj Hr'). }
  destruct (use_blocks_fill pid n tl dl bl rs (boot n d) n 0 (filled_boot n d)
              ltac:(lia) ltac:(lia) Hr)
    as (bs & s & T' & Hrun & Hf & HT' & Htl & _ & Hid).
  rewrite Hlen, Nat.sub_diag in Hf.
  assert (Hf' : filled (set_ticks tl s) n 0 T') by exact Hf.
  pose proof (victim_full (set_ticks tl s) n T' tl Hf' Hn HT') as Hscan.
  destruct Hf' as (Hidle & _).
  destruct (bget_idle (set_ticks tl s) pid dl bl (n - 1) Hidle Hscan)
    as (s' & b & h & Hb & Hh & Hget & Hv & _ & Hframe & _).
  exists bs, s, s'. split; [done|]. split.
  { intros k t dev blockno Hk. destruct (Hid k t dev blockno Hk) as (bf & Hbf & Hd & Hbn).
    exists bf. repeat (split; [done|]). by destruct (proj2 Hidle _ _ Hbf). }
  split; [done|]. split; [eexists; split; [exact Hv|done]|].
  intros j Hj. by apply Hframe.
Qed.

(** Three blocks at ticks 1, 2, 2 and a fourth at tick 3, pool of three. *)
Lemma lru_when_ticks_are_positive_witness :
  (forall s0 pid0 dev0 blockno0 p s1,
     bget_admit pid0 dev0 blockno0 s0 = Ret (Some p) s1 ->
     exists v b, p = PBuf v /\ buf s0 !! v = Some b /\ Buf.refcnt b = 0%Z /\
       forall j b', buf s0 !! j = Some b' -> Buf.refcnt b' = 0%Z ->
         (Buf.timestamp b <= Buf.timestamp b')%Z) /\
  exists bs s s',
    use_blocks 1 [(1, 1, 10); (2, 1, 11); (2, 1, 12)]%Z (boot 3 blank) = Ret bs s /\
    (forall k t dev blockno,
       [(1, 1, 10); (2, 1, 11); (2, 1, 12)]%Z !! k = Some (t, dev, blockno) ->
       exists bf, buf s !! (3 - 1 - k) = Some bf /\
                  Buf.dev bf = dev /\ Buf.blockno bf = blockno /\
                  Buf.refcnt bf = 0%Z) /\
    bget 1 1 13 (set_ticks 3 s) = Ret (PBuf (3 - 1)) s' /\
    (exists bf', buf s' !! (3 - 1) = Some bf' /\
                 Buf.dev bf' = 1%Z /\ Buf.blockno bf' = 13%Z /\
                 Buf.valid bf' = 0%Z /\ Buf.refcnt bf' = 1%Z) /\
    (forall j, j ≠ 3 - 1 -> buf s' !! j = buf s !! j).
Proof.
  apply (lru_when_ticks_are_positive 1 3 blank
           [(1, 1, 10); (2, 1, 11); (2, 1, 12)]%Z 3 1 13).
  - lia.
  - reflexivity.
  - simpl. lia.
Defined.

(** * More of bio.c *)

(** ** What an operation leaves alone *)

Lemma same_block_refl b : same_block b b.
Proof. by repeat split. Qed.

Lemma same_block_trans b1 b2 b3 :
  same_block b1 b2 -> same_block b2 b3 -> same_block b1 b3.
Proof. unfold same_block. intuition congruence. Qed.

Lemma keeps_refl v s : keeps v s s.
Proof.
  split; [|done]. intros p bf Hp. exists bf. split; [done|].
  intros _. apply same_block_refl.
Qed.

Lemma keeps_log v s s0 e : keeps v s s0 -> keeps v s (log e s0).
Proof.
  intros (Hk & Hrest). split; [|done]. intros p bf Hp.
  rewrite deref_log. by apply Hk.
Qed.

Lemma update_sizes q f s :
  length (buf (update q f s)) = length (buf s) /\
  length (table (update q f s)) = length (table s) /\
  disk (update q f s) = disk s /\ ticks (update q f s) = ticks s.
Proof. destruct q; simpl; rewrite ?length_alter; done. Qed.

Lemma ticks_update q f s : ticks (update q f s) = ticks s.
Proof. by destruct q. Qed.

Lemma disk_update q f s : disk (update q f s) = disk s.
Proof. by destruct q. Qed.

Lemma disk_log e s : disk (log e s) = disk s.
Proof. done. Qed.

Lemma keeps_update v s s0 q f :
  steady f -> keeps v s s0 -> keeps v s (update q f s0).
Proof.
  intros Hf (Hk & Hb & Ht & Hd & Hc).
  destruct (update_sizes q f s0) as (Hb' & Ht' & Hd' & Hc').
  split; [|by rewrite Hb', Ht', Hd', Hc'].
  intros p bf Hp. destruct (Hk p bf Hp) as (bf0 & Hp0 & Hsame).
  destruct (decide (q = p)) as [->|Hne].
  - rewrite deref_update_eq, Hp0. simpl. eexists. split; [done|].
    intros Hv. eapply same_block_trans; [by apply Hsame|apply Hf].
  - rewrite deref_update_ne by done. eauto.
Qed.

Lemma keeps_update_victim s s0 q f :
  keeps (Some q) s s0 -> keeps (Some q) s (update q f s0).
Proof.
  intros (Hk & Hb & Ht & Hd & Hc).
  destruct (update_sizes q f s0) as (Hb' & Ht' & Hd' & Hc').
  split; [|by rewrite Hb', Ht', Hd', Hc'].
  intros p bf Hp. destruct (Hk p bf Hp) as (bf0 & Hp0 & Hsame).
  destruct (decide (q = p)) as [->|Hne].
  - rewrite deref_update_eq, Hp0. simpl. eexists. split; [done|]. done.
  - rewrite deref_update_ne by done. eauto.
Qed.

Lemma keeps_weaken v s s' : keeps None s s' -> keeps v s s'.
Proof.
  intros (Hk & Hrest). split; [|done]. intros p bf Hp.
  destruct (Hk p bf Hp) as (bf' & Hp' & Hsame). exists bf'. split; [done|].
  intros _. by apply Hsame.
Qed.

Lemma keeps_trans v s s1 s2 : keeps None s s1 -> keeps v s1 s2 -> keeps v s s2.
Proof.
  intros (Hk1 & Hb1 & Ht1 & Hd1 & Hc1) (Hk2 & Hb2 & Ht2 & Hd2 & Hc2).
  split; [|by rewrite Hb2, Ht2, Hd2, Hc2]. intros p bf Hp.
  destruct (Hk1 p bf Hp) as (bf1 & Hp1 & Hs1).
  destruct (Hk2 p bf1 Hp1) as (bf2 & Hp2 & Hs2).
  exists bf2. split; [done|]. intros Hv.
  eapply same_block_trans; [by apply Hs1|by apply Hs2].
Qed.

Lemma keeps_trans_r v s s1 s2 : keeps v s s1 -> keeps None s1 s2 -> keeps v s s2.
Proof.
  intros (Hk1 & Hb1 & Ht1 & Hd1 & Hc1) (Hk2 & Hb2 & Ht2 & Hd2 & Hc2).
  split; [|by rewrite Hb2, Ht2, Hd2, Hc2]. intros p bf Hp.
  destruct (Hk1 p bf Hp) as (bf1 & Hp1 & Hs1).
  destruct (Hk2 p bf1 Hp1) as (bf2 & Hp2 & Hs2).
  exists bf2. split; [done|]. intros Hv.
  eapply same_block_trans; [by apply Hs1|by apply Hs2].
Qed.

Lemma has_log Q p s e : has Q p s -> has Q p (log e s).
Proof. intros (bf & Hp & HQ). exists bf. by rewrite deref_log. Qed.

Lemma has_update Q p s q f : stable Q f -> has Q p s -> has Q p (update q f s).
Proof.
  intros Hf (bf & Hp & HQ). destruct (decide (q = p)) as [->|Hne].
  - exists (f bf). rewrite deref_update_eq, Hp. split; [done|]. by apply Hf.
  - exists bf. by rewrite deref_update_ne.
Qed.

Lemma has_update_new (Q : Buf.t -> Prop) p s f bf :
  deref s p = Some bf -> Q (f bf) -> has Q p (update p f s).
Proof. intros Hp HQ. exists (f bf). by rewrite deref_update_eq, Hp. Qed.

Create HintDb frame.
#[local] Hint Resolve keeps_refl keeps_log keeps_update keeps_update_victim
  has_log has_update : frame.
#[local] Hint Extern 1 (steady _) =>
  (let b := fresh "b" in intros b; unfold same_block; cbn; done) : frame.
#[local] Hint Extern 1 (stable _ _) =>
  (let b := fresh "b" in
   intros b; unfold labelled, admitted; cbn; intuition congruence) : frame.

(** Run a computation to its outcomes, splitting on every pointer read. *)
Ltac mcases :=
  repeat first
    [ match goal with
      | |- match (if ?c then _ else _) _ with _ => _ end =>
          let E := fresh "Hif" in destruct c eqn:E
      | |- match (if ?c then _ else _) with _ => _ end =>
          let E := fresh "Hif" in destruct c eqn:E
      | |- match (match deref ?s ?p with _ => _ end) with _ => _ end =>
          let E := fresh "Hderef" in destruct (deref s p) eqn:E
      | |- match store ?p ?f ?s with _ => _ end => rewrite (store_unfold p f s)
      | |- match release ?p ?l ?s with _ => _ end => rewrite (release_unfold p l s)
      | |- match emit ?e ?s with _ => _ end => rewrite (emit_unfold e s)
      | |- match ret ?a ?s with _ => _ end => rewrite (ret_unfold a s)
      | |- match panic ?m ?s with _ => _ end => unfold panic
      end
    | mstep ];
  cbv beta iota zeta.

Lemma bget_link_keeps bucketno lru s :
  match bget_link bucketno lru s with
  | Ret _ s' | Panic _ s' | Fault s' | Sleeping _ s' | Spin s' => keeps None s s'
  end.
Proof. unfold bget_link. mcases; auto 20 with frame. Qed.

Lemma acquiresleep_keeps pid b s :
  match acquiresleep pid b s with
  | Ret _ s' | Panic _ s' | Fault s' | Sleeping _ s' | Spin s' => keeps None s s'
  end.
Proof. unfold acquiresleep. mcases; auto 20 with frame. Qed.

Lemma bget_link_has Q p bucketno lru s :
  (forall x, stable Q (Buf.set_prev x)) -> (forall x, stable Q (Buf.set_next x)) ->
  has Q p s ->
  match bget_link bucketno lru s with
  | Ret _ s' => has Q p s'
  | _ => True
  end.
Proof. intros Hp Hn Hq. unfold bget_link. mcases; auto 20 with frame. Qed.

Lemma bget_walk_hit fuel s head dev blockno : forall b p,
  bget_walk fuel s head b dev blockno = WHit p ->
  has (labelled dev blockno) p s.
Proof.
  induction fuel as [|fuel IH]; intros b p; simpl; [done|].
  destruct (ptr_eqb b head); [done|].
  destruct (deref s b) as [bf|] eqn:Hb; [|done].
  destruct (Z.eqb (Buf.blockno bf) blockno && Z.eqb (Buf.dev bf) dev) eqn:Hm.
  - intros [= <-]. apply andb_true_iff in Hm as [H1 H2].
    apply Z.eqb_eq in H1, H2. exists bf. by repeat split.
  - apply IH.
Qed.

(** The lookup section touches the bookkeeping of the buffer it hits and
    nothing else; what it hits carries the label asked for. *)
Lemma bget_lookup_keeps s pid dev blockno :
  match bget_lookup pid dev blockno s with
  | Ret (Some b) s' => keeps None s s' /\ has (labelled dev blockno) b s'
  | Ret None s' | Panic _ s' | Fault s' | Sleeping _ s' | Spin s' => keeps None s s'
  end.
Proof.
  unfold bget_lookup, bget_find. cbv zeta. mcases; auto with frame.
  rewrite bind_unfold.
  match goal with
  | |- context [bget_walk ?f ?s0 ?h ?b ?d ?n] =>
      pose proof (bget_walk_hit f s0 h d n b) as Hhit;
      destruct (bget_walk f s0 h b d n) as [p| | |]
  end; auto with frame.
  - specialize (Hhit p eq_refl).
    mcases; auto 10 with frame.
  - mcases. auto with frame.
Qed.

(** The admission section relabels its victim, which had [refcnt == 0],
    and otherwise touches links only. *)
Lemma bget_admit_keeps s pid dev blockno :
  exists v,
    (v = None \/ exists i bf, v = Some (PBuf i) /\ buf s !! i = Some bf /\
                              Buf.refcnt bf = 0%Z) /\
    match bget_admit pid dev blockno s with
    | Ret (Some p) s' =>
        v = Some p /\ keeps v s s' /\ has (admitted dev blockno (ticks s)) p s'
    | Ret None s' | Panic _ s' | Fault s' | Sleeping _ s' | Spin s' => keeps v s s'
    end.
Proof.
  unfold bget_admit. cbv zeta. do 2 mstep. rewrite buf_log.
  replace (ticks (log (Acquire pid BcacheLock) s)) with (ticks s) by done.
  destruct (bget_scan (buf s) 0 (ticks s) None) as [i|] eqn:Hscan; cbv beta iota zeta.
  2:{ exists None. split; [by left|]. mcases. auto with frame. }
  destruct (bget_scan_victim _ _ _ Hscan) as (bf & Hi & Hr & _).
  exists (Some (PBuf i)). split; [right; by exists i, bf|].
  mstep. rewrite deref_log. simpl deref. rewrite Hi. cbv beta iota.
  set (k := bucket_of blockno).
  destruct (bool_decide (bucket_of (Buf.blockno bf) = k));
    cbn [negb]; mcases; auto with frame;
    rewrite (bind_unfold (bget_link _ _));
    match goal with
    | |- context [bget_link ?b ?l ?s0] =>
        pose proof (bget_link_keeps b l s0) as Hl;
        pose proof (bget_link_has (admitted dev blockno (ticks s)) (PBuf i) b l s0) as Hh;
        destruct (bget_link b l s0) as [[] sl|msg sl|sl|b' sl|sl]
    end;
    try (eapply keeps_trans_r; [|exact Hl]; auto 10 with frame);
    mcases; (split; [done|]); split.
  1,3: apply keeps_log, keeps_log; try apply keeps_log;
       (eapply keeps_trans_r; [|exact Hl]); auto 10 with frame.
  all: repeat apply has_log; apply Hh; auto with frame;
       eapply has_update_new; [by rewrite !deref_log|]; done.
Qed.

Lemma acquiresleep_ret pid b s s' :
  acquiresleep pid b s = Ret tt s' ->
  exists bf, deref s b = Some bf /\ Buf.lock bf = None /\
    s' = log (AcquireSleep pid b) (update b (Buf.set_lock (Some pid)) s).
Proof.
  unfold acquiresleep. rewrite bind_load.
  destruct (deref s b) as [bf|] eqn:Hb; [|done].
  destruct (Buf.lock bf) eqn:Hl; [done|].
  rewrite bind_store, Hb, emit_unfold. intros [= <-]. eauto.
Qed.

(** Whatever [bget] ends in, it has kept every node, relabelled at most
    one buffer, and that one had [refcnt == 0]. *)
Lemma bget_keeps s pid dev blockno :
  exists v,
    (v = None \/ exists i bf, v = Some (PBuf i) /\ buf s !! i = Some bf /\
                              Buf.refcnt bf = 0%Z) /\
    keeps v s (final (bget pid dev blockno s)).
Proof.
  unfold bget. rewrite bind_unfold.
  pose proof (bget_lookup_keeps s pid dev blockno) as Hl.
  pose proof (bget_lookup_cases s pid dev blockno) as Hc.
  destruct (bget_lookup pid dev blockno s) as [[b|] s1|msg s1|s1|b1 s1|s1];
    try (exists None; split; [by left|]; exact Hl).
  - destruct Hl as [Hl _]. exists None. split; [by left|].
    rewrite bind_unfold. pose proof (acquiresleep_keeps pid b s1) as Hs.
    destruct (acquiresleep pid b s1); simpl; by eapply keeps_trans.
  - destruct Hc as [_ Hs1]. specialize (Hs1 eq_refl).
    destruct (bget_admit_keeps s1 pid dev blockno) as (v & Hv & Ha).
    exists v. split.
    { destruct Hv as [|(i & bf & -> & Hi & Hr)]; [by left|right].
      exists i, bf. by rewrite Hs1 in Hi. }
    rewrite bind_unfold.
    destruct (bget_admit pid dev blockno s1) as [[p|] s2|msg s2|s2|b2 s2|s2];
      simpl; try (by eapply keeps_trans).
    destruct Ha as (_ & Ha & _). rewrite bind_unfold.
    pose proof (acquiresleep_keeps pid p s2) as Hs.
    destruct (acquiresleep pid p s2); simpl;
      (eapply keeps_trans; [exact Hl|]); by eapply keeps_trans_r.
Qed.

(** X1. Whatever its outcome, [bget] leaves in place every buffer whose
    [refcnt] is not 0: same label, same [valid], same data.  It changes
    neither the number of buffers or buckets, nor the device, nor the tick
    counter. *)
Theorem bget_spares_referenced_buffers s pid dev blockno :
  let s' := final (bget pid dev blockno s) in
  length (buf s') = length (buf s) /\ length (table s') = length (table s) /\
  disk s' = disk s /\ ticks s' = ticks s /\
  forall i bf, buf s !! i = Some bf -> Buf.refcnt bf ≠ 0%Z ->
    exists bf', buf s' !! i = Some bf' /\ same_block bf bf'.
Proof.
  destruct (bget_keeps s pid dev blockno) as (v & Hv & Hk & Hsizes).
  cbv zeta. repeat (split; [apply Hsizes|]).
  intros i bf Hi Hr. destruct (Hk (PBuf i) bf Hi) as (bf' & Hi' & Hsame).
  exists bf'. split; [done|]. apply Hsame.
  destruct Hv as [->|(j & bj & -> & Hj & Hrj)]; [done|].
  intros [= ->]. rewrite Hi in Hj. inversion Hj; subst. done.
Qed.

(** X2. A buffer that [bget] returns carries the label asked for and is
    locked by the caller; when the lookup had missed, it is the freshly
    admitted buffer: not valid, one reference, stamped with the current
    tick. *)
Theorem bget_returns_requested_block s pid dev blockno b s' :
  bget pid dev blockno s = Ret b s' ->
  exists bf, deref s' b = Some bf /\
    Buf.dev bf = dev /\ Buf.blockno bf = blockno /\ Buf.lock bf = Some pid /\
    (forall s1, bget_lookup pid dev blockno s = Ret None s1 ->
       Buf.valid bf = 0%Z /\ Buf.refcnt bf = 1%Z /\ Buf.timestamp bf = ticks s).
Proof.
  unfold bget. rewrite bind_unfold.
  pose proof (bget_lookup_keeps s pid dev blockno) as Hl.
  pose proof (bget_lookup_cases s pid dev blockno) as Hc.
  destruct (bget_lookup pid dev blockno s) as [[b0|] s1| | | |]; try done.
  - destruct Hl as [_ (bf & Hb & Hd & Hn)]. rewrite bind_unfold.
    destruct (acquiresleep pid b0 s1) as [[] s2| | | |] eqn:Hs; try done.
    rewrite ret_unfold. intros [= <- <-].
    apply acquiresleep_ret in Hs as (bf1 & Hb1 & _ & ->).
    rewrite Hb in Hb1. inversion Hb1; subst bf1.
    exists (Buf.set_lock (Some pid) bf).
    rewrite deref_log, deref_update_eq, Hb. do 4 (split; [done|]). done.
  - destruct Hc as [_ Hs1]. specialize (Hs1 eq_refl).
    rewrite bind_unfold.
    destruct (bget_admit_keeps s1 pid dev blockno) as (v & _ & Ha).
    destruct (bget_admit pid dev blockno s1) as [[p|] s2| | | |]; try done.
    destruct Ha as (_ & _ & (bf & Hb & Hvalid & Hd & Hn & Hr & Ht)).
    rewrite bind_unfold.
    destruct (acquiresleep pid p s2) as [[] s3| | | |] eqn:Hs; try done.
    rewrite ret_unfold. intros [= <- <-].
    apply acquiresleep_ret in Hs as (bf1 & Hb1 & _ & ->).
    rewrite Hb in Hb1. inversion Hb1; subst bf1.
    exists (Buf.set_lock (Some pid) bf).
    rewrite deref_log, deref_update_eq, Hb.
    do 4 (split; [done|]).
    intros s0' _. rewrite Hs1 in Ht. done.
Qed.

(** The first [bget] on a fresh pool. *)
Lemma bget_returns_requested_block_witness :
  exists bf, deref (final (bget 1 1 7 (boot 3 blank))) (PBuf 2) = Some bf /\
    Buf.dev bf = 1%Z /\ Buf.blockno bf = 7%Z /\ Buf.lock bf = Some 1%Z /\
    (forall s1, bget_lookup 1 1 7 (boot 3 blank) = Ret None s1 ->
       Buf.valid bf = 0%Z /\ Buf.refcnt bf = 1%Z /\
       Buf.timestamp bf = ticks (boot 3 blank)).
Proof.
  apply (bget_returns_requested_block (boot 3 blank) 1 1 7 (PBuf 2)
           (final (bget 1 1 7 (boot 3 blank)))).
  vm_compute. reflexivity.
Defined.

(** The scan finds nothing exactly when every free buffer is younger than
    the tick count it starts from. *)
Lemma bget_scan_none_iff l t :
  bget_scan l 0 t None = None <->
  forall i b, l !! i = Some b -> Buf.refcnt b = 0%Z -> (t < Buf.timestamp b)%Z.
Proof.
  split.
  - intros H. pose proof (bget_scan_result l 0 t None) as R. rewrite H in R.
    inversion R as [Hall Heq|]. done.
  - intros Hall. destruct (bget_scan l 0 t None) as [v|] eqn:Hv; [|done].
    destruct (bget_scan_victim _ _ _ Hv) as (b & Hb & Hr & Ht & _).
    specialize (Hall v b Hb Hr). lia.
Qed.

Lemma bget_admit_none s pid dev blockno :
  bget_scan (buf s) 0 (ticks s) None = None ->
  bget_admit pid dev blockno s =
  Ret None (log (Release pid BcacheLock) (log (Acquire pid BcacheLock) s)).
Proof.
  intros Hnone. unfold bget_admit. cbv zeta. rewrite bind_acquire, bind_get.
  cbv beta. rewrite buf_log.
  replace (ticks (log (Acquire pid BcacheLock) s)) with (ticks s) by done.
  rewrite Hnone. by rewrite bind_release.
Qed.

(** X3. After a missed lookup, [bget] panics with "bget: no buffers"
    exactly when no buffer has both [refcnt == 0] and a timestamp no
    greater than the current tick count: a free buffer stamped in the
    future of [ticks] is not taken. *)
Theorem bget_panics_iff_no_eligible_buffer s pid dev blockno s1 :
  bget_lookup pid dev blockno s = Ret None s1 ->
  (exists s', bget pid dev blockno s = Panic "bget: no buffers" s') <->
  (forall i b, buf s !! i = Some b -> Buf.refcnt b = 0%Z ->
               (ticks s < Buf.timestamp b)%Z).
Proof.
  intros Hl. pose proof (bget_lookup_cases s pid dev blockno) as Hc.
  rewrite Hl in Hc. destruct Hc as [_ Hs1]. specialize (Hs1 eq_refl).
  rewrite <- bget_scan_none_iff.
  unfold bget. rewrite bind_unfold, Hl. cbv beta iota. rewrite bind_unfold.
  pose proof (bget_admit_cases s1 pid dev blockno) as Ha.
  replace (buf s1) with (buf s) in Ha by by rewrite Hs1.
  replace (ticks s1) with (ticks s) in Ha by by rewrite Hs1.
  destruct (bget_admit pid dev blockno s1) as [[p|] s2| |s2| |] eqn:Hadm; try done.
  - destruct Ha as (i & bf & _ & Hscan & _). rewrite Hscan. split; [|done].
    intros [s' H]. rewrite bind_unfold in H.
    pose proof (acquiresleep_cases pid p s2) as Hs.
    destruct (acquiresleep pid p s2) as [[] ?| | | |]; unfold ret in H; done.
  - destruct Ha as [Hscan _]. split; [done|]. intros _. by eexists.
  - split; [by intros [? ?]|]. intros Hnone.
    rewrite bget_admit_none in Hadm; [done|]. by rewrite Hs1.
Qed.

(** Two free buffers stamped at tick 5, and a request at tick 0. *)
Lemma bget_panics_iff_no_eligible_buffer_witness :
  let s := set_ticks 0 (final (use_blocks 1 [(5, 1, 1); (5, 1, 2)]%Z (boot 2 blank))) in
  (exists s', bget 1 1 3 s = Panic "bget: no buffers" s') <->
  (forall i b, buf s !! i = Some b -> Buf.refcnt b = 0%Z ->
               (ticks s < Buf.timestamp b)%Z).
Proof.
  intros s.
  apply (bget_panics_iff_no_eligible_buffer s 1 1 3 (final (bget_lookup 1 1 3 s))).
  vm_compute. reflexivity.
Defined.

(** Both sides of the equivalence hold there: the buffers are free and
    [bget] panics. *)
Lemma free_buffers_from_the_future :
  let s := set_ticks 0 (final (use_blocks 1 [(5, 1, 1); (5, 1, 2)]%Z (boot 2 blank))) in
  Buf.refcnt <$> buf s = [0; 0]%Z /\ Buf.timestamp <$> buf s = [5; 5]%Z /\
  exists s', bget 1 1 3 s = Panic "bget: no buffers" s'.
Proof. repeat split; [..|eexists]; vm_compute; reflexivity. Qed.

(** ** The lookup on a well-formed bucket *)

Lemma walk_members fuel s head dev blockno : forall b l,
  members_from fuel s head b = Some l ->
  bget_walk fuel s head b dev blockno =
  match first_match s dev blockno l with Some p => WHit p | None => WMiss end.
Proof.
  induction fuel as [|fuel IH]; intros b l; simpl; [done|].
  destruct (ptr_eqb b head); [by intros [= <-]|].
  destruct (deref s b) as [bf|] eqn:Hb; [|done].
  destruct (members_from fuel s head (Buf.next bf)) as [l'|] eqn:Hl'; [|done].
  simpl. intros [= <-]. simpl. unfold matches. rewrite Hb.
  destruct (Z.eqb (Buf.blockno bf) blockno && Z.eqb (Buf.dev bf) dev); [done|].
  by apply IH.
Qed.

Lemma first_match_deref s dev blockno l p :
  first_match s dev blockno l = Some p -> is_Some (deref s p).
Proof.
  induction l as [|q l IH]; simpl; [done|].
  destruct (matches s dev blockno q) eqn:Hm; [|done].
  intros [= <-]. unfold matches in Hm. destruct (deref s q); [eauto|done].
Qed.

(** The lookup section on a bucket that is the list [l]. *)
Lemma bget_lookup_on_list s pid dev blockno l :
  members s (bucket_of blockno) = Some l ->
  bget_lookup pid dev blockno s =
  match first_match s dev blockno l with
  | Some b => Ret (Some b) (after_hit pid blockno b s)
  | None => Ret None (log (Release pid (BucketLock (bucket_of blockno)))
                        (log (Acquire pid (BucketLock (bucket_of blockno))) s))
  end.
Proof.
  set (k := bucket_of blockno). intros Hl. unfold members in Hl.
  destruct (table s !! k) as [h|] eqn:Hh; [|done].
  change (members_from (walk_fuel s) s (PTable k) (Buf.next h) = Some l) in Hl.
  unfold bget_lookup, bget_find. fold k. cbv zeta.
  rewrite bind_acquire, bind_load, deref_log. simpl deref. rewrite Hh.
  rewrite bind_unfold.
  change (walk_fuel (log (Acquire pid (BucketLock k)) s)) with (walk_fuel s).
  assert (Hw : forall fuel b,
    bget_walk fuel (log (Acquire pid (BucketLock k)) s) (PTable k) b dev blockno =
    bget_walk fuel s (PTable k) b dev blockno).
  { induction fuel as [|fuel IH]; intros b; simpl; [done|].
    rewrite deref_log. destruct (ptr_eqb b (PTable k)); [done|].
    destruct (deref s b); [|done]. by rewrite IH. }
  rewrite Hw, (walk_members _ _ _ _ _ _ _ Hl).
  destruct (first_match s dev blockno l) as [b|] eqn:Hf; cbv beta iota.
  - destruct (first_match_deref _ _ _ _ _ Hf) as [bf Hb].
    rewrite bind_store, deref_log, Hb, bind_get, bind_store.
    rewrite deref_update_eq, deref_log, Hb. simpl fmap. cbv beta iota.
    by rewrite bind_release, ticks_update.
  - by rewrite bind_release.
Qed.

(** X4. When the target bucket is a well-formed list, the lookup section
    returns the first member labelled [(dev, blockno)], with one more
    reference and a fresh timestamp, and misses, changing nothing, exactly
    when no member carries that label. *)
Theorem lookup_returns_first_labelled_member s pid dev blockno l :
  members s (bucket_of blockno) = Some l ->
  bget_lookup pid dev blockno s =
  match first_match s dev blockno l with
  | Some b => Ret (Some b) (after_hit pid blockno b s)
  | None => Ret None (log (Release pid (BucketLock (bucket_of blockno)))
                        (log (Acquire pid (BucketLock (bucket_of blockno))) s))
  end.
Proof. apply bget_lookup_on_list. Qed.

(** Block 5 pinned and released: the bucket holds buffer 2, unlocked. *)
Lemma lookup_returns_first_labelled_member_witness :
  let s := final ((b <~ bget 1 1 5 ;; bpin 1 b ;;; brelse 1 b) (boot 3 blank)) in
  bget_lookup 2 1 5 s =
  match first_match s 1 5 [PBuf 2] with
  | Some b => Ret (Some b) (after_hit 2 5 b s)
  | None => Ret None (log (Release 2 (BucketLock (bucket_of 5)))
                        (log (Acquire 2 (BucketLock (bucket_of 5))) s))
  end.
Proof.
  intros s. apply (lookup_returns_first_labelled_member s 2 1 5 [PBuf 2]).
  vm_compute. reflexivity.
Defined.

(** [bget] on a bucket that is the list [l] and holds the block. *)
Lemma bget_hit_on_list s pid dev blockno l b bf :
  members s (bucket_of blockno) = Some l ->
  first_match s dev blockno l = Some b ->
  deref s b = Some bf ->
  let s1 := after_hit pid blockno b s in
  deref s1 b = Some (Buf.set_timestamp (ticks s)
                       (Buf.set_refcnt (wrap32 (Buf.refcnt bf + 1)) bf)) /\
  bget pid dev blockno s =
  match Buf.lock bf with
  | None => Ret b (log (AcquireSleep pid b) (update b (Buf.set_lock (Some pid)) s1))
  | Some _ => Sleeping b s1
  end.
Proof.
  intros Hl Hf Hb s1.
  assert (Hb1 : deref s1 b = Some (Buf.set_timestamp (ticks s)
                       (Buf.set_refcnt (wrap32 (Buf.refcnt bf + 1)) bf))).
  { unfold s1, after_hit. by rewrite deref_log, !deref_update_eq, deref_log, Hb. }
  split; [done|].
  unfold bget. rewrite bind_unfold, (bget_lookup_on_list _ _ _ _ _ Hl), Hf.
  cbv beta iota. fold s1. unfold acquiresleep.
  rewrite bind_assoc, bind_load, Hb1. simpl Buf.lock.
  destruct (Buf.lock bf); [done|].
  by rewrite bind_assoc, bind_store, Hb1, bind_emit, ret_unfold.
Qed.

(** X5. A [bget] that hits buffer [b] in a well-formed bucket counts the
    caller as a reference before it tries the sleep lock: it returns [b]
    locked when the lock is free, and goes to sleep on [b], reference
    already counted, when someone holds it. *)
Theorem bget_hit_counts_before_sleeping s pid dev blockno l b bf :
  members s (bucket_of blockno) = Some l ->
  first_match s dev blockno l = Some b ->
  deref s b = Some bf ->
  let s1 := after_hit pid blockno b s in
  deref s1 b = Some (Buf.set_timestamp (ticks s)
                       (Buf.set_refcnt (wrap32 (Buf.refcnt bf + 1)) bf)) /\
  bget pid dev blockno s =
  match Buf.lock bf with
  | None => Ret b (log (AcquireSleep pid b) (update b (Buf.set_lock (Some pid)) s1))
  | Some _ => Sleeping b s1
  end.
Proof. apply bget_hit_on_list. Qed.

(** Process 2 asks for block 5 while process 1 holds it. *)
Lemma bget_hit_counts_before_sleeping_witness :
  let s := final (bget 1 1 5 (boot 3 blank)) in
  let s1 := after_hit 2 5 (PBuf 2) s in
  deref s1 (PBuf 2) =
    Some (Buf.set_timestamp (ticks s)
            (Buf.set_refcnt (wrap32 (1 + 1))
               (Buf.mk 0 1 5 (Some 1%Z) 1 0 (PTable 5) (PTable 5) []))) /\
  bget 2 1 5 s =
  match Buf.lock (Buf.mk 0 1 5 (Some 1%Z) 1 0 (PTable 5) (PTable 5) []) with
  | None => Ret (PBuf 2)
              (log (AcquireSleep 2 (PBuf 2))
                 (update (PBuf 2) (Buf.set_lock (Some 2%Z)) s1))
  | Some _ => Sleeping (PBuf 2) s1
  end.
Proof.
  intros s.
  apply (bget_hit_counts_before_sleeping s 2 1 5 [PBuf 2] (PBuf 2)
           (Buf.mk 0 1 5 (Some 1%Z) 1 0 (PTable 5) (PTable 5) []));
    vm_compute; reflexivity.
Defined.

(** X6. [bread] of a block that is in its bucket, valid and unlocked
    returns it without any device transfer: the only events are the
    bucket lock taken and released and the sleep lock taken, and the
    buffer's data is what it was. *)
Theorem bread_of_cached_block_skips_device s pid dev blockno l b bf :
  members s (bucket_of blockno) = Some l ->
  first_match s dev blockno l = Some b ->
  deref s b = Some bf ->
  Buf.lock bf = None -> Buf.valid bf ≠ 0%Z ->
  exists s',
    bread pid dev blockno s = Ret b s' /\
    trace s' = trace s ++ [Acquire pid (BucketLock (bucket_of blockno));
                           Release pid (BucketLock (bucket_of blockno));
                           AcquireSleep pid b] /\
    disk s' = disk s /\
    exists bf', deref s' b = Some bf' /\ Buf.data bf' = Buf.data bf /\
                Buf.valid bf' = Buf.valid bf /\ Buf.lock bf' = Some pid.
Proof.
  intros Hl Hf Hb Hlock Hvalid.
  destruct (bget_hit_on_list s pid dev blockno l b bf Hl Hf Hb)
    as [Hb1 Hget].
  rewrite Hlock in Hget. cbv zeta in Hb1.
  eexists. split.
  { unfold bread. rewrite bind_unfold, Hget. cbv beta iota.
    unfold bread_fill. rewrite bind_load, deref_log, deref_update_eq, Hb1.
    simpl. apply Z.eqb_neq in Hvalid. rewrite Hvalid.
    by rewrite bind_ret, ret_unfold. }
  split.
  { unfold after_hit. autorewrite with trace. by rewrite <- !app_assoc. }
  split.
  { unfold after_hit. by repeat (rewrite disk_log || rewrite disk_update). }
  eexists. rewrite deref_log, deref_update_eq, Hb1. by simpl.
Qed.

(** Block 5 read, pinned and released by process 1, then read by
    process 2. *)
Lemma bread_of_cached_block_skips_device_witness :
  let s := final ((b <~ bread 1 1 5 ;; bpin 1 b ;;; brelse 1 b) (boot 3 blank)) in
  exists s',
    bread 2 1 5 s = Ret (PBuf 2) s' /\
    trace s' = trace s ++ [Acquire 2 (BucketLock (bucket_of 5));
                           Release 2 (BucketLock (bucket_of 5));
                           AcquireSleep 2 (PBuf 2)] /\
    disk s' = disk s /\
    exists bf', deref s' (PBuf 2) = Some bf' /\
                Buf.data bf' = Buf.data (Buf.mk 1 1 5 None 1 0 (PTable 5) (PTable 5) []) /\
                Buf.valid bf' = Buf.valid (Buf.mk 1 1 5 None 1 0 (PTable 5) (PTable 5) []) /\
                Buf.lock bf' = Some 2%Z.
Proof.
  intros s.
  apply (bread_of_cached_block_skips_device s 2 1 5 [PBuf 2] (PBuf 2)
           (Buf.mk 1 1 5 None 1 0 (PTable 5) (PTable 5) [])).
  - vm_compute. reflexivity.
  - vm_compute. reflexivity.
  - vm_compute. reflexivity.
  - reflexivity.
  - simpl. lia.
Defined.

(** ** A cache at rest never hits *)

Lemma quietly_extends s s' : quietly s s' -> exists evs, trace s' = trace s ++ evs.
Proof. intros (evs & H & _). eauto. Qed.

(** [bget] only ever adds events. *)
Lemma bget_extends_trace s pid dev blockno :
  exists evs, trace (final (bget pid dev blockno s)) = trace s ++ evs.
Proof.
  assert (Hsl : forall b s1 (k : unit -> M ptr),
    (forall u s2, k u s2 = Ret b s2) ->
    exists evs, trace (final (bind (acquiresleep pid b) k s1)) = trace s1 ++ evs).
  { intros b s1 k Hk. rewrite bind_unfold.
    pose proof (acquiresleep_cases pid b s1) as Hs.
    destruct (acquiresleep pid b s1) as [[] s2| |s2|b' s2|]; try done.
    - rewrite Hk. simpl. destruct Hs as [-> _]. eauto.
    - subst. exists []. by rewrite app_nil_r.
    - destruct Hs as [_ ->]. exists []. by rewrite app_nil_r. }
  unfold bget. rewrite bind_unfold.
  pose proof (bget_lookup_cases s pid dev blockno) as Hl.
  destruct (bget_lookup pid dev blockno s) as [[b|] s1| |s1| |s1]; try done;
    try (by apply quietly_extends).
  - destruct Hl as [Hl _]. destruct (Hsl b s1 (fun _ => ret b)) as [evs He]; [done|].
    rewrite He, Hl, <- app_assoc. eauto.
  - destruct Hl as [Hl _]. rewrite bind_unfold.
    pose proof (bget_admit_cases s1 pid dev blockno) as Ha.
    destruct (bget_admit pid dev blockno s1) as [[p|] s2| |s2| |]; try done.
    + destruct Ha as (i & bf & _ & _ & _ & Ha).
      destruct (Hsl p s2 (fun _ => ret p)) as [evs He]; [done|].
      rewrite He, Ha, Hl, <- !app_assoc. eauto.
    + destruct Ha as [_ ->]. simpl. rewrite Hl, <- !app_assoc. eauto.
    + destruct Ha as (evs & Ha & _). simpl. rewrite Ha, Hl, <- app_assoc. eauto.
Qed.

(** X7. On a cache at rest (every bucket empty, every buffer free) [bread]
    always goes to the device: whatever the buffers still hold, the
    lookup misses, the scan's victim is relabelled, and its data is read
    from the device before it is returned valid and locked. *)
Theorem bread_at_rest_reads_the_device s pid dev blockno v :
  idle s ->
  bget_scan (buf s) 0 (ticks s) None = Some v ->
  exists s' b,
    buf s !! v = Some b /\
    bread pid dev blockno s = Ret (PBuf v) s' /\
    buf s' !! v = Some (Buf.mk 1 dev blockno (Some pid) 1 (ticks s)
                          (PTable (bucket_of blockno)) (PTable (bucket_of blockno))
                          (disk s dev blockno)) /\
    (exists evs, trace s' = trace s ++ evs ++ [DiskRW (PBuf v) false]) /\
    (forall j, j ≠ v -> buf s' !! j = buf s !! j).
Proof.
  intros Hidle Hscan.
  destruct (bget_idle s pid dev blockno v Hidle Hscan)
    as (s1 & b & h & Hb & Hh & Hget & Hv1 & _ & Hframe & _ & _ & Hdisk).
  pose proof (bget_extends_trace s pid dev blockno) as (evs & Htr).
  rewrite Hget in Htr. simpl in Htr.
  assert (Hv1' : deref s1 (PBuf v) = Some (Buf.mk 0 dev blockno (Some pid) 1 (ticks s)
                          (PTable (bucket_of blockno)) (PTable (bucket_of blockno))
                          (Buf.data b))) by exact Hv1.
  eexists _, b. split; [done|]. split.
  { unfold bread. rewrite bind_unfold, Hget. cbv beta iota.
    unfold bread_fill, virtio_disk_rw.
    repeat (mstep; rewrite ?deref_log, ?deref_update_eq, ?Hv1';
            simpl fmap; cbv beta iota).
    reflexivity. }
  split.
  { change (buf ?x !! v) with (deref x (PBuf v)).
    rewrite deref_update_eq, deref_log, deref_update_eq, Hv1'. simpl.
    by rewrite Hdisk. }
  split.
  { exists evs. autorewrite with trace. by rewrite Htr, <- app_assoc. }
  intros j Hj. change (buf ?x !! j) with (deref x (PBuf j)).
  rewrite deref_update_ne, deref_log, deref_update_ne by congruence.
  by apply Hframe.
Qed.

(** Block 5 read and released, then read again: buffer 2 still holds it,
    valid, and is read from the device all the same. *)
Lemma bread_at_rest_reads_the_device_witness :
  let s := final ((b <~ bread 1 1 5 ;; brelse 1 b) (boot 3 blank)) in
  exists s' b,
    buf s !! 2 = Some b /\
    bread 1 1 5 s = Ret (PBuf 2) s' /\
    buf s' !! 2 = Some (Buf.mk 1 1 5 (Some 1%Z) 1 (ticks s)
                          (PTable (bucket_of 5)) (PTable (bucket_of 5))
                          (disk s 1 5)) /\
    (exists evs, trace s' = trace s ++ evs ++ [DiskRW (PBuf 2) false]) /\
    (forall j, j ≠ 2 -> buf s' !! j = buf s !! j).
Proof.
  intros s. apply (bread_at_rest_reads_the_device s 1 1 5 2).
  - split.
    + intros k Hk.
      do 13 (destruct k as [|k]; [vm_compute; eauto|]). vm_compute in Hk. lia.
    + intros i b. do 3 (destruct i as [|i]; [vm_compute; by intros [= <-]|]).
      vm_compute. done.
  - vm_compute. reflexivity.
Defined.

(** ** Pins *)

Lemma wrap32_undo r : (0 <= r < 2 ^ 32)%Z -> wrap32 (wrap32 (r + 1) - 1) = r.
Proof.
  intros Hr. unfold wrap32. rewrite Zminus_mod_idemp_l.
  replace (r + 1 - 1)%Z with r by lia. by apply Z.mod_small.
Qed.

(** X8. [bunpin] undoes [bpin]: pinning a buffer and unpinning it leaves
    every buffer and every bucket head exactly as it was, for every
    [refcnt] a [uint] can hold (also across the wrap at 2^32 - 1). *)
Theorem bunpin_undoes_bpin s pid i bf :
  buf s !! i = Some bf -> (0 <= Buf.refcnt bf < 2 ^ 32)%Z ->
  exists s1 s2,
    bpin pid (PBuf i) s = Ret tt s1 /\
    bunpin pid (PBuf i) s1 = Ret tt s2 /\
    buf s2 = buf s /\ table s2 = table s /\
    ticks s2 = ticks s /\ disk s2 = disk s.
Proof.
  intros Hi Hr.
  assert (Hd : deref s (PBuf i) = Some bf) by done.
  eexists _, _. split; [|split].
  - unfold bpin. rewrite bind_load, Hd. cbv zeta.
    rewrite bind_acquire, bind_store, deref_log, Hd, release_unfold. reflexivity.
  - unfold bunpin. rewrite bind_load, deref_log, deref_update_eq, deref_log, Hd.
    simpl fmap. cbv beta iota zeta.
    rewrite bind_acquire, bind_store, !deref_log, deref_update_eq, deref_log, Hd.
    simpl fmap. cbv beta iota. rewrite release_unfold. reflexivity.
  - split; [|done]. simpl. rewrite list_alter_alter_eq.
    apply list_eq. intros j. destruct (decide (i = j)) as [<-|Hne].
    + rewrite list_lookup_alter_eq, Hi. simpl. f_equal.
      destruct bf. unfold Buf.set_refcnt. simpl in *. f_equal. by apply wrap32_undo.
    + by rewrite list_lookup_alter_ne.
Qed.

(** A held buffer, pinned and unpinned. *)
Lemma bunpin_undoes_bpin_witness :
  let s := final (bget 1 1 5 (boot 3 blank)) in
  exists s1 s2,
    bpin 1 (PBuf 2) s = Ret tt s1 /\
    bunpin 1 (PBuf 2) s1 = Ret tt s2 /\
    buf s2 = buf s /\ table s2 = table s /\
    ticks s2 = ticks s /\ disk s2 = disk s.
Proof.
  intros s.
  apply (bunpin_undoes_bpin s 1 2 (Buf.mk 0 1 5 (Some 1%Z) 1 0 (PTable 5) (PTable 5) [])).
  - vm_compute. reflexivity.
  - simpl. lia.
Defined.

(** ** Releasing *)

(** Bucket membership reads links only. *)
Lemma members_from_links fuel s s' head : forall b,
  (forall p, Buf.next <$> deref s' p = Buf.next <$> deref s p) ->
  members_from fuel s' head b = members_from fuel s head b.
Proof.
  induction fuel as [|fuel IH]; intros b Hn; simpl; [done|].
  destruct (ptr_eqb b head); [done|]. specialize (Hn b) as Hb.
  destruct (deref s' b) as [bf'|], (deref s b) as [bf|]; simpl in Hb; try done.
  inversion Hb as [Hnext]. rewrite Hnext. by rewrite IH.
Qed.

(** X9. [brelse] by a holder that is not the last one ([refcnt > 1])
    frees the sleep lock and drops one reference, and nothing else: the
    links are untouched, so every bucket has the members it had. *)
Theorem brelse_keeps_shared_buffer_linked s pid i bf :
  buf s !! i = Some bf -> Buf.lock bf = Some pid ->
  (1 < Buf.refcnt bf < 2 ^ 32)%Z ->
  exists s',
    brelse pid (PBuf i) s = Ret tt s' /\
    buf s' = <[i := Buf.set_refcnt (Buf.refcnt bf - 1) (Buf.set_lock None bf)]> (buf s) /\
    table s' = table s /\
    forall k, members s' k = members s k.
Proof.
  intros Hi Hlock Hr.
  assert (Hd : deref s (PBuf i) = Some bf) by done.
  assert (Hw : wrap32 (Buf.refcnt bf - 1) = (Buf.refcnt bf - 1)%Z).
  { unfold wrap32. apply Z.mod_small. lia. }
  assert (Hnz : Z.eqb (Buf.refcnt bf - 1) 0 = false) by (apply Z.eqb_neq; lia).
  eexists. split.
  { unfold brelse, holdingsleep, releasesleep. cbv zeta.
    go ltac:(rewrite ?Hd, ?Hlock, ?Hw, ?Hnz,
               ?(bool_decide_eq_true_2 (Some pid = Some pid) eq_refl)).
    reflexivity. }
  assert (Hbuf : forall A (g : Buf.t -> A) (l : list Buf.t) f1 f2,
    l !! i = Some bf ->
    alter f2 i (alter f1 i l) = <[i := f2 (f1 bf)]> l).
  { intros A g l f1 f2 Hl. rewrite list_alter_alter_eq. apply list_eq. intros j.
    destruct (decide (i = j)) as [<-|Hne].
    - rewrite list_lookup_alter_eq, Hl, list_lookup_insert_eq; [done|].
      by apply lookup_lt_Some in Hl.
    - by rewrite list_lookup_alter_ne, list_lookup_insert_ne. }
  split.
  { simpl. rewrite (Hbuf unit (fun _ => tt)) by done. simpl. by rewrite Hw. }
  split; [done|].
  intros k. unfold members. simpl table.
  destruct (table s !! k) as [h|]; [|done].
  match goal with
  | |- context [walk_fuel ?x] =>
      replace (walk_fuel x) with (walk_fuel s)
        by (unfold walk_fuel; simpl; by rewrite !length_alter)
  end.
  cbn [mbind option_bind]. apply members_from_links.
  intros p. rewrite !deref_log.
  destruct (decide (p = PBuf i)) as [->|Hne].
  - rewrite deref_update_eq, !deref_log, deref_update_eq, Hd. done.
  - rewrite !deref_update_ne, ?deref_log by congruence.
    by rewrite !deref_update_ne by congruence.
Qed.

(** A buffer held and pinned, then released. *)
Lemma brelse_keeps_shared_buffer_linked_witness :
  let s := final ((b <~ bget 1 1 5 ;; bpin 1 b) (boot 3 blank)) in
  let bf := Buf.mk 0 1 5 (Some 1%Z) 2 0 (PTable 5) (PTable 5) [] in
  exists s',
    brelse 1 (PBuf 2) s = Ret tt s' /\
    buf s' = <[2 := Buf.set_refcnt (Buf.refcnt bf - 1) (Buf.set_lock None bf)]> (buf s) /\
    table s' = table s /\
    forall k, members s' k = members s k.
Proof.
  intros s bf. apply (brelse_keeps_shared_buffer_linked s 1 2 bf).
  - vm_compute. reflexivity.
  - reflexivity.
  - simpl. lia.
Defined.

(** ** Initialisation *)



(** ** What the other operations leave alone *)

Lemma brelse_keeps pid b s :
  match brelse pid b s with
  | Ret _ s' | Panic _ s' | Fault s' | Sleeping _ s' | Spin s' => keeps None s s'
  end.
Proof.
  unfold brelse, holdingsleep, releasesleep. cbv zeta.
  mcases; auto 20 with frame.
Qed.

Lemma bpin_keeps pid b s :
  match bpin pid b s with
  | Ret _ s' | Panic _ s' | Fault s' | Sleeping _ s' | Spin s' => keeps None s s'
  end.
Proof. unfold bpin. cbv zeta. mcases; auto 20 with frame. Qed.

Lemma bunpin_keeps pid b s :
  match bunpin pid b s with
  | Ret _ s' | Panic _ s' | Fault s' | Sleeping _ s' | Spin s' => keeps None s s'
  end.
Proof. unfold bunpin. cbv zeta. mcases; auto 20 with frame. Qed.

(** X11. [brelse], [bpin] and [bunpin], whatever their outcome, change
    bookkeeping only: every buffer keeps its label, its [valid] flag and
    its data, and the pool, the bucket array, the device and the tick
    counter stay as they are.  [bwrite] changes no buffer and no bucket
    head at all. *)
Theorem only_bget_relabels s pid b i bf :
  buf s !! i = Some bf ->
  (forall s', s' = final (brelse pid b s) \/ s' = final (bpin pid b s) \/
              s' = final (bunpin pid b s) ->
     length (buf s') = length (buf s) /\ length (table s') = length (table s) /\
     disk s' = disk s /\ ticks s' = ticks s /\
     exists bf', buf s' !! i = Some bf' /\ same_block bf bf') /\
  buf (final (bwrite pid b s)) = buf s /\
  table (final (bwrite pid b s)) = table s.
Proof.
  intros Hi. split.
  - intros s' Hs'.
    assert (Hk : keeps None s s').
    { destruct Hs' as [->|[->| ->]].
      - pose proof (brelse_keeps pid b s). by destruct (brelse pid b s).
      - pose proof (bpin_keeps pid b s). by destruct (bpin pid b s).
      - pose proof (bunpin_keeps pid b s). by destruct (bunpin pid b s). }
    destruct Hk as (Hk & Hsizes). repeat (split; [apply Hsizes|]).
    destruct (Hk (PBuf i) bf Hi) as (bf' & Hi' & Hsame).
    exists bf'. split; [done|]. by apply Hsame.
  - unfold bwrite, holdingsleep, virtio_disk_rw.
    rewrite bind_assoc, bind_load. destruct (deref s b) as [bf0|] eqn:Hb; [|done].
    rewrite bind_ret. destruct (bool_decide (Buf.lock bf0 = Some pid)); [|done].
    cbn [negb]. cbv iota. rewrite bind_load, Hb. by rewrite bind_modify, emit_unfold.
Qed.

(** Buffer 2 held by process 1. *)
Lemma only_bget_relabels_witness :
  let s := final (bget 1 1 5 (boot 3 blank)) in
  let bf := Buf.mk 0 1 5 (Some 1%Z) 1 0 (PTable 5) (PTable 5) [] in
  (forall s', s' = final (brelse 1 (PBuf 2) s) \/ s' = final (bpin 1 (PBuf 2) s) \/
              s' = final (bunpin 1 (PBuf 2) s) ->
     length (buf s') = length (buf s) /\ length (table s') = length (table s) /\
     disk s' = disk s /\ ticks s' = ticks s /\
     exists bf', buf s' !! 2 = Some bf' /\ same_block bf bf') /\
  buf (final (bwrite 1 (PBuf 2) s)) = buf s /\
  table (final (bwrite 1 (PBuf 2) s)) = table s.
Proof.
  intros s bf. apply (only_bget_relabels s 1 (PBuf 2) 2 bf).
  vm_compute. reflexivity.
Defined.

(** ** An acquire/release pair *)

Lemma members_empty s k h :
  table s !! k = Some h -> Buf.next h = PTable k -> members s k = Some [].
Proof.
  intros Hh Hn. unfold members. rewrite Hh. cbn [mbind option_bind].
  unfold walk_fuel. cbn [members_from]. by rewrite Hn, ptr_eqb_refl.
Qed.

Lemma members_single s k h v bf :
  table s !! k = Some h -> Buf.next h = PBuf v ->
  buf s !! v = Some bf -> Buf.next bf = PTable k ->
  members s k = Some [PBuf v].
Proof.
  intros Hh Hn Hv Hnv. unfold members. rewrite Hh. cbn [mbind option_bind].
  unfold walk_fuel. apply lookup_lt_Some in Hh as Hlt.
  destruct (length (table s)) as [|n]; [lia|].
  cbn [Nat.add members_from]. rewrite Hn. unfold ptr_eqb at 1.
  rewrite bool_decide_eq_false_2 by done. cbn [deref]. rewrite Hv, Hnv.
  by rewrite ptr_eqb_refl.
Qed.

(** X13. On a cache at rest, [bget] makes the scan's victim the one
    member of the target bucket, and the [brelse] that follows empties
    the bucket again: the cache is back at rest, and only the victim
    buffer has changed. *)
Theorem bget_brelse_returns_to_rest s pid dev blockno v :
  idle s ->
  bget_scan (buf s) 0 (ticks s) None = Some v ->
  exists s1 s2,
    bget pid dev blockno s = Ret (PBuf v) s1 /\
    members s1 (bucket_of blockno) = Some [PBuf v] /\
    brelse pid (PBuf v) s1 = Ret tt s2 /\
    idle s2 /\
    members s2 (bucket_of blockno) = Some [] /\
    (forall j, j ≠ v -> buf s2 !! j = buf s !! j).
Proof.
  intros Hidle Hscan.
  destruct (bget_idle s pid dev blockno v Hidle Hscan)
    as (s1 & b & h & Hb & Hh & Hget & Hv1 & Hk1 & Hbuf1 & Htab1 & _).
  set (k := bucket_of blockno) in *.
  destruct (brelse_last s1 pid v k _ _ Hv1 Hk1 eq_refl eq_refl eq_refl eq_refl)
    as (s2 & Hrel & Hv2 & Hk2 & Hframe & _).
  destruct (use_block_idle s pid (ticks s) dev blockno v Hidle Hscan)
    as (s2' & b' & _ & Huse & Hidle2 & _ & Hframe2).
  assert (s2' = s2) as ->.
  { unfold use_block in Huse. rewrite bind_modify in Huse.
    replace (set_ticks (ticks s) s) with s in Huse by by destruct s.
    rewrite bind_unfold, Hget in Huse. cbv beta iota in Huse.
    rewrite bind_unfold, Hrel in Huse. by inversion Huse. }
  exists s1, s2. split; [done|]. split.
  { by eapply members_single. }
  split; [done|]. split; [done|]. split; [|done].
  by eapply members_empty.
Qed.

(** A fresh pool. *)
Lemma bget_brelse_returns_to_rest_witness :
  let s := boot 3 blank in
  exists s1 s2,
    bget 1 1 5 s = Ret (PBuf 2) s1 /\
    members s1 (bucket_of 5) = Some [PBuf 2] /\
    brelse 1 (PBuf 2) s1 = Ret tt s2 /\
    idle s2 /\
    members s2 (bucket_of 5) = Some [] /\
    (forall j, j ≠ 2 -> buf s2 !! j = buf s !! j).
Proof.
  intros s. apply (bget_brelse_returns_to_rest s 1 1 5 2).
  - split.
    + intros k Hk.
      do 13 (destruct k as [|k]; [vm_compute; eauto|]). vm_compute in Hk. lia.
    + intros i b. do 3 (destruct i as [|i]; [vm_compute; by intros [= <-]|]).
      vm_compute. done.
  - vm_compute. reflexivity.
Defined.

(** * bio.c without [LAB_LOCK_2] *)

(** ** Links after an update *)

Ltac mem :=
  repeat match goal with
         | H : NoDup (_ :: _) |- _ => apply NoDup_cons in H as [? ?]
         | H : NoDup (_ ++ _) |- _ => apply NoDup_app in H as (? & ? & ?)
         | H : _ ∈ _ :: _ |- _ => apply elem_of_cons in H
         | H : _ ∈ _ ++ _ |- _ => apply elem_of_app in H
         | H : _ ∈ [] |- _ => by apply elem_of_nil in H
         | H : _ ∉ _ :: _ |- _ => apply not_elem_of_cons in H
         | H : _ ∉ _ ++ _ |- _ => apply not_elem_of_app in H
         | H : _ /\ _ |- _ => destruct H
         | H : _ \/ _ |- _ => destruct H
         | H : (forall x, x ∈ ?l -> _), H' : ?y ∈ ?l |- _ => specialize (H y H')
         end;
  repeat first
    [ rewrite not_elem_of_cons | rewrite not_elem_of_app
    | rewrite elem_of_cons | rewrite elem_of_app | rewrite elem_of_nil ];
  subst; solve [tauto | congruence | intuition (subst; first [tauto | congruence])].

Lemma nxt_log e s p : Stock.nxt (log e s) p = Stock.nxt s p.
Proof. unfold Stock.nxt. by rewrite deref_log. Qed.

Lemma prv_log e s p : Stock.prv (log e s) p = Stock.prv s p.
Proof. unfold Stock.prv. by rewrite deref_log. Qed.

Lemma nxt_update_ne p q f s : p ≠ q -> Stock.nxt (update p f s) q = Stock.nxt s q.
Proof. intros. unfold Stock.nxt. by rewrite deref_update_ne. Qed.

Lemma prv_update_ne p q f s : p ≠ q -> Stock.prv (update p f s) q = Stock.prv s q.
Proof. intros. unfold Stock.prv. by rewrite deref_update_ne. Qed.

Lemma nxt_update_same p q f s :
  (forall b, Buf.next (f b) = Buf.next b) ->
  Stock.nxt (update p f s) q = Stock.nxt s q.
Proof.
  intros Hf. destruct (decide (p = q)) as [->|Hne]; [|by apply nxt_update_ne].
  unfold Stock.nxt. rewrite deref_update_eq. destruct (deref s q); simpl; [|done].
  by rewrite Hf.
Qed.

Lemma prv_update_same p q f s :
  (forall b, Buf.prev (f b) = Buf.prev b) ->
  Stock.prv (update p f s) q = Stock.prv s q.
Proof.
  intros Hf. destruct (decide (p = q)) as [->|Hne]; [|by apply prv_update_ne].
  unfold Stock.prv. rewrite deref_update_eq. destruct (deref s q); simpl; [|done].
  by rewrite Hf.
Qed.

Lemma nxt_update_set p x s :
  is_Some (deref s p) -> Stock.nxt (update p (Buf.set_next x) s) p = Some x.
Proof. intros [b Hb]. unfold Stock.nxt. by rewrite deref_update_eq, Hb. Qed.

Lemma prv_update_set p x s :
  is_Some (deref s p) -> Stock.prv (update p (Buf.set_prev x) s) p = Some x.
Proof. intros [b Hb]. unfold Stock.prv. by rewrite deref_update_eq, Hb. Qed.

Lemma nxt_is_Some s p q : Stock.nxt s p = Some q -> is_Some (deref s p).
Proof. unfold Stock.nxt. destruct (deref s p); [eauto|done]. Qed.

Lemma prv_is_Some s p q : Stock.prv s p = Some q -> is_Some (deref s p).
Proof. unfold Stock.prv. destruct (deref s p); [eauto|done]. Qed.

Lemma deref_update_is_Some p f s q :
  is_Some (deref (update p f s) q) <-> is_Some (deref s q).
Proof.
  destruct (decide (p = q)) as [->|Hne].
  - rewrite deref_update_eq. by rewrite fmap_is_Some.
  - by rewrite deref_update_ne.
Qed.

(** ** Chains *)

Lemma chain_frame s s' : forall l p q,
  (forall n, n ∈ p :: l -> Stock.nxt s' n = Stock.nxt s n) ->
  (forall n, n ∈ l ++ [q] -> Stock.prv s' n = Stock.prv s n) ->
  Stock.chain s p l q -> Stock.chain s' p l q.
Proof.
  induction l as [|x l IH]; intros p q Hn Hp; cbn [Stock.chain]; unfold Stock.link.
  - intros [H1 H2]. rewrite Hn, Hp by mem. done.
  - intros [[H1 H2] H3]. rewrite Hn, Hp by mem. split; [done|].
    apply IH; [| |done]; intros n Hin; [apply Hn|apply Hp]; mem.
Qed.

Lemma chain_app s : forall l1 p x l2 q,
  Stock.chain s p (l1 ++ x :: l2) q <-> Stock.chain s p l1 x /\ Stock.chain s x l2 q.
Proof.
  induction l1 as [|y l1 IH]; intros p x l2 q; cbn [app Stock.chain]; [done|].
  rewrite IH. tauto.
Qed.

Lemma chain_snoc s l p x q :
  Stock.chain s p (l ++ [x]) q <-> Stock.chain s p l x /\ Stock.link s x q.
Proof. by rewrite chain_app. Qed.

Lemma chain_nxt s l p q : Stock.chain s p l q -> Stock.nxt s p = Some (hd q l).
Proof. destruct l; cbn [Stock.chain hd]; unfold Stock.link; tauto. Qed.

Lemma chain_prv s l p q :
  Stock.chain s p l q -> Stock.prv s q = Some (default p (last l)).
Proof.
  destruct l as [|x l _] using rev_ind.
  - cbn. unfold Stock.link. tauto.
  - rewrite chain_snoc, last_snoc. unfold Stock.link. cbn. tauto.
Qed.

Lemma chain_deref s : forall l p q n,
  Stock.chain s p l q -> n ∈ p :: l ++ [q] -> is_Some (deref s n).
Proof.
  induction l as [|x l IH]; intros p q n; cbn [Stock.chain app].
  - intros [H1 H2] Hin. apply elem_of_cons in Hin as [->|Hin];
      [by eapply nxt_is_Some|].
    apply list_elem_of_singleton in Hin as ->. by eapply prv_is_Some.
  - intros [[H1 H2] H3] Hin. apply elem_of_cons in Hin as [->|Hin];
      [by eapply nxt_is_Some|]. by apply (IH x q).
Qed.

Lemma deref_nodes s p : is_Some (deref s p) -> p ∈ nodes s.
Proof.
  intros [bf Hd]. unfold nodes. apply elem_of_app.
  destruct p as [|i|i]; simpl in Hd; [done| |].
  - left. apply list_elem_of_fmap. exists i. split; [done|].
    apply elem_of_seq. apply lookup_lt_Some in Hd. lia.
  - right. apply list_elem_of_fmap. exists i. split; [done|].
    apply elem_of_seq. apply lookup_lt_Some in Hd. lia.
Qed.

(** A list has fewer nodes than the walks have fuel. *)
Lemma listed_length s l : Stock.listed s l -> length l < walk_fuel s.
Proof.
  intros [Hnd Hc]. unfold walk_fuel. rewrite <- length_nodes.
  assert (Hsub : Stock.head :: l ⊆+ nodes s).
  { apply NoDup_submseteq; [done|]. intros n Hn. apply deref_nodes.
    apply (chain_deref s l Stock.head Stock.head); [done|]. mem. }
  apply submseteq_length in Hsub. simpl in Hsub. lia.
Qed.

(** ** The loops of [bget] on a list *)

Lemma walk_next_chain test s : forall l p fuel,
  Stock.chain s p l Stock.head -> Stock.head ∉ l -> length l < fuel ->
  Stock.walk test Buf.next fuel s (hd Stock.head l) =
  match Stock.pick test s l with Some b => WHit b | None => WMiss end.
Proof.
  induction l as [|x l IH]; intros p fuel Hc Hh Hf;
    (destruct fuel as [|fuel]; [simpl in Hf; lia|]); cbn [Stock.walk Stock.pick hd].
  - unfold ptr_eqb. by rewrite bool_decide_eq_true_2.
  - unfold ptr_eqb. rewrite bool_decide_eq_false_2 by mem.
    destruct Hc as [[_ Hp] Hc]. pose proof (chain_nxt _ _ _ _ Hc) as Hn.
    unfold Stock.nxt in Hn. destruct (deref s x) as [bx|]; [|done].
    destruct (test bx); [done|]. simpl in Hn. inversion Hn as [Hn'].
    rewrite Hn'. apply (IH x); [done|mem|simpl in Hf; lia].
Qed.

Lemma walk_prev_chain test s : forall l q fuel,
  Stock.chain s Stock.head l q -> Stock.head ∉ l -> length l < fuel ->
  Stock.walk test Buf.prev fuel s (default Stock.head (last l)) =
  match Stock.pick test s (rev l) with Some b => WHit b | None => WMiss end.
Proof.
  induction l as [|x l IH] using rev_ind; intros q fuel Hc Hh Hf;
    (destruct fuel as [|fuel]; [simpl in Hf; lia|]).
  - cbn [last rev default Stock.walk Stock.pick]. unfold ptr_eqb.
    by rewrite bool_decide_eq_true_2.
  - rewrite last_snoc, rev_unit. change (default Stock.head (Some x)) with x.
    cbn [Stock.walk Stock.pick].
    unfold ptr_eqb. rewrite bool_decide_eq_false_2 by mem.
    apply chain_snoc in Hc as [Hc [Hn _]].
    pose proof (chain_prv _ _ _ _ Hc) as Hp.
    unfold Stock.prv in Hp. destruct (deref s x) as [bx|]; [|done].
    destruct (test bx); [done|]. simpl in Hp. inversion Hp as [Hp'].
    rewrite Hp'. apply (IH x); [done|mem|]. rewrite length_app in Hf. simpl in Hf. lia.
Qed.

(** ** Putting a node in front, taking a node out *)

Lemma listed_push s s' l b :
  Stock.listed s l -> b ∉ Stock.head :: l ->
  Stock.nxt s' Stock.head = Some b -> Stock.prv s' b = Some Stock.head ->
  Stock.nxt s' b = Some (hd Stock.head l) ->
  Stock.prv s' (hd Stock.head l) = Some b ->
  (forall n, n ≠ Stock.head -> n ≠ b -> Stock.nxt s' n = Stock.nxt s n) ->
  (forall n, n ≠ hd Stock.head l -> n ≠ b -> Stock.prv s' n = Stock.prv s n) ->
  Stock.listed s' (b :: l).
Proof.
  intros [Hnd Hc] Hb H1 H2 H3 H4 Hn Hp. split.
  { apply NoDup_cons in Hnd as [Hh Hnd]. apply NoDup_cons. split; [mem|].
    apply NoDup_cons. split; [mem|done]. }
  cbn [Stock.chain]. split; [done|].
  destruct l as [|x l]; cbn [hd Stock.chain] in *; [done|].
  destruct Hc as [_ Hc]. split; [done|].
  apply (chain_frame s); [| |done].
  - intros n Hin. apply Hn; intros ->; mem.
  - intros n Hin. apply Hp; intros ->; mem.
Qed.

Lemma chain_unlink s s' q b : forall l1 p l2,
  NoDup (p :: l1 ++ b :: l2) -> q ∉ l1 ++ b :: l2 ->
  Stock.chain s p (l1 ++ b :: l2) q ->
  Stock.nxt s' (default p (last l1)) = Some (hd q l2) ->
  Stock.prv s' (hd q l2) = Some (default p (last l1)) ->
  (forall n, n ≠ default p (last l1) -> n ≠ b -> Stock.nxt s' n = Stock.nxt s n) ->
  (forall n, n ≠ hd q l2 -> n ≠ b -> Stock.prv s' n = Stock.prv s n) ->
  Stock.chain s' p (l1 ++ l2) q.
Proof.
  induction l1 as [|x l1 IH]; intros p l2 Hnd Hq Hc H1 H2 Hn Hp.
  - cbn [app last default] in *. destruct Hc as [_ Hc].
    destruct l2 as [|y l2]; cbn [hd Stock.chain] in *; [done|].
    destruct Hc as [_ Hc]. split; [done|].
    apply (chain_frame s); [| |done].
    + intros n Hin. apply Hn; intros ->; mem.
    + intros n Hin. apply Hp; intros ->; mem.
  - cbn [app Stock.chain] in *. destruct Hc as [[Hc1 Hc2] Hc].
    assert (Hlast : default p (last (x :: l1)) = default x (last l1)).
    { destruct l1 as [|z l1 _] using rev_ind; [done|].
      by rewrite app_comm_cons, !last_snoc. }
    rewrite Hlast in *.
    assert (Hin : default x (last l1) ∈ x :: l1).
    { destruct l1 as [|z l1 _] using rev_ind; [left|].
      rewrite last_snoc. cbn. mem. }
    assert (Hin2 : hd q l2 = q \/ hd q l2 ∈ l2).
    { destruct l2; [by left|right; left]. }
    split.
    + split.
      * rewrite Hn; [done| |]; intros E; rewrite <- E in *; mem.
      * rewrite Hp; [done| |]; intros E; [rewrite E in *|rewrite <- E in *];
          destruct Hin2 as [E2|E2]; try rewrite E2 in *; mem.
    + apply IH; try done.
      * by apply NoDup_cons in Hnd as [_ ?].
      * intros Hin'. apply Hq. by right.
Qed.

Lemma listed_unlink s s' l1 b l2 :
  Stock.listed s (l1 ++ b :: l2) ->
  Stock.nxt s' (default Stock.head (last l1)) = Some (hd Stock.head l2) ->
  Stock.prv s' (hd Stock.head l2) = Some (default Stock.head (last l1)) ->
  (forall n, n ≠ default Stock.head (last l1) -> n ≠ b ->
             Stock.nxt s' n = Stock.nxt s n) ->
  (forall n, n ≠ hd Stock.head l2 -> n ≠ b -> Stock.prv s' n = Stock.prv s n) ->
  Stock.listed s' (l1 ++ l2).
Proof.
  intros [Hnd Hc] H1 H2 Hn Hp. split.
  - apply NoDup_cons in Hnd as [Hh Hnd]. apply NoDup_app in Hnd as (Hd1 & Hd12 & Hd2).
    apply NoDup_cons in Hd2 as [Hb Hd2]. apply NoDup_cons. split; [mem|].
    apply NoDup_app. split; [done|]. split; [|done]. intros n Hn1 Hn2.
    apply (Hd12 n Hn1). by right.
  - apply (chain_unlink s s' Stock.head b l1 Stock.head l2); try done.
    apply NoDup_cons in Hnd as [Hh Hnd]. done.
Qed.

(** The neighbours of a node of the list. *)
Lemma listed_around s l1 b l2 :
  Stock.listed s (l1 ++ b :: l2) ->
  Stock.prv s b = Some (default Stock.head (last l1)) /\
  Stock.nxt s b = Some (hd Stock.head l2).
Proof.
  intros [_ Hc]. apply chain_app in Hc as [Hc1 Hc2]. split.
  - by eapply chain_prv.
  - by eapply chain_nxt.
Qed.

(** Push [nxt] and [prv] through logs and updates. *)
Ltac somes :=
  repeat first [rewrite deref_log | rewrite deref_update_is_Some];
  first [eassumption | eapply mk_is_Some; eassumption | eauto].

Ltac links :=
  repeat first
    [ rewrite nxt_log | rewrite prv_log
    | rewrite nxt_update_same by (intros []; reflexivity)
    | rewrite prv_update_same by (intros []; reflexivity)
    | rewrite nxt_update_ne by congruence
    | rewrite prv_update_ne by congruence
    | rewrite nxt_update_set by somes
    | rewrite prv_update_set by somes ].

Lemma listed_head s l :
  Stock.listed s l ->
  exists h, deref s Stock.head = Some h /\ Buf.next h = hd Stock.head l /\
            Buf.prev h = default Stock.head (last l).
Proof.
  intros [_ Hc]. pose proof (chain_nxt _ _ _ _ Hc) as Hn.
  pose proof (chain_prv _ _ _ _ Hc) as Hp. unfold Stock.nxt, Stock.prv in *.
  destruct (deref s Stock.head) as [h|]; [|done]. exists h.
  simpl in *. split; [done|]. split; congruence.
Qed.

Lemma listed_deref s l n : Stock.listed s l -> n ∈ l -> is_Some (deref s n).
Proof.
  intros [_ Hc] Hn. apply (chain_deref s l Stock.head Stock.head); [done|]. mem.
Qed.

Lemma hd_in {A} (d : A) l : hd d l = d \/ hd d l ∈ l.
Proof. destruct l; [by left|right; left]. Qed.

Lemma last_in {A} (d : A) l : default d (last l) = d \/ default d (last l) ∈ l.
Proof.
  destruct l as [|x l _] using rev_ind; [by left|right].
  rewrite last_snoc. cbn. mem.
Qed.

Lemma store_there p f s :
  is_Some (deref s p) -> store p f s = Ret tt (update p f s).
Proof. intros [b Hb]. by rewrite store_unfold, Hb. Qed.

(** ** [binit] *)

Lemma binit_link_listed s l b :
  Stock.listed s l -> b ∉ Stock.head :: l -> is_Some (deref s b) ->
  exists s', Stock.binit_link b s = Ret tt s' /\ Stock.listed s' (b :: l) /\
    has (fun bf => Buf.lock bf = None) b s' /\
    (forall q, is_Some (deref s' q) <-> is_Some (deref s q)) /\
    (forall Q p, link_blind Q -> has Q p s -> has Q p s') /\
    length (buf s') = length (buf s).
Proof.
  intros Hl Hb [bb Hbb].
  destruct (listed_head _ _ Hl) as (h & Hh & Hnext & _).
  assert (Hbh : b ≠ Stock.head) by mem.
  assert (Hbf : b ≠ Buf.next h).
  { rewrite Hnext. destruct (hd_in Stock.head l) as [->| Hin]; [done|].
    intros ->. mem. }
  assert (Hf : is_Some (deref s (Buf.next h))).
  { rewrite Hnext. destruct (hd_in Stock.head l) as [->| Hin]; [by rewrite Hh|].
    by eapply listed_deref. }
  destruct Hf as [fb Hfb].
  eexists. split.
  { unfold Stock.binit_link. go ltac:(rewrite ?Hh, ?Hbb, ?Hfb).
    rewrite store_there by somes. reflexivity. }
  split.
  { apply (listed_push s); try done; rewrite <- ?Hnext; links; try done.
    - intros n H1 H2. by links.
    - intros n H1 H2. by links. }
  split.
  { exists (Buf.set_lock None (Buf.set_prev Stock.head (Buf.set_next (Buf.next h) bb))).
    split; [|done]. dsimp. by rewrite Hbb. }
  split.
  { intros q. by rewrite !deref_update_is_Some. }
  split.
  { intros Q p (Hn & Hp & Hk) HQ. auto 10 with frame. }
  destruct b as [|i|i], (Buf.next h) as [|j|j]; simpl; by rewrite ?length_alter.
Qed.

Lemma link_blind_lock : link_blind (fun bf => Buf.lock bf = None).
Proof. repeat split; intros; intros []; done. Qed.

Lemma binit_loop_listed : forall bs s l,
  Stock.listed s l -> NoDup bs ->
  (forall b, b ∈ bs -> (b ∉ Stock.head :: l) /\ is_Some (deref s b)) ->
  exists s', Stock.binit_loop bs s = Ret tt s' /\ Stock.listed s' (rev bs ++ l) /\
    (forall b, b ∈ bs -> has (fun bf => Buf.lock bf = None) b s') /\
    (forall q, is_Some (deref s' q) <-> is_Some (deref s q)) /\
    (forall Q p, link_blind Q -> has Q p s -> has Q p s') /\
    length (buf s') = length (buf s).
Proof.
  induction bs as [|b bs IH]; intros s l Hl Hnd Hbs; cbn [Stock.binit_loop].
  - exists s. rewrite ret_unfold. split; [done|]. split; [done|].
    split; [intros b Hb; by apply elem_of_nil in Hb|]. done.
  - apply NoDup_cons in Hnd as [Hb Hnd].
    destruct (Hbs b) as [Hbl Hbd]; [left|].
    destruct (binit_link_listed s l b Hl Hbl Hbd)
      as (s1 & Hrun & Hl1 & Hlock & Hsome & Hblind & Hlen).
    destruct (IH s1 (b :: l) Hl1 Hnd) as (s' & Hrun' & Hl' & Hlock' & Hsome' & Hblind' & Hlen').
    { intros b' Hb'. destruct (Hbs b') as [Hn Hd]; [by right|]. split.
      - intros Hin. apply elem_of_cons in Hin as [Hin|Hin]; [|apply elem_of_cons in Hin as [->|Hin]].
        + apply Hn. rewrite Hin. left.
        + done.
        + apply Hn. by right.
      - by apply Hsome. }
    exists s'. split; [by rewrite bind_unfold, Hrun|].
    split; [by cbn [rev]; rewrite <- app_assoc|].
    split.
    { intros b' Hb'. apply elem_of_cons in Hb' as [->|Hb']; [|by apply Hlock'].
      apply Hblind'; [apply link_blind_lock|done]. }
    split; [intros q; by rewrite Hsome', Hsome|].
    split; [|congruence]. intros Q p HQ Hp. by apply Hblind', Hblind.
Qed.

(** X20. [binit] without [LAB_LOCK_2]: whatever the storage held, it
    returns with the whole pool in the list, [buf[NBUF-1]] first and
    [buf[0]] last, so that the first buffer to be recycled is [buf[0]];
    every sleep lock is free, and no buffer has lost its label, its
    contents or its reference count. *)
Theorem stock_binit_lists_the_pool s h :
  table s !! 0 = Some h ->
  exists s',
    Stock.binit s = Ret tt s' /\
    Stock.listed s' (rev (PBuf <$> seq 0 (length (buf s)))) /\
    length (buf s') = length (buf s) /\
    forall i bf, buf s !! i = Some bf ->
      exists bf', buf s' !! i = Some bf' /\ Buf.lock bf' = None /\
                  Buf.refcnt bf' = Buf.refcnt bf /\ same_block bf bf'.
Proof.
  intros Hh.
  set (s0 := update Stock.head (Buf.set_next Stock.head)
               (update Stock.head (Buf.set_prev Stock.head) s)).
  assert (Hh' : deref s Stock.head = Some h) by done.
  assert (Hl0 : Stock.listed s0 []).
  { split; [apply NoDup_singleton|]. unfold s0. split; links; done. }
  assert (Hbuf0 : buf s0 = buf s) by done.
  destruct (binit_loop_listed (PBuf <$> seq 0 (length (buf s))) s0 [] Hl0)
    as (s' & Hrun & Hl' & Hlock & Hsome & Hblind & Hlen).
  { apply NoDup_fmap_2; [by intros ?? [=]|apply NoDup_seq]. }
  { intros b Hb. apply list_elem_of_fmap in Hb as (i & -> & Hi).
    apply elem_of_seq in Hi. split.
    - intros Hin. apply list_elem_of_singleton in Hin. done.
    - change (is_Some (buf s !! i)). apply lookup_lt_is_Some. lia. }
  exists s'. split.
  { unfold Stock.binit. go ltac:(rewrite ?Hh'). by fold s0. }
  rewrite app_nil_r in Hl'. split; [done|]. split; [congruence|].
  intros i bf Hi.
  assert (Hin : PBuf i ∈ PBuf <$> seq 0 (length (buf s))).
  { apply list_elem_of_fmap. exists i. split; [done|]. apply elem_of_seq.
    apply lookup_lt_Some in Hi. lia. }
  destruct (Hlock _ Hin) as (bf1 & Hd1 & Hlk).
  destruct (Hblind (fun b => Buf.refcnt b = Buf.refcnt bf /\ same_block bf b) (PBuf i))
    as (bf2 & Hd2 & Hr & Hs).
  { split; [|split]; [intros x|intros x|]; intros [] [? ?];
      (split; [done|]); unfold same_block in *; cbn in *; done. }
  { exists bf. split; [exact Hi|]. split; [done|apply same_block_refl]. }
  rewrite Hd1 in Hd2. inversion Hd2; subst bf2. by exists bf1.
Qed.

(** A pool of three on zero-filled storage. *)
Lemma stock_binit_lists_the_pool_witness :
  exists s',
    Stock.binit (Stock.zero_state 3 blank) = Ret tt s' /\
    Stock.listed s' (rev (PBuf <$> seq 0 (length (buf (Stock.zero_state 3 blank))))) /\
    length (buf s') = length (buf (Stock.zero_state 3 blank)) /\
    forall i bf, buf (Stock.zero_state 3 blank) !! i = Some bf ->
      exists bf', buf s' !! i = Some bf' /\ Buf.lock bf' = None /\
                  Buf.refcnt bf' = Buf.refcnt bf /\ same_block bf bf'.
Proof. apply (stock_binit_lists_the_pool (Stock.zero_state 3 blank) Buf.zero). reflexivity. Defined.

(** ** [bget] on the list *)

Lemma listed_same_links s s' l :
  (forall n, Stock.nxt s' n = Stock.nxt s n) ->
  (forall n, Stock.prv s' n = Stock.prv s n) ->
  Stock.listed s l -> Stock.listed s' l.
Proof.
  intros Hn Hp [Hnd Hc]. split; [done|]. apply (chain_frame s); auto.
Qed.

Lemma listed_log e s l : Stock.listed s l -> Stock.listed (log e s) l.
Proof. apply listed_same_links; intros n; by links. Qed.

Lemma pick_ext test s s' l :
  (forall p, deref s' p = deref s p) -> Stock.pick test s' l = Stock.pick test s l.
Proof.
  intros Hd. induction l as [|p l IH]; cbn [Stock.pick]; [done|].
  by rewrite Hd, IH.
Qed.

Lemma pick_Some test s l b :
  Stock.pick test s l = Some b ->
  exists l1 l2 bf, l = l1 ++ b :: l2 /\ deref s b = Some bf /\ test bf = true /\
    forall x bx, x ∈ l1 -> deref s x = Some bx -> test bx = false.
Proof.
  induction l as [|p l IH]; cbn [Stock.pick]; [done|].
  destruct (deref s p) as [bp|] eqn:Hp.
  - destruct (test bp) eqn:Ht.
    + intros [= <-]. exists [], l, bp. repeat split; try done.
      intros x bx Hx. by apply elem_of_nil in Hx.
    + intros H. destruct (IH H) as (l1 & l2 & bf & -> & Hb & Hbt & Hl1).
      exists (p :: l1), l2, bf. repeat split; try done.
      intros x bx Hx Hdx. apply elem_of_cons in Hx as [->|Hx]; [congruence|eauto].
  - intros H. destruct (IH H) as (l1 & l2 & bf & -> & Hb & Hbt & Hl1).
    exists (p :: l1), l2, bf. repeat split; try done.
    intros x bx Hx Hdx. apply elem_of_cons in Hx as [->|Hx]; [congruence|eauto].
Qed.

Lemma pick_None test s l :
  Stock.pick test s l = None ->
  forall x bx, x ∈ l -> deref s x = Some bx -> test bx = false.
Proof.
  induction l as [|p l IH]; cbn [Stock.pick]; intros H x bx Hx Hdx.
  - by apply elem_of_nil in Hx.
  - apply elem_of_cons in Hx as [->|Hx].
    + rewrite Hdx in H. by destruct (test bx).
    + destruct (deref s p) as [bp|]; [destruct (test bp); [done|]|]; eauto.
Qed.

Lemma pick_first test s l1 b l2 bf :
  deref s b = Some bf -> test bf = true ->
  (forall x bx, x ∈ l1 -> deref s x = Some bx -> test bx = false) ->
  Stock.pick test s (l1 ++ b :: l2) = Some b.
Proof.
  intros Hb Ht. induction l1 as [|p l1 IH]; intros Hl1; cbn [app Stock.pick].
  - by rewrite Hb, Ht.
  - destruct (deref s p) as [bp|] eqn:Hp.
    + rewrite (Hl1 p bp) by (done || left). apply IH. intros x bx Hx. apply Hl1. by right.
    + apply IH. intros x bx Hx. apply Hl1. by right.
Qed.

(** [bget] on a cache whose list is [l]: the two loops find the first
    buffer of [l] that caches the block and, failing that, the last
    buffer of [l] that nobody uses. *)
Lemma stock_bget_on_list pid dev blockno s l :
  Stock.listed s l ->
  Stock.bget pid dev blockno s =
  match Stock.pick (Stock.cached dev blockno) s l with
  | Some b =>
      (acquiresleep pid b ;;; ret b)
        (log (Release pid BcacheLock)
           (update b (fun bf => Buf.set_refcnt (wrap32 (Buf.refcnt bf + 1)) bf)
              (log (Acquire pid BcacheLock) s)))
  | None =>
      match Stock.pick Stock.unused s (rev l) with
      | Some b =>
          (acquiresleep pid b ;;; ret b)
            (log (Release pid BcacheLock)
               (update b (Stock.recycle dev blockno)
                  (log (Acquire pid BcacheLock) s)))
      | None => Panic "bget: no buffers" (log (Acquire pid BcacheLock) s)
      end
  end.
Proof.
  intros Hl. destruct (listed_head _ _ Hl) as (h & Hh & Hnext & Hprev).
  pose proof (listed_length _ _ Hl) as Hlen.
  set (s1 := log (Acquire pid BcacheLock) s).
  assert (Hl1 : Stock.listed s1 l) by by apply listed_log.
  assert (Hhl : Stock.head ∉ l).
  { destruct Hl as [Hnd _]. by apply NoDup_cons in Hnd as [? _]. }
  assert (Hd1 : forall p, deref s1 p = deref s p) by (intros; apply deref_log).
  unfold Stock.bget. rewrite bind_acquire. fold s1.
  rewrite bind_load, Hd1, Hh, bind_unfold. unfold Stock.search at 1.
  change (walk_fuel s1) with (walk_fuel s).
  rewrite Hnext, (walk_next_chain _ s1 l Stock.head) by (done || apply Hl1).
  rewrite (pick_ext _ s s1) by done.
  destruct (Stock.pick (Stock.cached dev blockno) s l) as [b|] eqn:Hhit.
  - destruct (pick_Some _ _ _ _ Hhit) as (l1 & l2 & bf & _ & Hb & _).
    by rewrite bind_store, Hd1, Hb, bind_release.
  - rewrite bind_load, Hd1, Hh, bind_unfold. unfold Stock.search.
    change (walk_fuel s1) with (walk_fuel s).
    rewrite Hprev, (walk_prev_chain _ s1 l Stock.head) by (done || apply Hl1).
    rewrite (pick_ext _ s s1) by done.
    destruct (Stock.pick Stock.unused s (rev l)) as [b|] eqn:Hfree; [|done].
    destruct (pick_Some _ _ _ _ Hfree) as (l1 & l2 & bf & _ & Hb & _).
    by rewrite bind_store, Hd1, Hb, bind_release.
Qed.

Lemma acquiresleep_then_ret pid b s bf :
  deref s b = Some bf ->
  (acquiresleep pid b ;;; ret b) s =
  match Buf.lock bf with
  | None => Ret b (log (AcquireSleep pid b) (update b (Buf.set_lock (Some pid)) s))
  | Some _ => Sleeping b s
  end.
Proof.
  intros Hb. unfold acquiresleep. rewrite bind_assoc, bind_load, Hb.
  destruct (Buf.lock bf); [done|].
  by rewrite bind_assoc, bind_store, Hb, bind_emit, ret_unfold.
Qed.

Lemma pick_all_false test s l :
  (forall x bx, x ∈ l -> deref s x = Some bx -> test bx = false) ->
  Stock.pick test s l = None.
Proof.
  intros Hall. destruct (Stock.pick test s l) as [b|] eqn:Hp; [|done].
  destruct (pick_Some _ _ _ _ Hp) as (l1 & l2 & bf & -> & Hb & Ht & _).
  rewrite (Hall b bf) in Ht; [done| |done]. apply elem_of_app. right. left.
Qed.

Lemma cached_true dev blockno bf :
  Stock.cached dev blockno bf = true <-> labelled dev blockno bf.
Proof. unfold Stock.cached, labelled. rewrite andb_true_iff, !Z.eqb_eq. tauto. Qed.

Lemma cached_false dev blockno bf :
  Stock.cached dev blockno bf = false <-> ¬ labelled dev blockno bf.
Proof. rewrite <- cached_true. by destruct (Stock.cached dev blockno bf). Qed.

Lemma unused_false bf : Stock.unused bf = false <-> Buf.refcnt bf ≠ 0%Z.
Proof. unfold Stock.unused. apply Z.eqb_neq. Qed.

(** The ways [bget] changes a buffer leave the links alone. *)
Lemma listed_update_steady s l p f :
  (forall b, Buf.next (f b) = Buf.next b) -> (forall b, Buf.prev (f b) = Buf.prev b) ->
  Stock.listed s l -> Stock.listed (update p f s) l.
Proof.
  intros Hn Hp. apply listed_same_links; intros n.
  - by apply nxt_update_same.
  - by apply prv_update_same.
Qed.

(** X21. [bget] without [LAB_LOCK_2], the block being cached: when a
    buffer of the list carries the label asked for, [bget] settles on the
    first such buffer [b] of the list and recycles nothing; it counts
    the caller as a reference of [b] under [bcache.lock], and then
    returns [b] locked, or goes to sleep on [b] when someone holds its
    sleep lock.  Every other node is as it was and the list is the same. *)
Theorem stock_bget_finds_cached_block pid dev blockno s l x bx :
  Stock.listed s l ->
  x ∈ l -> deref s x = Some bx -> labelled dev blockno bx ->
  exists l1 b l2 bf,
    l = l1 ++ b :: l2 /\ deref s b = Some bf /\ labelled dev blockno bf /\
    (forall y b_y, y ∈ l1 -> deref s y = Some b_y -> ¬ labelled dev blockno b_y) /\
    let s1 := log (Release pid BcacheLock)
                (update b (fun bf => Buf.set_refcnt (wrap32 (Buf.refcnt bf + 1)) bf)
                   (log (Acquire pid BcacheLock) s)) in
    Stock.bget pid dev blockno s =
      match Buf.lock bf with
      | None => Ret b (log (AcquireSleep pid b) (update b (Buf.set_lock (Some pid)) s1))
      | Some _ => Sleeping b s1
      end /\
    (forall p, p ≠ b -> deref (final (Stock.bget pid dev blockno s)) p = deref s p) /\
    Stock.listed (final (Stock.bget pid dev blockno s)) l.
Proof.
  intros Hl Hx Hbx Hlab.
  destruct (Stock.pick (Stock.cached dev blockno) s l) as [b|] eqn:Hhit.
  2:{ pose proof (pick_None _ _ _ Hhit x bx Hx Hbx) as Hf.
      by apply cached_false in Hf. }
  destruct (pick_Some _ _ _ _ Hhit) as (l1 & l2 & bf & El & Hb & Ht & Hl1).
  exists l1, b, l2, bf. split; [done|]. split; [done|].
  split; [by apply cached_true|].
  split; [intros y b_y Hy Hdy; apply cached_false; eauto|].
  cbv zeta.
  assert (Hrun : Stock.bget pid dev blockno s =
    match Buf.lock bf with
    | None => Ret b (log (AcquireSleep pid b) (update b (Buf.set_lock (Some pid))
               (log (Release pid BcacheLock)
                (update b (fun bf => Buf.set_refcnt (wrap32 (Buf.refcnt bf + 1)) bf)
                   (log (Acquire pid BcacheLock) s)))))
    | Some _ => Sleeping b (log (Release pid BcacheLock)
                (update b (fun bf => Buf.set_refcnt (wrap32 (Buf.refcnt bf + 1)) bf)
                   (log (Acquire pid BcacheLock) s)))
    end).
  { rewrite (stock_bget_on_list _ _ _ _ _ Hl), Hhit.
    erewrite acquiresleep_then_ret; [|by dsimp; rewrite Hb]. done. }
  split; [done|]. rewrite Hrun. split.
  - intros p Hp. destruct (Buf.lock bf); cbn [final]; dsimp; done.
  - destruct (Buf.lock bf); cbn [final];
      repeat first [apply listed_log | apply listed_update_steady; [by intros []|by intros []|]];
      done.
Qed.

(** A pool of two, block 7 read and released, then asked for again. *)
Lemma stock_bget_finds_cached_block_witness :
  let s := final ((Stock.binit ;;; b <~ Stock.bread 1 1 7 ;; Stock.brelse 1 b)
                    (Stock.zero_state 2 blank)) in
  exists l1 b l2 bf,
    [PBuf 0; PBuf 1] = l1 ++ b :: l2 /\ deref s b = Some bf /\ labelled 1 7 bf /\
    (forall y b_y, y ∈ l1 -> deref s y = Some b_y -> ¬ labelled 1 7 b_y) /\
    let s1 := log (Release 2 BcacheLock)
                (update b (fun bf => Buf.set_refcnt (wrap32 (Buf.refcnt bf + 1)) bf)
                   (log (Acquire 2 BcacheLock) s)) in
    Stock.bget 2 1 7 s =
      match Buf.lock bf with
      | None => Ret b (log (AcquireSleep 2 b) (update b (Buf.set_lock (Some 2%Z)) s1))
      | Some _ => Sleeping b s1
      end /\
    (forall p, p ≠ b -> deref (final (Stock.bget 2 1 7 s)) p = deref s p) /\
    Stock.listed (final (Stock.bget 2 1 7 s)) [PBuf 0; PBuf 1].
Proof.
  intros s.
  apply (stock_bget_finds_cached_block 2 1 7 s [PBuf 0; PBuf 1] (PBuf 0)
           (Buf.mk 1 1 7 None 0 0 (PTable 0) (PBuf 1) [])).
  - split; [apply (bool_decide_unpack _); vm_compute; exact I|].
    vm_compute. repeat split.
  - left.
  - vm_compute. reflexivity.
  - done.
Defined.

Lemma elem_of_rev {A} (x : A) l : x ∈ rev l <-> x ∈ l.
Proof.
  induction l as [|y l IH]; cbn [rev]; [done|].
  rewrite elem_of_app, IH, !elem_of_cons, elem_of_nil. tauto.
Qed.

(** X22. [bget] without [LAB_LOCK_2], the block not being cached: the
    buffer recycled is the unused buffer nearest to the tail of the list
    (every buffer after it is in use), that is the least recently used
    one.  It gets the new label, [valid = 0] and one reference under
    [bcache.lock]; then [bget] returns it locked, or goes to sleep on it
    when its sleep lock is held.  Every other node is as it was and the
    list is the same. *)
Theorem stock_bget_recycles_least_recently_used pid dev blockno s l1 b l2 bf :
  Stock.listed s (l1 ++ b :: l2) ->
  (forall x bx, x ∈ l1 ++ b :: l2 -> deref s x = Some bx -> ¬ labelled dev blockno bx) ->
  deref s b = Some bf -> Buf.refcnt bf = 0%Z ->
  (forall x bx, x ∈ l2 -> deref s x = Some bx -> Buf.refcnt bx ≠ 0%Z) ->
  let s1 := log (Release pid BcacheLock)
              (update b (Stock.recycle dev blockno) (log (Acquire pid BcacheLock) s)) in
  Stock.bget pid dev blockno s =
    match Buf.lock bf with
    | None => Ret b (log (AcquireSleep pid b) (update b (Buf.set_lock (Some pid)) s1))
    | Some _ => Sleeping b s1
    end /\
  deref s1 b = Some (Buf.mk 0 dev blockno (Buf.lock bf) 1 (Buf.timestamp bf)
                       (Buf.prev bf) (Buf.next bf) (Buf.data bf)) /\
  (forall p, p ≠ b -> deref (final (Stock.bget pid dev blockno s)) p = deref s p) /\
  Stock.listed (final (Stock.bget pid dev blockno s)) (l1 ++ b :: l2).
Proof.
  intros Hl Hmiss Hb Hfree Hbusy s1.
  assert (Hb1 : deref s1 b = Some (Stock.recycle dev blockno bf)).
  { unfold s1. dsimp. by rewrite Hb. }
  assert (Hrun : Stock.bget pid dev blockno s =
    match Buf.lock bf with
    | None => Ret b (log (AcquireSleep pid b) (update b (Buf.set_lock (Some pid)) s1))
    | Some _ => Sleeping b s1
    end).
  { rewrite (stock_bget_on_list _ _ _ _ _ Hl).
    rewrite pick_all_false by (intros x bx Hx Hdx; apply cached_false; eauto).
    rewrite rev_app_distr. cbn [rev]. rewrite <- app_assoc. cbn [app].
    rewrite (pick_first _ _ _ _ _ bf Hb).
    - fold s1. by rewrite (acquiresleep_then_ret _ _ _ _ Hb1).
    - unfold Stock.unused. by apply Z.eqb_eq.
    - intros x bx Hx Hdx. apply unused_false. rewrite elem_of_rev in Hx. eauto. }
  split; [done|]. split; [done|]. rewrite Hrun. unfold s1. split.
  - intros p Hp. destruct (Buf.lock bf); cbn [final]; dsimp; done.
  - destruct (Buf.lock bf); cbn [final];
      repeat first [apply listed_log | apply listed_update_steady; [by intros []|by intros []|]];
      done.
Qed.

(** A fresh pool of three: the first block goes to [buf[0]], the tail. *)
Lemma stock_bget_recycles_least_recently_used_witness :
  let s := final (Stock.binit (Stock.zero_state 3 blank)) in
  let bf := Buf.mk 0 0 0 None 0 0 (PBuf 1) (PTable 0) [] in
  let s1 := log (Release 1 BcacheLock)
              (update (PBuf 0) (Stock.recycle 1 7) (log (Acquire 1 BcacheLock) s)) in
  Stock.bget 1 1 7 s =
    match Buf.lock bf with
    | None => Ret (PBuf 0) (log (AcquireSleep 1 (PBuf 0))
                              (update (PBuf 0) (Buf.set_lock (Some 1%Z)) s1))
    | Some _ => Sleeping (PBuf 0) s1
    end /\
  deref s1 (PBuf 0) = Some (Buf.mk 0 1 7 (Buf.lock bf) 1 (Buf.timestamp bf)
                       (Buf.prev bf) (Buf.next bf) (Buf.data bf)) /\
  (forall p, p ≠ PBuf 0 -> deref (final (Stock.bget 1 1 7 s)) p = deref s p) /\
  Stock.listed (final (Stock.bget 1 1 7 s)) ([PBuf 2; PBuf 1] ++ PBuf 0 :: []).
Proof.
  intros s bf.
  apply (stock_bget_recycles_least_recently_used 1 1 7 s [PBuf 2; PBuf 1] (PBuf 0) [] bf).
  - split; [apply (bool_decide_unpack _); vm_compute; exact I|].
    vm_compute. repeat split.
  - intros x bx Hx Hdx [Hdev _].
    repeat (apply elem_of_cons in Hx as [->|Hx];
            [vm_compute in Hdx; inversion Hdx; subst bx; discriminate Hdev|]).
    by apply elem_of_nil in Hx.
  - vm_compute. reflexivity.
  - reflexivity.
  - intros x bx Hx. by apply elem_of_nil in Hx.
Defined.

(** X23. [bget] without [LAB_LOCK_2] panics with "bget: no buffers"
    exactly when the block is not cached and every buffer of the list is
    in use; it panics with [bcache.lock] still held, and no buffer has
    been touched. *)
Theorem stock_bget_panics_when_all_in_use pid dev blockno s l :
  Stock.listed s l ->
  (forall x bx, x ∈ l -> deref s x = Some bx -> ¬ labelled dev blockno bx) ->
  ((forall x bx, x ∈ l -> deref s x = Some bx -> Buf.refcnt bx ≠ 0%Z) <->
   Stock.bget pid dev blockno s =
     Panic "bget: no buffers" (log (Acquire pid BcacheLock) s)) /\
  ((exists msg s', Stock.bget pid dev blockno s = Panic msg s') ->
   Stock.bget pid dev blockno s =
     Panic "bget: no buffers" (log (Acquire pid BcacheLock) s)) /\
  locks_held pid (trace (log (Acquire pid BcacheLock) s)) =
    BcacheLock :: locks_held pid (trace s).
Proof.
  intros Hl Hmiss. rewrite (stock_bget_on_list _ _ _ _ _ Hl).
  rewrite pick_all_false by (intros x bx Hx Hdx; apply cached_false; eauto).
  assert (Hcases : match Stock.pick Stock.unused s (rev l) with
                   | Some b => exists bf, b ∈ l /\ deref s b = Some bf /\ Buf.refcnt bf = 0%Z
                   | None => forall x bx, x ∈ l -> deref s x = Some bx -> Buf.refcnt bx ≠ 0%Z
                   end).
  { destruct (Stock.pick Stock.unused s (rev l)) as [b|] eqn:Hp.
    - destruct (pick_Some _ _ _ _ Hp) as (k1 & k2 & bf & Ek & Hb & Ht & _).
      exists bf. split; [|split; [done|by apply Z.eqb_eq]].
      apply elem_of_rev. rewrite Ek. apply elem_of_app. right. left.
    - intros x bx Hx Hdx. apply unused_false.
      apply (pick_None _ _ _ Hp x bx); [by apply elem_of_rev|done]. }
  assert (Hnp : forall b st bf', deref st b = Some bf' ->
            forall msg s', (acquiresleep pid b ;;; ret b) st ≠ Panic msg s').
  { intros b st bf' Hd msg s'. rewrite (acquiresleep_then_ret _ _ _ _ Hd).
    by destruct (Buf.lock bf'). }
  split; [|split].
  - destruct (Stock.pick Stock.unused s (rev l)) as [b|]; [|done].
    destruct Hcases as (bf & Hin & Hb & Hr). split.
    + intros Hall. by destruct (Hall b bf Hin Hb).
    + intros Hp. exfalso. eapply Hnp; [|exact Hp]. dsimp. by rewrite Hb.
  - destruct (Stock.pick Stock.unused s (rev l)) as [b|]; [|done].
    destruct Hcases as (bf & Hin & Hb & Hr).
    intros (msg & s' & Hp). exfalso. eapply Hnp; [|exact Hp]. dsimp. by rewrite Hb.
  - rewrite trace_log, locks_held_app. cbn. unfold lock_step.
    by rewrite bool_decide_eq_true_2.
Qed.

(** One buffer in use, another block asked for. *)
Lemma stock_bget_panics_when_all_in_use_witness :
  let s := final ((Stock.binit ;;; Stock.bget 1 1 7) (Stock.zero_state 1 blank)) in
  ((forall x bx, x ∈ [PBuf 0] -> deref s x = Some bx -> Buf.refcnt bx ≠ 0%Z) <->
   Stock.bget 2 1 8 s = Panic "bget: no buffers" (log (Acquire 2 BcacheLock) s)) /\
  ((exists msg s', Stock.bget 2 1 8 s = Panic msg s') ->
   Stock.bget 2 1 8 s = Panic "bget: no buffers" (log (Acquire 2 BcacheLock) s)) /\
  locks_held 2 (trace (log (Acquire 2 BcacheLock) s)) =
    BcacheLock :: locks_held 2 (trace s).
Proof.
  intros s. apply (stock_bget_panics_when_all_in_use 2 1 8 s [PBuf 0]).
  - split; [apply (bool_decide_unpack _); vm_compute; exact I|].
    vm_compute. repeat split.
  - intros x bx Hx Hdx [_ Hno].
    apply list_elem_of_singleton in Hx as ->.
    vm_compute in Hdx. inversion Hdx; subst bx. discriminate Hno.
Defined.

(** ** [brelse] *)

Lemma nodup_mid {A} (h b : A) l1 l2 :
  NoDup (h :: l1 ++ b :: l2) -> b ∉ h :: l1 ++ l2.
Proof.
  intros Hnd Hin. apply NoDup_cons in Hnd as [Hh Hnd].
  apply NoDup_app in Hnd as (H1 & H12 & H2). apply NoDup_cons in H2 as [Hb2 _].
  apply elem_of_cons in Hin as [->|Hin].
  - apply Hh. apply elem_of_app. right. left.
  - apply elem_of_app in Hin as [Hin|Hin]; [|done]. apply (H12 b Hin). left.
Qed.

Lemma bind_store_there {B} p f (k : unit -> M B) s :
  is_Some (deref s p) -> bind (store p f) k s = k tt (update p f s).
Proof. intros [b Hb]. by rewrite bind_store, Hb. Qed.

Lemma has_update_ne (Q : Buf.t -> Prop) p q f s :
  q ≠ p -> has Q p s -> has Q p (update q f s).
Proof. intros Hne (bf & Hp & HQ). exists bf. by rewrite deref_update_ne. Qed.

(** [brelse] by the last holder of a buffer of the list. *)
Lemma stock_brelse_last pid b s l1 l2 bf :
  Stock.listed s (l1 ++ b :: l2) ->
  deref s b = Some bf -> Buf.lock bf = Some pid ->
  wrap32 (Buf.refcnt bf - 1) = 0%Z ->
  exists s',
    Stock.brelse pid b s = Ret tt s' /\
    Stock.listed s' (b :: l1 ++ l2) /\
    deref s' b = Some (Buf.set_prev Stock.head
                         (Buf.set_next (hd Stock.head (l1 ++ l2))
                            (Buf.set_refcnt 0 (Buf.set_lock None bf)))) /\
    (forall (Q : Buf.t -> Prop) p, p ≠ b ->
       (forall x, stable Q (Buf.set_next x)) -> (forall x, stable Q (Buf.set_prev x)) ->
       has Q p s -> has Q p s') /\
    trace s' = trace s ++ [ReleaseSleep pid b; Acquire pid BcacheLock;
                           Release pid BcacheLock].
Proof.
  intros Hl Hb Hlock Hcnt.
  destruct (listed_around _ _ _ _ Hl) as [Hprv Hnxt].
  assert (Hnd : NoDup (Stock.head :: l1 ++ b :: l2)) by apply Hl.
  assert (Hbh : b ≠ Stock.head) by (intros ->; mem).
  assert (Hbp : b ≠ default Stock.head (last l1)).
  { destruct (last_in Stock.head l1) as [->|Hin]; [done|].
    intros E. rewrite <- E in Hin. mem. }
  assert (Hbn : b ≠ hd Stock.head l2).
  { destruct (hd_in Stock.head l2) as [->|Hin]; [done|].
    intros E. rewrite <- E in Hin. mem. }
  assert (Hhd : is_Some (deref s Stock.head)).
  { destruct (listed_head _ _ Hl) as (h & Hh & _). by rewrite Hh. }
  assert (Hpd : is_Some (deref s (default Stock.head (last l1)))).
  { destruct (last_in Stock.head l1) as [->|Hin]; [done|].
    apply (listed_deref _ _ _ Hl). mem. }
  assert (Hnbd : is_Some (deref s (hd Stock.head l2))).
  { destruct (hd_in Stock.head l2) as [->|Hin]; [done|].
    apply (listed_deref _ _ _ Hl). mem. }
  assert (Hbl : b ∉ Stock.head :: l1 ++ l2) by by apply nodup_mid.
  assert (Hbf : b ≠ hd Stock.head (l1 ++ l2)).
  { destruct (hd_in Stock.head (l1 ++ l2)) as [->|Hin]; [done|].
    intros E. rewrite <- E in Hin. mem. }
  remember (default Stock.head (last l1)) as pb eqn:Epb.
  remember (hd Stock.head l2) as nb eqn:Enb.
  remember (hd Stock.head (l1 ++ l2)) as f eqn:Ef.
  assert (Hpb : Buf.prev bf = pb).
  { unfold Stock.prv in Hprv. rewrite Hb in Hprv. by inversion Hprv. }
  assert (Hnb : Buf.next bf = nb).
  { unfold Stock.nxt in Hnxt. rewrite Hb in Hnxt. by inversion Hnxt. }
  set (s_c := update b (fun bf => Buf.set_refcnt (wrap32 (Buf.refcnt bf - 1)) bf)
                (log (Acquire pid BcacheLock)
                   (log (ReleaseSleep pid b) (update b (Buf.set_lock None) s)))).
  set (s_e := update pb (Buf.set_next nb) (update nb (Buf.set_prev pb) s_c)).
  assert (Hbc : deref s_c b = Some (Buf.set_refcnt 0 (Buf.set_lock None bf))).
  { unfold s_c. dsimp. rewrite Hb. simpl. by rewrite Hcnt. }
  assert (Hle : Stock.listed s_e (l1 ++ l2)).
  { apply (listed_unlink s s_e l1 b l2 Hl); rewrite <- ?Epb, <- ?Enb; unfold s_e, s_c.
    - by links.
    - by links.
    - intros n H1 H2. by links.
    - intros n H1 H2. by links. }
  destruct (listed_head _ _ Hle) as (h_e & Hhe & Hnext_e & _).
  rewrite <- Ef in Hnext_e.
  assert (Hfd : is_Some (deref s_e f)).
  { rewrite Ef. destruct (hd_in Stock.head (l1 ++ l2)) as [->|Hin]; [by rewrite Hhe|].
    by apply (listed_deref _ _ _ Hle). }
  assert (Hbe : deref s_e b = Some (Buf.set_refcnt 0 (Buf.set_lock None bf))).
  { unfold s_e. by dsimp. }
  eexists. split.
  { unfold Stock.brelse. rewrite bind_unfold, holdingsleep_unfold, Hb. cbv beta iota.
    rewrite Hlock, bool_decide_eq_true_2 by done. cbn [negb].
    unfold releasesleep. rewrite ?bind_assoc, bind_store_there by somes.
    rewrite bind_emit, bind_acquire, bind_store_there by somes. fold s_c.
    rewrite ?bind_assoc, bind_load, Hbc. cbv beta iota. cbn [Buf.refcnt Buf.set_refcnt].
    change (Z.eqb 0 0) with true. cbv iota.
    cbn [Buf.next Buf.prev Buf.set_refcnt Buf.set_lock]. rewrite Hpb, Hnb.
    rewrite ?bind_assoc, bind_store_there by (unfold s_c; somes).
    rewrite ?bind_assoc, bind_load. dsimp. rewrite Hbc. cbv beta iota.
    cbn [Buf.next Buf.prev Buf.set_refcnt Buf.set_lock]. rewrite Hpb, Hnb.
    rewrite ?bind_assoc, bind_store_there by (unfold s_c; somes). fold s_e.
    rewrite ?bind_assoc, bind_load, Hhe. cbv beta iota. rewrite Hnext_e.
    rewrite ?bind_assoc, bind_store_there by (rewrite Hbe; eauto).
    rewrite ?bind_assoc, bind_store_there by somes.
    rewrite ?bind_assoc, bind_load. dsimp. rewrite Hhe. cbv beta iota. rewrite Hnext_e.
    rewrite ?bind_assoc, bind_store_there by somes.
    rewrite ?bind_assoc, bind_store_there by somes.
    rewrite release_unfold. reflexivity. }
  split.
  { apply listed_log. apply (listed_push s_e); try done; rewrite <- ?Ef; links; try done.
    - intros n H1 H2. by links.
    - intros n H1 H2. by links. }
  split.
  { dsimp. rewrite Hbe. done. }
  split.
  { intros Q p Hp Hn Hpv HQ. unfold s_e, s_c.
    apply has_log. do 2 (apply has_update; [done|]).
    do 2 (apply has_update_ne; [done|]). do 2 (apply has_update; [done|]).
    apply has_update_ne; [done|]. do 2 apply has_log. by apply has_update_ne. }
  unfold s_e, s_c. autorewrite with trace. by rewrite <- !app_assoc.
Qed.

(** [brelse] by a holder that is not the last one. *)
Lemma stock_brelse_shared pid b s bf :
  deref s b = Some bf -> Buf.lock bf = Some pid ->
  wrap32 (Buf.refcnt bf - 1) ≠ 0%Z ->
  Stock.brelse pid b s =
  Ret tt (log (Release pid BcacheLock)
            (update b (fun bf => Buf.set_refcnt (wrap32 (Buf.refcnt bf - 1)) bf)
               (log (Acquire pid BcacheLock)
                  (log (ReleaseSleep pid b) (update b (Buf.set_lock None) s))))).
Proof.
  intros Hb Hlock Hcnt.
  unfold Stock.brelse. rewrite bind_unfold, holdingsleep_unfold, Hb. cbv beta iota.
  rewrite Hlock, bool_decide_eq_true_2 by done. cbn [negb].
  unfold releasesleep. rewrite ?bind_assoc, bind_store_there by somes.
  rewrite bind_emit, bind_acquire, bind_store_there by somes.
  rewrite ?bind_assoc, bind_load. dsimp. rewrite Hb. simpl fmap. cbv beta iota.
  cbn [Buf.refcnt Buf.set_refcnt Buf.set_lock].
  apply Z.eqb_neq in Hcnt. rewrite Hcnt. by rewrite bind_ret, release_unfold.
Qed.

(** X24. [brelse] without [LAB_LOCK_2] by the last holder of a buffer of
    the list: the sleep lock is freed, the reference count goes to 0 and
    the buffer is moved to the front of the list, the most recently used
    end; the other buffers keep their order, and no buffer loses its
    label or its contents. *)
Theorem stock_brelse_moves_to_front pid b s l1 l2 bf :
  Stock.listed s (l1 ++ b :: l2) ->
  deref s b = Some bf -> Buf.lock bf = Some pid -> Buf.refcnt bf = 1%Z ->
  exists s' bf',
    Stock.brelse pid b s = Ret tt s' /\
    Stock.listed s' (b :: l1 ++ l2) /\
    deref s' b = Some bf' /\ Buf.refcnt bf' = 0%Z /\ Buf.lock bf' = None /\
    same_block bf bf' /\
    forall p bp, p ≠ b -> deref s p = Some bp ->
      exists bp', deref s' p = Some bp' /\ same_block bp bp' /\
                  Buf.refcnt bp' = Buf.refcnt bp /\ Buf.lock bp' = Buf.lock bp.
Proof.
  intros Hl Hb Hlock Hcnt.
  destruct (stock_brelse_last pid b s l1 l2 bf Hl Hb Hlock)
    as (s' & Hrun & Hl' & Hb' & Hframe & _); [by rewrite Hcnt|].
  exists s'. eexists. split; [done|]. split; [done|]. split; [exact Hb'|].
  split; [done|]. split; [done|]. split; [by destruct bf|].
  intros p bp Hp Hdp.
  destruct (Hframe (fun x => same_block bp x /\ Buf.refcnt x = Buf.refcnt bp /\
                             Buf.lock x = Buf.lock bp) p Hp) as (bp' & Hdp' & HQ).
  - intros x [] (? & ? & ?). unfold same_block in *. cbn in *. done.
  - intros x [] (? & ? & ?). unfold same_block in *. cbn in *. done.
  - exists bp. split; [done|]. split; [apply same_block_refl|done].
  - by exists bp'.
Qed.

(** Two blocks in use in a pool of three; the second one is released. *)
Lemma stock_brelse_moves_to_front_witness :
  let s := final ((Stock.binit ;;; Stock.bget 1 1 7 ;;; Stock.bget 1 1 8)
                    (Stock.zero_state 3 blank)) in
  exists s' bf',
    Stock.brelse 1 (PBuf 1) s = Ret tt s' /\
    Stock.listed s' (PBuf 1 :: [PBuf 2] ++ [PBuf 0]) /\
    deref s' (PBuf 1) = Some bf' /\ Buf.refcnt bf' = 0%Z /\ Buf.lock bf' = None /\
    same_block (Buf.mk 0 1 8 (Some 1%Z) 1 0 (PBuf 2) (PBuf 0) []) bf' /\
    forall p bp, p ≠ PBuf 1 -> deref s p = Some bp ->
      exists bp', deref s' p = Some bp' /\ same_block bp bp' /\
                  Buf.refcnt bp' = Buf.refcnt bp /\ Buf.lock bp' = Buf.lock bp.
Proof.
  intros s.
  apply (stock_brelse_moves_to_front 1 (PBuf 1) s [PBuf 2] [PBuf 0]
           (Buf.mk 0 1 8 (Some 1%Z) 1 0 (PBuf 2) (PBuf 0) [])).
  - split; [apply (bool_decide_unpack _); vm_compute; exact I|].
    vm_compute. repeat split.
  - vm_compute. reflexivity.
  - reflexivity.
  - reflexivity.
Defined.

Lemma pick_app test s k1 k2 :
  Stock.pick test s (k1 ++ k2) =
  match Stock.pick test s k1 with
  | Some c => Some c
  | None => Stock.pick test s k2
  end.
Proof.
  induction k1 as [|p k1 IH]; cbn [app Stock.pick]; [done|].
  destruct (deref s p) as [bp|]; [destruct (test bp); [done|]|]; apply IH.
Qed.

(** X25. Least recently used, end to end: a buffer that has just been
    released by its last holder is not the next one to be recycled as
    long as another buffer is unused.  After [brelse(b)], a [bget] of a
    block that is not cached settles on an unused buffer other than [b]
    and leaves [b] with the block it had. *)
Theorem stock_released_buffer_is_recycled_last
    pid pid' dev blockno s l1 b l2 bf c bc :
  Stock.listed s (l1 ++ b :: l2) ->
  deref s b = Some bf -> Buf.lock bf = Some pid -> Buf.refcnt bf = 1%Z ->
  (forall x bx, x ∈ l1 ++ b :: l2 -> deref s x = Some bx ->
                ¬ labelled dev blockno bx) ->
  c ∈ l1 ++ l2 -> deref s c = Some bc -> Buf.refcnt bc = 0%Z ->
  exists s' v s'',
    Stock.brelse pid b s = Ret tt s' /\
    v ∈ l1 ++ l2 /\ v ≠ b /\
    (Stock.bget pid' dev blockno s' = Ret v s'' \/
     Stock.bget pid' dev blockno s' = Sleeping v s'') /\
    deref s'' b = deref s' b.
Proof.
  intros Hl Hb Hlock Hcnt Hmiss Hc Hdc Hfree.
  destruct (stock_brelse_last pid b s l1 l2 bf Hl Hb Hlock)
    as (s' & Hrun & Hl' & Hb' & Hframe & _); [by rewrite Hcnt|].
  assert (Hnd : NoDup (Stock.head :: l1 ++ b :: l2)) by apply Hl.
  pose proof (nodup_mid _ _ _ _ Hnd) as Hbl.
  assert (Hin : forall x, x ∈ l1 ++ l2 -> x ≠ b /\ x ∈ l1 ++ b :: l2).
  { intros x Hx. split; [intros ->; apply Hbl; by right|].
    apply elem_of_app in Hx as [Hx|Hx]; apply elem_of_app; [by left|right; by right]. }
  assert (Hcold : Stock.pick (Stock.cached dev blockno) s' (b :: l1 ++ l2) = None).
  { apply pick_all_false. intros x bx' Hx Hdx'. apply cached_false.
    apply elem_of_cons in Hx as [->|Hx].
    - rewrite Hb' in Hdx'. inversion Hdx'; subst bx'.
      intros [Hd Hn]. apply (Hmiss b bf); [|done|by split].
      apply elem_of_app. right. left.
    - destruct (Hin x Hx) as [Hxb Hxl].
      destruct (listed_deref _ _ _ Hl Hxl) as [bx Hdx].
      destruct (Hframe (fun y => ¬ labelled dev blockno y) x Hxb) as (bx2 & Hdx2 & HQ).
      + intros y [] HQ [? ?]. apply HQ. by split.
      + intros y [] HQ [? ?]. apply HQ. by split.
      + exists bx. split; [done|]. by apply (Hmiss x bx).
      + congruence. }
  assert (Hpick : exists v bv, Stock.pick Stock.unused s' (rev (l1 ++ l2)) = Some v /\
                               v ∈ l1 ++ l2 /\ deref s' v = Some bv).
  { destruct (Stock.pick Stock.unused s' (rev (l1 ++ l2))) as [v|] eqn:Hp.
    - destruct (pick_Some _ _ _ _ Hp) as (k1 & k2 & bv & Ek & Hv & _).
      exists v, bv. split; [done|]. split; [|done].
      apply elem_of_rev. rewrite Ek. apply elem_of_app. right. left.
    - exfalso. destruct (Hin c Hc) as [Hcb _].
      destruct (Hframe (fun y => Buf.refcnt y = 0%Z) c Hcb) as (bc' & Hdc' & HQ).
      + by intros y [].
      + by intros y [].
      + by exists bc.
      + pose proof (pick_None _ _ _ Hp c bc') as Hno.
        rewrite elem_of_rev in Hno. specialize (Hno Hc Hdc').
        apply unused_false in Hno. done. }
  destruct Hpick as (v & bv & Hp & Hv & Hdv).
  destruct (Hin v Hv) as [Hvb _].
  set (st := log (Release pid' BcacheLock)
               (update v (Stock.recycle dev blockno) (log (Acquire pid' BcacheLock) s'))).
  assert (Hget : Stock.bget pid' dev blockno s' = (acquiresleep pid' v ;;; ret v) st).
  { rewrite (stock_bget_on_list _ _ _ _ _ Hl'), Hcold. cbn [rev].
    by rewrite pick_app, Hp. }
  assert (Hst : deref st v = Some (Stock.recycle dev blockno bv)).
  { unfold st. dsimp. by rewrite Hdv. }
  rewrite (acquiresleep_then_ret _ _ _ _ Hst) in Hget.
  destruct (Buf.lock (Stock.recycle dev blockno bv)).
  - exists s', v, st. split; [done|]. split; [done|]. split; [done|].
    split; [by right|]. unfold st. by dsimp.
  - eexists s', v, _. split; [done|]. split; [done|]. split; [done|].
    split; [by left|]. unfold st. by dsimp.
Qed.

(** Buffer 1 is released while buffers 0 and 2 are unused and in use. *)
Lemma stock_released_buffer_is_recycled_last_witness :
  let s := final ((Stock.binit ;;; Stock.bget 1 1 7 ;;; Stock.bget 1 1 8)
                    (Stock.zero_state 3 blank)) in
  exists s' v s'',
    Stock.brelse 1 (PBuf 1) s = Ret tt s' /\
    v ∈ [PBuf 2] ++ [PBuf 0] /\ v ≠ PBuf 1 /\
    (Stock.bget 2 1 9 s' = Ret v s'' \/ Stock.bget 2 1 9 s' = Sleeping v s'') /\
    deref s'' (PBuf 1) = deref s' (PBuf 1).
Proof.
  intros s.
  apply (stock_released_buffer_is_recycled_last 1 2 1 9 s [PBuf 2] (PBuf 1) [PBuf 0]
           (Buf.mk 0 1 8 (Some 1%Z) 1 0 (PBuf 2) (PBuf 0) [])
           (PBuf 2) (Buf.mk 0 0 0 None 0 0 (PTable 0) (PBuf 1) [])).
  - split; [apply (bool_decide_unpack _); vm_compute; exact I|].
    vm_compute. repeat split.
  - vm_compute. reflexivity.
  - reflexivity.
  - reflexivity.
  - intros x bx Hx Hdx [_ Hno].
    repeat (apply elem_of_cons in Hx as [->|Hx];
            [vm_compute in Hdx; inversion Hdx; subst bx; discriminate Hno|]).
    by apply elem_of_nil in Hx.
  - left.
  - vm_compute. reflexivity.
  - reflexivity.
Defined.

Ltac keep_list :=
  repeat first
    [ apply listed_log
    | apply listed_update_steady; [by intros []|by intros []|] ];
  done.

(** ** The fuel of the loops *)

Section StockWalk.
Variables (test : Buf.t -> bool) (step : Buf.t -> ptr) (s : state).

Lemma stock_walk_spin_iter fuel : forall b,
  Stock.walk test step fuel s b = WSpin <->
  is_Some (Stock.walk_iter test step s fuel b).
Proof.
  induction fuel as [|fuel IH]; intros b; simpl; [by eauto|].
  unfold Stock.walk_on. destruct (ptr_eqb b Stock.head); simpl.
  { split; [done|]. by intros [? ?]. }
  destruct (deref s b) as [bf|]; simpl.
  2:{ split; [done|]. by intros [? ?]. }
  destruct (test bf); simpl.
  { split; [done|]. by intros [? ?]. }
  apply IH.
Qed.

Lemma stock_walk_iter_add a : forall m b,
  Stock.walk_iter test step s (a + m) b =
  b' ← Stock.walk_iter test step s a b; Stock.walk_iter test step s m b'.
Proof.
  induction a as [|a IH]; intros m b; simpl; [done|].
  destruct (Stock.walk_on test step s b) as [b'|]; simpl; [apply IH|done].
Qed.

Lemma stock_walk_iter_le a m b :
  is_Some (Stock.walk_iter test step s (a + m) b) ->
  is_Some (Stock.walk_iter test step s a b).
Proof.
  rewrite stock_walk_iter_add.
  destruct (Stock.walk_iter test step s a b); [eauto|]. by intros [? ?].
Qed.

Lemma stock_walk_on_node b b' : Stock.walk_on test step s b = Some b' -> b ∈ nodes s.
Proof.
  unfold Stock.walk_on. destruct (ptr_eqb b Stock.head); [done|].
  destruct (deref s b) as [bf|] eqn:Hd; [|done]. intros _.
  apply deref_nodes. by rewrite Hd.
Qed.
End StockWalk.

(** X27. Each of the two loops of [bget] without [LAB_LOCK_2] ends
    within as many turns as the cache has nodes, or never: a walk that
    is still going after that many turns is in a cycle that avoids the
    head and holds no buffer the loop looks for, and it goes on for
    ever, with [bcache.lock] held. *)
Theorem stock_walk_spins_for_ever test step s b :
  Stock.walk test step (walk_fuel s) s b = WSpin ->
  forall fuel, Stock.walk test step fuel s b = WSpin.
Proof.
  intros Hspin. apply stock_walk_spin_iter in Hspin.
  set (iter := Stock.walk_iter test step s) in *.
  set (N := length (table s) + length (buf s)).
  assert (Hle : forall k, k <= S N -> is_Some (iter k b)).
  { intros k Hk. apply (stock_walk_iter_le test step s k (S N - k)).
    replace (k + (S N - k)) with (S N) by lia. exact Hspin. }
  destruct (pigeonhole_lookup ((fun k => iter k b) <$> seq 0 (S N))
                              (Some <$> nodes s)) as (i & j & x & Hij & Hi & Hj).
  { intros x Hx. apply list_elem_of_fmap in Hx as (k & -> & Hk).
    apply elem_of_seq in Hk.
    destruct (Hle (S k) ltac:(lia)) as [b' Hb'].
    replace (S k) with (k + 1) in Hb' by lia.
    unfold iter in Hb'. rewrite stock_walk_iter_add in Hb'. fold iter in Hb'.
    destruct (iter k b) as [n|]; [|done]. unfold iter in Hb'. simpl in Hb'.
    destruct (Stock.walk_on test step s n) as [n'|] eqn:Hn; [|done].
    apply list_elem_of_fmap. exists n. split; [done|].
    by apply (stock_walk_on_node test step s n n'). }
  { rewrite !length_fmap, length_seq, length_nodes. lia. }
  rewrite list_lookup_fmap in Hi, Hj.
  destruct (seq 0 (S N) !! i) as [i'|] eqn:Ei; [|done].
  destruct (seq 0 (S N) !! j) as [j'|] eqn:Ej; [|done].
  apply lookup_seq in Ei as [-> _]. apply lookup_seq in Ej as [-> Hj'].
  simpl in Hi, Hj. inversion Hi as [Hi']. inversion Hj as [Hj''].
  assert (Heq : iter j b = iter i b) by congruence.
  intros fuel. apply stock_walk_spin_iter. fold iter.
  induction fuel as [fuel IH] using lt_wf_ind.
  destruct (decide (fuel <= S N)) as [|Hbig]; [by apply Hle|].
  replace fuel with (j + (fuel - j)) by lia.
  unfold iter. rewrite stock_walk_iter_add. fold iter. rewrite Heq.
  unfold iter. rewrite <- stock_walk_iter_add. fold iter.
  apply IH. lia.
Qed.

(** The search for an unused buffer in the knot. *)
Lemma stock_walk_spins_for_ever_witness :
  Stock.walk Stock.unused Buf.prev 1000 Stock.knot (PBuf 0) = WSpin.
Proof.
  apply (stock_walk_spins_for_ever Stock.unused Buf.prev Stock.knot (PBuf 0)).
  vm_compute. reflexivity.
Defined.

(** ** The list as an invariant *)

(** X26. The list is an invariant of the cache without [LAB_LOCK_2]:
    whatever their outcome, [bget], [bpin] and [bunpin] leave the list as
    it is, and [brelse] of a buffer of the list leaves a list of the same
    buffers (it may have moved the buffer to the front). *)
Theorem stock_list_is_kept pid dev blockno b s l :
  Stock.listed s l ->
  Stock.listed (final (Stock.bget pid dev blockno s)) l /\
  Stock.listed (final (Stock.bpin pid b s)) l /\
  Stock.listed (final (Stock.bunpin pid b s)) l /\
  (b ∈ l -> exists l', l' ≡ₚ l /\ Stock.listed (final (Stock.brelse pid b s)) l').
Proof.
  intros Hl. split; [|split; [|split]].
  - rewrite (stock_bget_on_list _ _ _ _ _ Hl).
    destruct (Stock.pick (Stock.cached dev blockno) s l) as [v|] eqn:Hhit.
    + destruct (pick_Some _ _ _ _ Hhit) as (k1 & k2 & bv & _ & Hv & _).
      erewrite acquiresleep_then_ret; [|by dsimp; rewrite Hv].
      match goal with |- context [match ?o with _ => _ end] => destruct o end;
        cbn [final]; keep_list.
    + destruct (Stock.pick Stock.unused s (rev l)) as [v|] eqn:Hfree.
      * destruct (pick_Some _ _ _ _ Hfree) as (k1 & k2 & bv & _ & Hv & _).
        erewrite acquiresleep_then_ret; [|by dsimp; rewrite Hv].
        match goal with |- context [match ?o with _ => _ end] => destruct o end;
          cbn [final]; keep_list.
      * cbn [final]. keep_list.
  - unfold Stock.bpin. rewrite bind_acquire, bind_store, deref_log.
    destruct (deref s b); [rewrite release_unfold|]; cbn [final]; keep_list.
  - unfold Stock.bunpin. rewrite bind_acquire, bind_store, deref_log.
    destruct (deref s b); [rewrite release_unfold|]; cbn [final]; keep_list.
  - intros Hb. destruct (listed_deref _ _ _ Hl Hb) as [bf Hdb].
    destruct (decide (Buf.lock bf = Some pid)) as [Hlock|Hlock].
    2:{ exists l. split; [done|]. unfold Stock.brelse.
        rewrite bind_unfold, holdingsleep_unfold, Hdb. cbv beta iota.
        by rewrite bool_decide_eq_false_2 by done. }
    destruct (decide (wrap32 (Buf.refcnt bf - 1) = 0%Z)) as [Hcnt|Hcnt].
    + apply list_elem_of_split in Hb as (l1 & l2 & ->).
      destruct (stock_brelse_last pid b s l1 l2 bf Hl Hdb Hlock Hcnt)
        as (s' & Hrun & Hl' & _).
      exists (b :: l1 ++ l2). split; [apply Permutation_middle|].
      by rewrite Hrun.
    + exists l. split; [done|].
      rewrite (stock_brelse_shared _ _ _ _ Hdb Hlock Hcnt). cbn [final]. keep_list.
Qed.

(** The pool of three with two blocks in use. *)
Lemma stock_list_is_kept_witness :
  let s := final ((Stock.binit ;;; Stock.bget 1 1 7 ;;; Stock.bget 1 1 8)
                    (Stock.zero_state 3 blank)) in
  let l := [PBuf 2; PBuf 1; PBuf 0] in
  Stock.listed (final (Stock.bget 1 1 9 s)) l /\
  Stock.listed (final (Stock.bpin 1 (PBuf 1) s)) l /\
  Stock.listed (final (Stock.bunpin 1 (PBuf 1) s)) l /\
  (PBuf 1 ∈ l -> exists l', l' ≡ₚ l /\ Stock.listed (final (Stock.brelse 1 (PBuf 1) s)) l').
Proof.
  intros s l. apply (stock_list_is_kept 1 1 9 (PBuf 1) s l).
  split; [apply (bool_decide_unpack _); vm_compute; exact I|].
  vm_compute. repeat split.
Defined.

(** * user/find.c *)

(** ** [pathFileName] *)

Lemma slash_not_zero : Ascii.zero ≠ slash.
Proof. done. Qed.

(** Scanning back from [i] stops right after the last slash before [i]. *)
Lemma pathFileName_loop_spec path : forall i, i <= length path ->
  let k := pathFileName_loop path i in
  k <= i /\
  (forall j, k <= j < i -> path !! j ≠ Some slash) /\
  (k = 0 \/ exists k', k = S k' /\ path !! k' = Some slash).
Proof.
  induction i as [|p IH]; intros Hi; cbv zeta; cbn [pathFileName_loop].
  - split; [lia|]. split; [intros j Hj; lia|by left].
  - destruct (lookup_lt_is_Some_2 path p) as [c Hc]; [lia|].
    unfold char_at. rewrite Hc. cbv iota.
    destruct (Ascii.eqb c slash) eqn:Hs; cbn [negb]; cbv iota.
    + apply Ascii.eqb_eq in Hs. subst c. split; [lia|]. split; [intros j Hj; lia|].
      right. by exists p.
    + apply Ascii.eqb_neq in Hs. destruct (IH ltac:(lia)) as (Hle & Hno & Hk). split; [lia|].
      split; [|done]. intros j Hj. destruct (decide (j = p)) as [->|Hne].
      * rewrite Hc. congruence.
      * apply Hno. lia.
Qed.

Lemma pathFileName_loop_start path :
  pathFileName_loop path (S (length path)) = pathFileName_loop path (length path).
Proof.
  cbn [pathFileName_loop]. unfold char_at. by rewrite lookup_ge_None_2 by lia.
Qed.

(** X14. [pathFileName] splits a path at its last slash: what it returns
    is a suffix of the path with no slash in it, and what comes before it
    is empty or ends with a slash. *)
Theorem pathFileName_splits_at_last_slash (path : cstring) :
  exists dir,
    path = dir ++ pathFileName path /\
    (slash ∉ pathFileName path) /\
    (dir = [] \/ last dir = Some slash).
Proof.
  unfold pathFileName. rewrite pathFileName_loop_start.
  destruct (pathFileName_loop_spec path (length path) ltac:(lia)) as (Hle & Hno & Hk).
  set (k := pathFileName_loop path (length path)) in *.
  exists (take k path). split; [by rewrite take_drop|]. split.
  - intros Hin. apply list_elem_of_lookup in Hin as [j Hj].
    rewrite lookup_drop in Hj. apply (Hno (k + j)); [|done].
    apply lookup_lt_Some in Hj. lia.
  - destruct Hk as [->|(k' & -> & Hk')]; [by left|right].
    rewrite last_lookup, length_take, lookup_take_lt by lia.
    replace (Init.Nat.pred (S k' `min` length path)) with k'; [done|].
    apply lookup_lt_Some in Hk'. lia.
Qed.


(** X15. [pathFileName] is the last component: after a directory part and
    a slash it returns the name that follows, provided the name has no
    slash; a path without any slash is returned whole. *)
Theorem pathFileName_returns_last_component (dir name : cstring) :
  slash ∉ name ->
  pathFileName (dir ++ slash :: name) = name /\ pathFileName name = name.
Proof.
  intros Hname.
  assert (Hnone : forall pre i, i <= length name ->
            pathFileName_loop (pre ++ name) (length pre + i) =
            pathFileName_loop (pre ++ name) (length pre)).
  { intros pre. induction i as [|i IH]; intros Hi; [by rewrite Nat.add_0_r|].
    replace (length pre + S i) with (S (length pre + i)) by lia.
    cbn [pathFileName_loop]. unfold char_at.
    rewrite lookup_app_r by lia.
    replace (length pre + i - length pre) with i by lia.
    destruct (lookup_lt_is_Some_2 name i) as [c Hc]; [lia|]. rewrite Hc.
    cbv iota. destruct (Ascii.eqb c slash) eqn:Hs.
    - apply Ascii.eqb_eq in Hs. subst c. destruct Hname.
      apply list_elem_of_lookup. eauto.
    - cbn [negb]. apply IH. lia. }
  split.
  - unfold pathFileName. rewrite pathFileName_loop_start.
    replace (dir ++ slash :: name) with ((dir ++ [slash]) ++ name)
      by by rewrite <- app_assoc.
    rewrite length_app, (Hnone (dir ++ [slash]) (length name)) by lia.
    rewrite length_app. cbn [length].
    replace (length dir + 1) with (S (length dir)) by lia.
    cbn [pathFileName_loop]. unfold char_at.
    rewrite lookup_app_l by (rewrite length_app; simpl; lia).
    rewrite lookup_app_r by lia. rewrite Nat.sub_diag. cbn.
    rewrite drop_app_length'; [done|]. rewrite length_app. simpl. lia.
  - unfold pathFileName. rewrite pathFileName_loop_start.
    pose proof (Hnone [] (length name) ltac:(lia)) as H0.
    cbn [app length Nat.add pathFileName_loop] in H0. by rewrite H0.
Qed.

(** "a/b/c" and "c". *)
Lemma pathFileName_returns_last_component_witness :
  pathFileName (String.list_ascii_of_string "a/b" ++ slash :: String.list_ascii_of_string "c")
    = String.list_ascii_of_string "c" /\
  pathFileName (String.list_ascii_of_string "c") = String.list_ascii_of_string "c".
Proof.
  apply (pathFileName_returns_last_component
           (String.list_ascii_of_string "a/b") (String.list_ascii_of_string "c")).
  vm_compute. intros H. repeat (apply elem_of_cons in H as [H|H]; [discriminate|]).
  by apply elem_of_nil in H.
Defined.

(** ** [_find] and [main] *)

Section FindProperties.
Variable sys : nat -> cstring -> opened.
Variable DIRSIZ : nat.

Lemma read_loop_elem visit es out x :
  read_loop visit es = Some out ->
  x ∈ out <-> exists de o, de ∈ es /\ visit de = Some o /\ x ∈ o.
Proof.
  revert out. induction es as [|de es IH]; intros out; cbn [read_loop].
  - intros [= <-]. split; [by intros ?%elem_of_nil|].
    by intros (de & o & ?%elem_of_nil & _).
  - destruct (visit de) as [o1|] eqn:Hv; [|done]. cbn [mbind option_bind].
    destruct (read_loop visit es) as [o2|]; [|done]. cbn [mbind option_bind].
    intros [= <-]. rewrite elem_of_app, (IH o2 eq_refl). split.
    + intros [Hx|(de' & o & Hde & Ho & Hx)].
      * exists de, o1. split; [left|done].
      * exists de', o. split; [by right|done].
    + intros (de' & o & Hde & Ho & Hx). apply elem_of_cons in Hde as [->|Hde].
      * left. congruence.
      * right. eauto.
Qed.

Lemma read_loop_each visit es out de :
  read_loop visit es = Some out -> de ∈ es -> is_Some (visit de).
Proof.
  revert out. induction es as [|de' es IH]; intros out H Hde.
  - by apply elem_of_nil in Hde.
  - cbn [read_loop] in H. destruct (visit de') as [o1|] eqn:Hv; [|done].
    cbn [mbind option_bind] in H.
    destruct (read_loop visit es) as [o2|]; [|done].
    apply elem_of_cons in Hde as [->|Hde]; [by rewrite Hv|]. by eapply IH.
Qed.

Lemma read_loop_some visit es :
  (forall de, de ∈ es -> is_Some (visit de)) -> is_Some (read_loop visit es).
Proof.
  induction es as [|de es IH]; intros Hall; cbn [read_loop]; [done|].
  destruct (Hall de) as [o1 ->]; [left|]. cbn [mbind option_bind].
  destruct IH as [o2 ->]; [intros; apply Hall; by right|]. done.
Qed.

Lemma read_loop_ext visit visit' es :
  (forall de, de ∈ es -> visit de = visit' de) ->
  read_loop visit es = read_loop visit' es.
Proof.
  induction es as [|de es IH]; intros Hall; cbn [read_loop]; [done|].
  rewrite (Hall de) by left. rewrite IH; [done|]. intros; apply Hall; by right.
Qed.

Lemma child_longer path de : length path < length (child DIRSIZ path de).
Proof. unfold child. rewrite length_app. simpl. lia. Qed.

Lemma enough_le path : enough path <= BUFSZ.
Proof. unfold enough, BUFSZ. destruct (Nat.ltb (512 - 2) (length path)); lia. Qed.

(** With enough fuel [_find] gives a result. *)
Lemma find_enough fileName : forall fuel d path,
  enough path <= fuel -> is_Some (_find sys DIRSIZ fuel d path fileName).
Proof.
  induction fuel as [|fuel IH]; intros d path Hf.
  - unfold enough in Hf. destruct (Nat.ltb (BUFSZ - 2) (length path)) eqn:E; [lia|].
    apply Nat.ltb_ge in E. unfold BUFSZ in *. lia.
  - cbn [_find]. destruct (sys d path) as [| |[| |] es]; try done.
    destruct (Nat.ltb BUFSZ (length path + 1 + DIRSIZ + 1)) eqn:E; [done|].
    apply Nat.ltb_ge in E. apply read_loop_some. intros de _.
    destruct (skipped DIRSIZ de); [done|]. apply IH.
    pose proof (child_longer path de) as Hc. unfold enough in *.
    unfold BUFSZ in *.
    destruct (Nat.ltb (512 - 2) (length path)) eqn:E1;
      [apply Nat.ltb_lt in E1; lia|].
    destruct (Nat.ltb (512 - 2) (length (child DIRSIZ path de))) eqn:E2; lia.
Qed.

(** More fuel does not change a result. *)
Lemma find_more_fuel fileName : forall fuel d path out,
  _find sys DIRSIZ fuel d path fileName = Some out ->
  forall fuel', fuel <= fuel' -> _find sys DIRSIZ fuel' d path fileName = Some out.
Proof.
  induction fuel as [|fuel IH]; intros d path out H fuel' Hle; [done|].
  destruct fuel' as [|fuel']; [lia|]. cbn [_find] in *.
  destruct (sys d path) as [| |[| |] es]; try done.
  destruct (Nat.ltb BUFSZ (length path + 1 + DIRSIZ + 1)); [done|].
  revert out H. induction es as [|de es IHes]; intros out H; [done|].
  cbn [read_loop] in *.
  destruct (skipped DIRSIZ de).
  - cbn [mbind option_bind] in *.
    destruct (read_loop _ es) as [o2|] eqn:E2 in H; [|done].
    by rewrite (IHes o2 E2).
  - destruct (_find sys DIRSIZ fuel (S d) (child DIRSIZ path de) fileName) as [o1|] eqn:E1; [|done].
    rewrite (IH _ _ _ E1 fuel') by lia. cbn [mbind option_bind] in *.
    destruct (read_loop _ es) as [o2|] eqn:E2 in H; [|done].
    by rewrite (IHes o2 E2).
Qed.

(** X16. The recursion of [_find] is bounded on every file system,
    however deep or cyclic: every level makes the path longer and a
    directory whose path does not leave room in the 512-byte buffer is
    not descended into, so [_find] gives its result within 512 nested
    calls, and the same result for any larger bound. *)
Theorem find_terminates d path fileName fuel :
  BUFSZ <= fuel ->
  exists out, _find sys DIRSIZ BUFSZ d path fileName = Some out /\
              _find sys DIRSIZ fuel d path fileName = Some out.
Proof.
  intros Hf.
  destruct (find_enough fileName BUFSZ d path (enough_le path)) as [out Hout].
  exists out. split; [done|]. by apply (find_more_fuel fileName BUFSZ).
Qed.

(** X17. What [_find] reports: it writes [Found p] exactly for the paths
    [p] it gets to from [path] (down through directories that fit the
    buffer, by entries that are in use and are neither "." nor "..")
    that are regular files whose last component is [fileName]. *)
Theorem find_reports_exactly_the_matching_files fileName : forall fuel d path out,
  _find sys DIRSIZ fuel d path fileName = Some out ->
  forall p, Found p ∈ out <->
    exists d', visits sys DIRSIZ d path d' p /\
               (exists es, sys d' p = Stat T_FILE es) /\
               pathFileName p = fileName.
Proof.
  induction fuel as [|fuel IH]; intros d path out H p; [done|].
  cbn [_find] in H.
  destruct (sys d path) as [| |[| |] es] eqn:Hsys.
  - (* open fails *)
    inversion H; subst. split.
    + intros Hin. apply list_elem_of_singleton in Hin. done.
    + intros (d' & Hv & [es Hs] & _). inversion Hv; subst; congruence.
  - inversion H; subst. split.
    + intros Hin. apply list_elem_of_singleton in Hin. done.
    + intros (d' & Hv & [es Hs] & _). inversion Hv; subst; congruence.
  - (* a directory *)
    destruct (Nat.ltb BUFSZ (length path + 1 + DIRSIZ + 1)) eqn:E.
    + apply Nat.ltb_lt in E. inversion H; subst. split.
      * intros Hin. apply list_elem_of_singleton in Hin. done.
      * intros (d' & Hv & [es' Hs] & _). inversion Hv; subst; [congruence|lia].
    + apply Nat.ltb_ge in E. rewrite (read_loop_elem _ _ _ _ H). split.
      * intros (de & o & Hde & Ho & Hin).
        destruct (skipped DIRSIZ de) eqn:Hsk.
        { inversion Ho; subst. by apply elem_of_nil in Hin. }
        destruct (proj1 (IH _ _ _ Ho p) Hin) as (d' & Hv & Hs & Hn).
        exists d'. split; [|done]. by eapply visits_down.
      * intros (d' & Hv & [es' Hs] & Hn).
        inversion Hv as [|? ? es0 de ? ? Hs0 Hfit Hde Hsk Hv']; subst; [congruence|].
        rewrite Hsys in Hs0. inversion Hs0; subst es0.
        destruct (read_loop_each _ _ _ de H Hde) as [o Ho].
        exists de, o. split; [done|]. split; [done|].
        rewrite Hsk in Ho. apply (IH _ _ _ Ho p). eauto.
  - (* a regular file *)
    inversion H; subst. split.
    + case_bool_decide as Hn; [|by intros ?%elem_of_nil].
      intros Hin. apply list_elem_of_singleton in Hin. inversion Hin; subst.
      exists d. split; [constructor|]. eauto.
    + intros (d' & Hv & [es' Hs] & Hn). inversion Hv; subst; [|congruence].
      rewrite bool_decide_eq_true_2 by done. by apply list_elem_of_singleton.
  - inversion H; subst. split.
    + by intros ?%elem_of_nil.
    + intros (d' & Hv & [es' Hs] & _). inversion Hv; subst; congruence.
Qed.

Lemma length_cstr n bytes : length (cstr n bytes) <= n.
Proof.
  revert bytes. induction n as [|n IH]; intros [|c bytes]; cbn [cstr length]; try lia.
  destruct (Ascii.eqb c Ascii.zero); cbn [length]; [lia|]. specialize (IH bytes). lia.
Qed.

(** X19. Every path [_find] reports starts with the path it was given,
    and every reported path other than that one was put together inside
    the 512-byte buffer, its terminating NUL included. *)
Theorem find_reports_paths_below_start fileName : forall fuel d path out p,
  _find sys DIRSIZ fuel d path fileName = Some out ->
  Found p ∈ out ->
  path `prefix_of` p /\ (p ≠ path -> length p + 1 <= BUFSZ).
Proof.
  induction fuel as [|fuel IH]; intros d path out p H Hin; [done|].
  cbn [_find] in H.
  destruct (sys d path) as [| |[| |] es] eqn:Hsys.
  - inversion H; subst. by apply list_elem_of_singleton in Hin.
  - inversion H; subst. by apply list_elem_of_singleton in Hin.
  - destruct (Nat.ltb BUFSZ (length path + 1 + DIRSIZ + 1)) eqn:E.
    + inversion H; subst. by apply list_elem_of_singleton in Hin.
    + apply Nat.ltb_ge in E.
      apply (read_loop_elem _ _ _ _ H) in Hin as (de & o & Hde & Ho & Hin).
      destruct (skipped DIRSIZ de).
      { inversion Ho; subst. by apply elem_of_nil in Hin. }
      destruct (IH _ _ _ _ Ho Hin) as [Hpre Hlen].
      assert (Hc : length (child DIRSIZ path de) + 1 <= BUFSZ).
      { unfold child. rewrite length_app. cbn [length].
        pose proof (length_cstr DIRSIZ (name de)). lia. }
      split.
      * etrans; [|exact Hpre]. by apply prefix_app_r.
      * intros _. destruct (decide (p = child DIRSIZ path de)) as [->|Hne]; auto.
  - inversion H; subst. case_bool_decide; [|by apply elem_of_nil in Hin].
    apply list_elem_of_singleton in Hin. inversion Hin; subst. done.
  - inversion H; subst. by apply elem_of_nil in Hin.
Qed.

(** X18. [main] always ends: with exactly two arguments it runs [_find]
    and exits with status 0 whatever [_find] wrote, also when the start
    path could not be opened; with any other number of arguments it
    writes "find error" and exits with status 1. *)
Theorem find_main_exit_status argv :
  exists code out,
    find_main sys DIRSIZ BUFSZ argv = Some (code, out) /\
    (length argv = 3 -> code = 0%Z /\
       exists path fileName, argv !! 1 = Some path /\ argv !! 2 = Some fileName /\
                             _find sys DIRSIZ BUFSZ 0 path fileName = Some out) /\
    (length argv ≠ 3 -> code = 1%Z /\ out = [FindError]).
Proof.
  destruct argv as [|a0 [|path [|fileName [|a3 argv]]]]; cbn [find_main];
    try (eexists _, _; split; [done|]; split; [by intros [=]|done]).
  destruct (find_enough fileName BUFSZ 0 path (enough_le path)) as [out Hout].
  rewrite Hout. exists 0%Z, out. split; [done|]. split; [|done].
  intros _. split; [done|]. by exists path, fileName.
Qed.
End FindProperties.

(** [find "" b] on the sample. *)
Lemma find_sample :
  _find sample_sys 14 BUFSZ 0 (sample_name "") (sample_name "b") =
  Some [Found (sample_name "/b"); Found (sample_name "/d/b")].
Proof. vm_compute. reflexivity. Qed.

Lemma find_terminates_witness :
  exists out, _find sample_sys 14 BUFSZ 0 (sample_name "") (sample_name "b") = Some out /\
              _find sample_sys 14 600 0 (sample_name "") (sample_name "b") = Some out.
Proof. apply (find_terminates sample_sys 14 0 (sample_name "") (sample_name "b") 600). unfold BUFSZ. lia. Defined.

Lemma find_reports_exactly_the_matching_files_witness :
  Found (sample_name "/d/b")
    ∈ [Found (sample_name "/b"); Found (sample_name "/d/b")] <->
  exists d', visits sample_sys 14 0 (sample_name "") d' (sample_name "/d/b") /\
             (exists es, sample_sys d' (sample_name "/d/b") = Stat T_FILE es) /\
             pathFileName (sample_name "/d/b") = sample_name "b".
Proof.
  apply (find_reports_exactly_the_matching_files sample_sys 14 (sample_name "b")
           BUFSZ 0 (sample_name "")).
  vm_compute. reflexivity.
Defined.

Lemma find_reports_paths_below_start_witness :
  sample_name "" `prefix_of` sample_name "/d/b" /\
  (sample_name "/d/b" ≠ sample_name "" -> length (sample_name "/d/b") + 1 <= BUFSZ).
Proof.
  apply (find_reports_paths_below_start sample_sys 14 (sample_name "b") BUFSZ 0
           (sample_name "")
           [Found (sample_name "/b"); Found (sample_name "/d/b")]).
  - vm_compute. reflexivity.
  - right. left.
Defined.
